(** * AdvancedMessyDataGenerator: a shallow embedding of
      [messy_data_generator.py] and the properties of its pipeline
      (profile -> expand -> corrupt -> shuffle).

    Conventions of the embedding.
    - Python floats that carry rates and numeric cells are exact rationals
      ([Q]); [int(x)] is truncation toward zero.
    - A timestamp is its number of seconds since the epoch, a rational.
    - Python strings are [string]s of 8-bit characters; [upper] and [lower]
      act on the ASCII letters.
    - The process-wide random source is an explicit entropy stream: every
      call of [random.random], [random.choice], [random.randint],
      [random.uniform], [random.choices], [np.random.choice] and
      [DataFrame.sample] consumes raw words of that stream, in the order in
      which the program performs the calls.  A statement "for every run" is
      a statement for every entropy stream.
    - Exceptions are [None] results of the monad [M]. *)

From Stdlib Require Import String Ascii DecimalString.
From Stdlib Require Import ZArith QArith Qround Qabs Qminmax.
From Stdlib Require Import Lia Lqa Bool Arith PeanoNat Permutation List.
Import ListNotations.

Set Implicit Arguments.
Local Open Scope nat_scope.

(** ** Cell values *)

(** What a cell of a table can hold: [None]/[NaN], [pd.NaT], a number, a
    timestamp, a string. *)
Inductive value : Type :=
| VNone
| VNaT
| VNum (x : Q)
| VTime (t : Q)
| VStr (s : string).

(** [pd.isnull] *)
Definition isnull (v : value) : bool :=
  match v with
  | VNone | VNaT => true
  | _ => false
  end.

(** [isinstance(v, str)] *)
Definition is_str (v : value) : bool :=
  match v with
  | VStr _ => true
  | _ => false
  end.

Definition Qltb (x y : Q) : bool := negb (Qle_bool y x).

(** Equality of cell values as [unique] and [duplicated] see it (numbers
    compare by value). *)
Definition value_eqb (a b : value) : bool :=
  match a, b with
  | VNone, VNone => true
  | VNaT, VNaT => true
  | VNum x, VNum y => Qeq_bool x y
  | VTime x, VTime y => Qeq_bool x y
  | VStr s, VStr t => String.eqb s t
  | _, _ => false
  end.

(** ** Strings *)

Module PyStr.

Definition is_lower (c : ascii) : bool :=
  let n := nat_of_ascii c in (97 <=? n) && (n <=? 122).

Definition is_upper (c : ascii) : bool :=
  let n := nat_of_ascii c in (65 <=? n) && (n <=? 90).

Definition is_alpha (c : ascii) : bool := is_lower c || is_upper c.

Definition is_digit (c : ascii) : bool :=
  let n := nat_of_ascii c in (48 <=? n) && (n <=? 57).

Definition upper_char (c : ascii) : ascii :=
  if is_lower c then ascii_of_nat (nat_of_ascii c - 32) else c.

Definition lower_char (c : ascii) : ascii :=
  if is_upper c then ascii_of_nat (nat_of_ascii c + 32) else c.

Fixpoint map_chars (f : ascii -> ascii) (s : string) : string :=
  match s with
  | EmptyString => EmptyString
  | String c t => String (f c) (map_chars f t)
  end.

(** [s.upper()], [s.lower()] *)
Definition upper (s : string) : string := map_chars upper_char s.
Definition lower (s : string) : string := map_chars lower_char s.

(** [s.replace(old, new)] for a one-character [old]. *)
Fixpoint replace (old : ascii) (new : string) (s : string) : string :=
  match s with
  | EmptyString => EmptyString
  | String c t =>
      if Ascii.eqb c old then (new ++ replace old new t)%string
      else String c (replace old new t)
  end.

(** [s[::-1]] *)
Fixpoint reverse (s : string) : string :=
  match s with
  | EmptyString => EmptyString
  | String c t => (reverse t ++ String c EmptyString)%string
  end.

(** [''.join(chars)] *)
Definition join (l : list ascii) : string := string_of_list_ascii l.

(** [str(n)] for a non-negative integer. *)
Definition str_of_nat (n : nat) : string :=
  NilZero.string_of_uint (Nat.to_uint n).

Definition space : ascii := " "%char.

(** [string.ascii_letters], [string.digits] *)
Definition ascii_letters : list ascii :=
  list_ascii_of_string "abcdefghijklmnopqrstuvwxyzABCDEFGHIJKLMNOPQRSTUVWXYZ".
Definition digits : list ascii := list_ascii_of_string "0123456789".

End PyStr.

(** ** The random source *)

(** The state of the generator: an entropy stream and the number of words
    consumed so far. *)
Record rng : Type := { source : nat -> N; cursor : nat }.

(** Computations that draw random numbers and may raise. *)
Definition M (A : Type) : Type := rng -> option (A * rng).

Definition ret {A} (a : A) : M A := fun g => Some (a, g).

Definition bind {A B} (m : M A) (f : A -> M B) : M B :=
  fun g => match m g with
           | Some (a, g') => f a g'
           | None => None
           end.

Definition raise {A} : M A := fun _ => None.

Declare Scope rand_scope.
Delimit Scope rand_scope with rand.
Notation "x <- c ;; k" := (bind c (fun x => k))
  (at level 61, c at next level, right associativity) : rand_scope.
Notation "c ;;; k" := (bind c (fun _ => k))
  (at level 61, right associativity) : rand_scope.
Local Open Scope rand_scope.

Module Random.

(** One raw word of entropy. *)
Definition next_word : M N :=
  fun g => Some (source g (cursor g),
                 {| source := source g; cursor := S (cursor g) |}).

(** [Random._randbelow(n)]: a uniform integer in [0, n); there is no such
    integer when [n = 0]. *)
Definition randbelow (n : nat) : M nat :=
  match n with
  | O => raise
  | _ => w <- next_word ;; ret (N.to_nat (w mod N.of_nat n))
  end.

Definition two53 : positive := 9007199254740992%positive.

(** [random.random()]: a 53-bit integer divided by 2^53, in [0, 1). *)
Definition random : M Q :=
  w <- next_word ;; ret (Z.of_N (w mod Npos two53) # two53).

(** [random.uniform(a, b)] is [a + (b - a) * random()]. *)
Definition uniform (a b : Q) : M Q :=
  u <- random ;; ret (a + (b - a) * u)%Q.

(** [random.randint(a, b)]: uniform in [a, b], raises when the range is
    empty. *)
Definition randint (a b : Z) : M Z :=
  k <- randbelow (Z.to_nat (b - a + 1)) ;; ret (a + Z.of_nat k)%Z.

(** [random.choice(seq)]: [seq[randbelow(len(seq))]], raises on an empty
    sequence. *)
Definition choice {A} (seq : list A) : M A :=
  match seq with
  | [] => raise
  | d :: _ => i <- randbelow (length seq) ;; ret (nth i seq d)
  end.

(** [random.choices(population, k=k)]: [k] times
    [population[floor(random() * n)]]. *)
Fixpoint choices {A} (population : list A) (k : nat) : M (list A) :=
  match k with
  | O => ret []
  | S k' =>
      match population with
      | [] => raise
      | d :: _ =>
          u <- random ;;
          let i := Z.to_nat (Qfloor (u * inject_Z (Z.of_nat (length population)))) in
          rest <- choices population k' ;;
          ret (nth i population d :: rest)
      end
  end.

(** [np.random.choice(a, size=k, replace=True)] over the positions
    [0 .. n-1]: [k] independent uniform positions.  A negative size and a
    positive size over an empty population raise. *)
Fixpoint draw_indices (n k : nat) : M (list nat) :=
  match k with
  | O => ret []
  | S k' => i <- randbelow n ;; rest <- draw_indices n k' ;; ret (i :: rest)
  end.

Definition np_choice (n : nat) (size : Z) : M (list nat) :=
  if (size <? 0)%Z then raise else draw_indices n (Z.to_nat size).

(** A uniform random permutation, as successive uniform picks without
    replacement ([DataFrame.sample(frac=1)]). *)
Fixpoint remove_nth {A} (i : nat) (l : list A) : list A :=
  match l, i with
  | [], _ => []
  | _ :: t, O => t
  | x :: t, S i' => x :: remove_nth i' t
  end.

Fixpoint permute {A} (n : nat) (l : list A) : M (list A) :=
  match n, l with
  | S n', d :: _ =>
      i <- randbelow (length l) ;;
      rest <- permute n' (remove_nth i l) ;;
      ret (nth i l d :: rest)
  | _, _ => ret []
  end.

Definition shuffle {A} (l : list A) : M (list A) := permute (length l) l.

End Random.

(** ** Python dictionaries and lists *)

(** A [dict] with string keys, in insertion order (the order in which
    [.items()] iterates). *)
Module Dict.

Definition t (V : Type) : Type := list (string * V).

Definition keys {V} (d : t V) : list string := map fst d.
Definition values {V} (d : t V) : list V := map snd d.

Fixpoint get {V} (k : string) (d : t V) : option V :=
  match d with
  | [] => None
  | (k', v) :: rest => if String.eqb k k' then Some v else get k rest
  end.

(** [d[k] = v]: overwrite in place, or insert at the end. *)
Fixpoint set {V} (k : string) (v : V) (d : t V) : t V :=
  match d with
  | [] => [(k, v)]
  | (k', v') :: rest =>
      if String.eqb k k' then (k, v) :: rest else (k', v') :: set k v rest
  end.

End Dict.

Definition mem (k : string) (l : list string) : bool := existsb (String.eqb k) l.

(** [l[i] = f(l[i])], nothing when [i] is not a position of [l]. *)
Fixpoint update_nth {A} (i : nat) (f : A -> A) (l : list A) : list A :=
  match l, i with
  | [], _ => []
  | x :: t, O => f x :: t
  | x :: t, S i' => x :: update_nth i' f t
  end.

(** [int(x)] of a float, truncation toward zero. *)
Definition py_int (x : Q) : Z := Z.quot (Qnum x) (Zpos (Qden x)).

Definition Qnat (n : nat) : Q := inject_Z (Z.of_nat n).

(** [for _ in range(n): s = body(s)] *)
Fixpoint for_range {S} (n : nat) (body : S -> M S) (s : S) : M S :=
  match n with
  | O => ret s
  | S n' => s' <- body s ;; for_range n' body s'
  end.

(** ** The sample table and its column profiles *)

(** A column of the sample, by dtype: a numeric dtype holds numbers or NaN,
    a datetime64 dtype timestamps or NaT, the object dtype any value. *)
Inductive Column : Type :=
| NumericColumn (cells : list (option Q))
| DatetimeColumn (cells : list (option Q))
| ObjectColumn (cells : list value).

(** The sample table, column by column ([sample_df.columns] are the keys). *)
Definition Sample : Type := list (string * Column).

Definition sample_columns (s : Sample) : list string := map fst s.

(** The entry [column_info[col]]: a dict tagged by its ['type'], with the
    keys that the tag carries (['min'], ['max'], ['samples'],
    ['unique_values']). *)
Inductive col_info : Type :=
| mixed (samples : list value)
| numeric (min max : Q) (samples : list value)
| datetime (min max : Q) (samples : list value)
| categorical (samples unique_values : list value)
| text (samples unique_values : list value).

Definition samples_of (info : col_info) : list value :=
  match info with
  | mixed s | numeric _ _ s | datetime _ _ s | categorical s _ | text s _ => s
  end.

(** [info['type'] in ['text', 'categorical']] *)
Definition is_text_like (info : col_info) : bool :=
  match info with
  | categorical _ _ | text _ _ => true
  | _ => false
  end.

(** [info['type'] == 'numeric'], [info['type'] == 'datetime'] *)
Definition is_numeric (info : col_info) : bool :=
  match info with numeric _ _ _ => true | _ => false end.
Definition is_datetime (info : col_info) : bool :=
  match info with datetime _ _ _ => true | _ => false end.

(** [Series.dropna()] *)
Definition dropna_cells (cells : list (option Q)) : list Q :=
  flat_map (fun o => match o with Some x => [x] | None => [] end) cells.

Definition dropna (cells : list value) : list value :=
  filter (fun v => negb (isnull v)) cells.

(** [Series.unique()]: the distinct values, in order of first appearance. *)
Fixpoint unique_from (seen l : list value) : list value :=
  match l with
  | [] => []
  | x :: t =>
      if existsb (value_eqb x) seen then unique_from seen t
      else x :: unique_from (x :: seen) t
  end.

Definition unique (l : list value) : list value := unique_from [] l.

(** [Series.min()], [Series.max()] of a non-empty series [x :: t]. *)
Definition series_min (x : Q) (t : list Q) : Q := fold_left Qmin t x.
Definition series_max (x : Q) (t : list Q) : Q := fold_left Qmax t x.

(** The body of the loop of [_analyze_columns] for one column: the nulls
    are dropped, an empty rest is mixed, and the dtype decides otherwise. *)
Definition analyze_column (c : Column) : col_info :=
  match c with
  | NumericColumn cells =>
      match dropna_cells cells with
      | [] => mixed []
      | x :: t =>
          numeric (series_min x t) (series_max x t) (map VNum (x :: t))
      end
  | DatetimeColumn cells =>
      match dropna_cells cells with
      | [] => mixed []
      | x :: t =>
          datetime (series_min x t) (series_max x t) (map VTime (x :: t))
      end
  | ObjectColumn cells =>
      let col_data := dropna cells in
      match col_data with
      | [] => mixed []
      | _ :: _ =>
          let unique_vals := unique col_data in
          if Qltb (Qnat (length unique_vals)) (Qnat (length col_data) * (8 # 10))
          then categorical col_data unique_vals
          else text col_data unique_vals
      end
  end.

(** [_analyze_columns] *)
Definition _analyze_columns (sample_df : Sample) : Dict.t col_info :=
  fold_left (fun column_info '(col, c) => Dict.set col (analyze_column c) column_info)
            sample_df [].

(** The generator object. *)
Record Generator : Type := {
  sample_df : Sample;
  column_types : Dict.t col_info
}.

(** [__init__]: [None] for the sample raises [ValueError]. *)
Definition __init__ (sample : option Sample) : option Generator :=
  match sample with
  | None => None
  | Some df => Some {| sample_df := df; column_types := _analyze_columns df |}
  end.

(** ** Working tables *)

(** A row of a table: the cell of every column. *)
Definition Row : Type := Dict.t value.

(** A [DataFrame] built by the generator: its columns and its rows, with
    the default index [0 .. len-1]. *)
Record DataFrame : Type := { columns : list string; rows : list Row }.

(** [len(df)], [df.shape] *)
Definition len (df : DataFrame) : nat := length (rows df).
Definition shape (df : DataFrame) : nat * nat := (len df, length (columns df)).

(** Union of labels, in order of first appearance. *)
Definition add_key (acc : list string) (k : string) : list string :=
  if mem k acc then acc else acc ++ [k].
Definition union (a b : list string) : list string := fold_left add_key b a.

(** A record aligned on the labels [cols]; a missing cell is NaN. *)
Definition reindex (cols : list string) (r : Row) : Row :=
  map (fun c => (c, match Dict.get c r with Some v => v | None => VNone end)) cols.

(** [pd.DataFrame(records)] for a list of dicts or of row Series: the columns
    are the union of the records' keys, so an empty list gives a table
    without columns. *)
Definition DataFrame_of (records : list Row) : DataFrame :=
  let cols := fold_left (fun acc r => union acc (Dict.keys r)) records [] in
  {| columns := cols; rows := map (reindex cols) records |}.

(** [pd.concat([a, b], ignore_index=True)] *)
Definition concat (a b : DataFrame) : DataFrame :=
  let cols := union (columns a) (columns b) in
  {| columns := cols; rows := map (reindex cols) (rows a ++ rows b) |}.

(** [df.iloc[idx].copy()]: [IndexError] outside the table. *)
Definition iloc (df : DataFrame) (idx : nat) : option Row := nth_error (rows df) idx.

(** [df.at[r, c]]: [KeyError] for a missing label. *)
Definition at_get (df : DataFrame) (r : nat) (c : string) : option value :=
  match nth_error (rows df) r with
  | Some row => Dict.get c row
  | None => None
  end.

(** [df.at[r, c] = v].  A label [c] that is not a column enlarges the table
    by that column, NaN elsewhere; a row label that is not in the index
    appends a row.  (The program only writes rows drawn by
    [randint(0, len(df) - 1)].) *)
Definition at_set (df : DataFrame) (r : nat) (c : string) (v : value) : DataFrame :=
  if r <? len df then
    if mem c (columns df)
    then {| columns := columns df;
            rows := update_nth r (Dict.set c v) (rows df) |}
    else
      let cols := columns df ++ [c] in
      {| columns := cols;
         rows := update_nth r (Dict.set c v) (map (reindex cols) (rows df)) |}
  else
    let cols := add_key (columns df) c in
    {| columns := cols;
       rows := map (reindex cols) (rows df) ++ [Dict.set c v (reindex cols [])] |}.

(** [df.sample(frac=1).reset_index(drop=True)] *)
Definition sample_frac1 (df : DataFrame) : M DataFrame :=
  rs <- Random.shuffle (rows df) ;; ret {| columns := columns df; rows := rs |}.

(** Null cells of a table ([df.isnull().sum().sum()]). *)
Definition null_count (df : DataFrame) : nat :=
  length (filter isnull (flat_map (@Dict.values value) (rows df))).

(** Lifting of a lookup that raises when the label is missing. *)
Definition must {A} (o : option A) : M A :=
  match o with
  | Some a => ret a
  | None => raise
  end.

(** ** Value synthesis and expansion *)

Definition suffixes : list string :=
  [" Jr"; " Sr"; " II"; " Inc"; " LLC"]%string.

(** The list [variations] of [_generate_text_variation] for a non-empty
    string: the string followed by an integer, its spaces replaced by
    underscores, the string followed by a suffix, and a string of drawn
    letters. *)
Definition variations_of (s : string) (n : nat) (suffix : string)
  (letters : list ascii) : list value :=
  [ VStr (s ++ PyStr.str_of_nat n);
    VStr (PyStr.replace PyStr.space "_" s);
    VStr (s ++ suffix);
    VStr (PyStr.join letters) ]%string.

(** [_generate_text_variation] *)
Definition _generate_text_variation (original_text : value) : M value :=
  match original_text with
  | VStr s =>
      if String.length s =? 0 then ret original_text
      else
        n <- Random.randint 1 999 ;;
        suffix <- Random.choice suffixes ;;
        letters <- Random.choices PyStr.ascii_letters (String.length s) ;;
        let variations := variations_of s (Z.to_nat n) suffix letters in
        Random.choice variations
  | _ => ret original_text
  end.

(** [_generate_similar_value] *)
Definition _generate_similar_value (column : string) (info : col_info) : M value :=
  if length (samples_of info) =? 0 then ret VNone
  else
    match info with
    | numeric min_val max_val samples =>
        u <- Random.random ;;
        if Qltb u (7 # 10) then Random.choice samples
        else x <- Random.uniform min_val max_val ;; ret (VNum x)
    | datetime min_date max_date samples =>
        u <- Random.random ;;
        if Qltb u (7 # 10) then Random.choice samples
        else t <- Random.uniform min_date max_date ;; ret (VTime t)
    | categorical _ unique_values => Random.choice unique_values
    | text samples _ =>
        sample_text <- Random.choice samples ;;
        u <- Random.random ;;
        if Qltb u (8 # 10) then ret sample_text
        else _generate_text_variation sample_text
    | mixed samples => Random.choice samples
    end.

(** The inner loop of [_expand_data]: one record, a cell per profiled
    column. *)
Fixpoint new_record (items : Dict.t col_info) (record : Row) : M Row :=
  match items with
  | [] => ret record
  | (col, info) :: rest =>
      v <- _generate_similar_value col info ;;
      new_record rest (Dict.set col v record)
  end.

Fixpoint expanded_records (self : Generator) (n : nat) : M (list Row) :=
  match n with
  | O => ret []
  | S n' =>
      r <- new_record (column_types self) [] ;;
      rest <- expanded_records self n' ;;
      ret (r :: rest)
  end.

(** [_expand_data]; [range(target_rows)] is empty for a negative bound. *)
Definition _expand_data (self : Generator) (target_rows : Z) : M DataFrame :=
  records <- expanded_records self (Z.to_nat target_rows) ;;
  ret (DataFrame_of records).

(** ** The corruption passes *)

(** The columns of a given kind, in profile order. *)
Definition cols_where (p : col_info -> bool) (self : Generator) : list string :=
  Dict.keys (filter (fun '(_, info) => p info) (column_types self)).

Definition text_cols (self : Generator) : list string := cols_where is_text_like self.
Definition numeric_cols (self : Generator) : list string := cols_where is_numeric self.
Definition datetime_cols (self : Generator) : list string := cols_where is_datetime self.

(** The list [modifications] of [_add_smart_duplicates]: a trailing space,
    upper case, lower case, spaces removed. *)
Definition modifications (s : string) : list string :=
  [ s ++ " "; PyStr.upper s; PyStr.lower s; PyStr.replace PyStr.space "" s ]%string.

(** The near-duplicate branch of [_add_smart_duplicates]. *)
Definition near_duplicate (self : Generator) (duplicate : Row) : M Row :=
  match text_cols self with
  | [] => ret duplicate
  | _ :: _ =>
      col_to_modify <- Random.choice (text_cols self) ;;
      original_val <- must (Dict.get col_to_modify duplicate) ;;
      match original_val with
      | VStr s =>
          m <- Random.choice (modifications s) ;;
          ret (Dict.set col_to_modify (VStr m) duplicate)
      | _ => ret duplicate
      end
  end.

(** The body of the loop of [_add_smart_duplicates], for one drawn
    position. *)
Definition duplicate_of (self : Generator) (df : DataFrame) (idx : nat) : M Row :=
  duplicate <- must (iloc df idx) ;;
  u <- Random.random ;;
  if Qltb u (3 # 10) then near_duplicate self duplicate else ret duplicate.

(** The loop of [_add_smart_duplicates] over the drawn positions. *)
Fixpoint duplicates_of (self : Generator) (df : DataFrame) (idxs : list nat)
  : M (list Row) :=
  match idxs with
  | [] => ret []
  | idx :: rest =>
      d <- duplicate_of self df idx ;;
      ds <- duplicates_of self df rest ;;
      ret (d :: ds)
  end.

(** [_add_smart_duplicates] *)
Definition _add_smart_duplicates (self : Generator) (df : DataFrame) (rate : Q)
  : M DataFrame :=
  let num_duplicates := py_int (Qnat (len df) * rate) in
  duplicate_indices <- Random.np_choice (len df) num_duplicates ;;
  duplicates <- duplicates_of self df duplicate_indices ;;
  let duplicate_df := DataFrame_of duplicates in
  ret (concat df duplicate_df).

(** The weighted pool of [_add_strategic_nulls]. *)
Definition null_prone_cols (self : Generator) : list string :=
  flat_map (fun '(col, info) =>
              if is_text_like info then [col; col; col] else [col])
           (column_types self).

(** [random.randint(0, len(df) - 1)] *)
Definition random_row (df : DataFrame) : M nat :=
  i <- Random.randint 0 (Z.of_nat (len df) - 1) ;; ret (Z.to_nat i).

(** [_add_strategic_nulls] *)
Definition _add_strategic_nulls (self : Generator) (df : DataFrame) (rate : Q)
  : M DataFrame :=
  let total_cells := fst (shape df) * snd (shape df) in
  let num_nulls := py_int (Qnat total_cells * rate) in
  let pool := null_prone_cols self in
  for_range (Z.to_nat num_nulls)
    (fun df =>
       row_idx <- random_row df ;;
       col_name <- Random.choice pool ;;
       ret (at_set df row_idx col_name VNone))
    df.

(** The list [wrong_values] of [_add_wrong_ranges]. *)
Definition wrong_values (min max : Q) : list Q :=
  [ min - Qabs (max - min);
    max + Qabs (max - min);
    - (999999 # 1);
    999999 # 1;
    if Qltb 0 min then 0 else - (1 # 1) ]%Q.

(** [_add_wrong_ranges] *)
Definition _add_wrong_ranges (self : Generator) (df : DataFrame) (rate : Q)
  : M DataFrame :=
  let num_wrong := py_int (Qnat (len df) * rate) in
  for_range (Z.to_nat num_wrong)
    (fun df =>
       row_idx <- random_row df ;;
       match numeric_cols self with
       | [] => ret df
       | _ :: _ =>
           col <- Random.choice (numeric_cols self) ;;
           info <- must (Dict.get col (column_types self)) ;;
           match info with
           | numeric min max _ =>
               w <- Random.choice (wrong_values min max) ;;
               ret (at_set df row_idx col (VNum w))
           | _ => raise
           end
       end)
    df.

(** The list [wrong_dates] of [_add_wrong_timestamps]: 1900-01-01,
    2100-01-01, NaT and the epoch. *)
Definition wrong_dates : list value :=
  [ VTime (- (2208988800 # 1)); VTime (4102444800 # 1); VNaT; VTime 0 ].

(** [_add_wrong_timestamps] *)
Definition _add_wrong_timestamps (self : Generator) (df : DataFrame) (rate : Q)
  : M DataFrame :=
  let num_wrong := py_int (Qnat (len df) * rate) in
  match datetime_cols self with
  | [] => ret df
  | _ :: _ =>
      for_range (Z.to_nat num_wrong)
        (fun df =>
           row_idx <- random_row df ;;
           col <- Random.choice (datetime_cols self) ;;
           w <- Random.choice wrong_dates ;;
           ret (at_set df row_idx col w))
        df
  end.

(** [original[0]] of a non-empty string. *)
Definition first_char (s : string) : ascii :=
  match s with
  | String c _ => c
  | EmptyString => PyStr.space
  end.

(** [_add_text_corruption] *)
Definition _add_text_corruption (self : Generator) (df : DataFrame) (rate : Q)
  : M DataFrame :=
  let num_corrupt := py_int (Qnat (len df) * rate) in
  match text_cols self with
  | [] => ret df
  | _ :: _ =>
      for_range (Z.to_nat num_corrupt)
        (fun df =>
           row_idx <- random_row df ;;
           col <- Random.choice (text_cols self) ;;
           original <- must (at_get df row_idx col) ;;
           match original with
           | VStr s =>
               if 0 <? String.length s then
                 junk <- Random.choices (PyStr.ascii_letters ++ PyStr.digits)
                                        (String.length s) ;;
                 let corruptions :=
                   [ PyStr.upper s; PyStr.lower s; s ++ "???";
                     PyStr.replace (first_char s) "X" s;
                     PyStr.reverse s; s ++ s; ""; PyStr.join junk ]%string in
                 c <- Random.choice corruptions ;;
                 ret (at_set df row_idx col (VStr c))
               else ret df
           | _ => ret df
           end)
        df
  end.

(** The five rates of [generate_messy_data]. *)
Record Rates : Type := {
  duplicate_rate : Q;
  null_rate : Q;
  wrong_range_rate : Q;
  wrong_timestamp_rate : Q;
  text_corruption_rate : Q
}.

(** [_introduce_messiness]; [df.copy()] is the same table in a new object. *)
Definition _introduce_messiness (self : Generator) (df : DataFrame) (rates : Rates)
  : M DataFrame :=
  let messy_df := df in
  messy_df <- _add_smart_duplicates self messy_df (duplicate_rate rates) ;;
  messy_df <- _add_strategic_nulls self messy_df (null_rate rates) ;;
  messy_df <- _add_wrong_ranges self messy_df (wrong_range_rate rates) ;;
  messy_df <- _add_wrong_timestamps self messy_df (wrong_timestamp_rate rates) ;;
  messy_df <- _add_text_corruption self messy_df (text_corruption_rate rates) ;;
  ret messy_df.

(** [generate_messy_data] *)
Definition generate_messy_data (self : Generator) (target_rows : Z) (rates : Rates)
  : M DataFrame :=
  expanded_data <- _expand_data self target_rows ;;
  messy_data <- _introduce_messiness self expanded_data rates ;;
  messy_data <- sample_frac1 messy_data ;;
  ret messy_data.

(** ** Runs *)

(** [wp m post g]: started on the random state [g], the computation [m]
    returns (it does not raise) and its result and final state satisfy
    [post]. *)
Definition wp {A} (m : M A) (post : A -> rng -> Prop) (g : rng) : Prop :=
  match m g with
  | Some (a, g') => post a g'
  | None => False
  end.

(** [returns m P]: on every entropy stream, [m] returns a result that
    satisfies [P]. *)
Definition returns {A} (m : M A) (P : A -> Prop) : Prop :=
  forall g, wp m (fun a _ => P a) g.

(** The [i]-th word that a computation started on [g] will read, the
    float that [random.random()] makes of a word, and the position that
    [randbelow n] makes of it. *)
Definition word (g : rng) (i : nat) : N := source g (cursor g + i).
Definition unit_of (w : N) : Q := Z.of_N (w mod Npos Random.two53) # Random.two53.
Definition index_of (w : N) (n : nat) : nat := N.to_nat (w mod N.of_nat n).

(** The random state after [k] more words have been read. *)
Definition skip (k : nat) (g : rng) : rng :=
  {| source := source g; cursor := cursor g + k |}.

(** ** Well-formed tables *)

(** Every row of a table has one cell per column, in column order. *)
Definition wf (df : DataFrame) : Prop :=
  NoDup (columns df) /\ Forall (fun row => Dict.keys row = columns df) (rows df).

(** A table fits a generator when it is well formed and, unless it has no
    row, its columns are the profiled columns. *)
Definition fits (self : Generator) (df : DataFrame) : Prop :=
  wf df /\
  NoDup (Dict.keys (column_types self)) /\
  (len df = 0 \/ columns df = Dict.keys (column_types self)).

(** Set equality of column lists. *)
Definition same_columns (a b : list string) : Prop :=
  forall c, In c a <-> In c b.

(** ** What the profiler is to compute *)

(** The non-null values of a column, as cell values. *)
Definition nonnull (c : Column) : list value :=
  match c with
  | NumericColumn cells => map VNum (dropna_cells cells)
  | DatetimeColumn cells => map VTime (dropna_cells cells)
  | ObjectColumn cells => dropna cells
  end.

Definition is_min (m : Q) (l : list Q) : Prop :=
  In m l /\ forall x, In x l -> (m <= x)%Q.

Definition is_max (m : Q) (l : list Q) : Prop :=
  In m l /\ forall x, In x l -> (x <= m)%Q.

(** [u] lists the distinct values of [l], each once. *)
Definition distinct_values (u l : list value) : Prop :=
  (forall v, In v u -> In v l) /\
  (forall v, In v l -> exists w, In w u /\ value_eqb v w = true) /\
  ForallOrdPairs (fun a b => value_eqb b a = false) u.

(** The classification rule, in the words of the specification: an empty
    column is mixed-empty; a numeric dtype is numeric and a temporal dtype
    datetime, with the range of the non-null values; any other column is
    categorical when its distinct non-null values are fewer than 0.8 times
    its non-null values, and text otherwise. *)
Inductive Profile : Column -> col_info -> Prop :=
| Profile_mixed c :
    nonnull c = [] -> Profile c (mixed [])
| Profile_numeric cells lo hi :
    dropna_cells cells <> [] ->
    is_min lo (dropna_cells cells) -> is_max hi (dropna_cells cells) ->
    Profile (NumericColumn cells) (numeric lo hi (map VNum (dropna_cells cells)))
| Profile_datetime cells lo hi :
    dropna_cells cells <> [] ->
    is_min lo (dropna_cells cells) -> is_max hi (dropna_cells cells) ->
    Profile (DatetimeColumn cells) (datetime lo hi (map VTime (dropna_cells cells)))
| Profile_categorical cells u :
    dropna cells <> [] -> distinct_values u (dropna cells) ->
    (Qnat (length u) < (8 # 10) * Qnat (length (dropna cells)))%Q ->
    Profile (ObjectColumn cells) (categorical (dropna cells) u)
| Profile_text cells u :
    dropna cells <> [] -> distinct_values u (dropna cells) ->
    ~ (Qnat (length u) < (8 # 10) * Qnat (length (dropna cells)))%Q ->
    Profile (ObjectColumn cells) (text (dropna cells) u).

(** The generator that [AdvancedMessyDataGenerator(sample_df)] builds. *)
Definition generator (sample : Sample) : Generator :=
  {| sample_df := sample; column_types := _analyze_columns sample |}.

(** ** Concrete tables used as examples *)

Definition entropy (l : list N) : rng :=
  {| source := fun i => nth i l 0%N; cursor := 0 |}.

(** A sample with a numeric, a repetitive and a non-repetitive object
    column and an all-null column. *)
Definition sample_pets : Sample :=
  [ ("age", NumericColumn [Some (3 # 1); None; Some (1 # 1); Some (7 # 1); Some (2 # 1)]);
    ("kind", ObjectColumn [VStr "cat"; VStr "dog"; VStr "cat"; VNone; VStr "cat"]);
    ("name", ObjectColumn [VStr "Tom"; VStr "Rex"; VStr "Kit"; VStr "Zoe"; VStr "Max"]);
    ("seen", DatetimeColumn [Some (100 # 1); Some (50 # 1); None; None; None]);
    ("note", ObjectColumn [VNone; VNone; VNone; VNone; VNone]) ]%string.

(** ** Chances *)

(** Of the 2^53 equally likely values of the word that [random.random()]
    reads, the number that make [random.random() < p], and the probability
    that this gives to the event. *)
Definition chances (p : Q) : N :=
  Z.to_N (Qceiling (p * inject_Z (Zpos Random.two53))).

Definition chance (p : Q) : Q := Z.of_N (chances p) # Random.two53.

(** ** What a synthesized value may be *)

(** A profile as the profiler makes them. *)
Definition info_ok (info : col_info) : Prop :=
  match info with
  | mixed s => s = []
  | numeric lo hi s =>
      s <> [] /\
      forall v, In v s -> exists x, v = VNum x /\ (lo <= x /\ x <= hi)%Q
  | datetime lo hi s =>
      s <> [] /\
      forall v, In v s -> exists t, v = VTime t /\ (lo <= t /\ t <= hi)%Q
  | categorical s u =>
      s <> [] /\ u <> [] /\ (forall v, In v u -> In v s) /\
      (forall v, In v s -> isnull v = false)
  | text s u =>
      s <> [] /\ (forall v, In v s -> isnull v = false)
  end.

(** The values that one synthesis for a profile can give. *)
Definition similar_to (info : col_info) (v : value) : Prop :=
  match info with
  | mixed _ => v = VNone
  | numeric lo hi _ => exists x, v = VNum x /\ (lo <= x /\ x <= hi)%Q
  | datetime lo hi _ => exists t, v = VTime t /\ (lo <= t /\ t <= hi)%Q
  | categorical _ u => In v u
  | text s _ => In v s \/ exists t, v = VStr t
  end.

(** ** What an expanded table is *)

(** A generator whose profile map is as [_analyze_columns] makes them. *)
Definition profiled (self : Generator) : Prop :=
  NoDup (Dict.keys (column_types self)) /\
  Forall info_ok (Dict.values (column_types self)).

(** A row with one synthesized cell per profiled column, in profile
    order. *)
Definition row_similar (self : Generator) (r : Row) : Prop :=
  Forall2 (fun item cell =>
             fst item = fst cell /\ similar_to (snd item) (snd cell))
          (column_types self) r.

(** A sample with the single numeric column [id]. *)
Definition sample_ids : Sample :=
  [ ("id"%string, NumericColumn [Some (10 # 1); Some (20 # 1)]) ].

(** ** Writes into cells *)

(** One assignment [df.at[r, c] = v], and a sequence of them. *)
Definition write (df : DataFrame) (w : nat * string * value) : DataFrame :=
  at_set df (fst (fst w)) (snd (fst w)) (snd w).

Definition writes (ws : list (nat * string * value)) (df : DataFrame) : DataFrame :=
  fold_left write ws df.

(** [df'] is [df] after writes into rows of [df] and columns of [cols],
    of values that [P] allows for the column. *)
Definition written (cols : list string) (P : string -> value -> Prop)
  (df df' : DataFrame) : Prop :=
  exists ws,
    df' = writes ws df /\
    Forall (fun w => fst (fst w) < len df /\ In (snd (fst w)) cols /\
                     P (snd (fst w)) (snd w)) ws.

(** Every run of [m] that returns, returns a result that satisfies [P]. *)
Definition sure {A} (m : M A) (P : A -> Prop) : Prop :=
  forall g a g', m g = Some (a, g') -> P a.

(** The number of draws of a pass: [int(n * rate)] turns of [range]. *)
Definition draws (n : nat) (rate : Q) : nat := Z.to_nat (py_int (Qnat n * rate)).

(** The cells that null injection draws in [k] turns over a table of [n]
    rows: a row position and an entry of the pool, from two fresh words
    each. *)
Fixpoint null_draws (pool : list string) (n k : nat) (g : rng)
  : list (nat * string * value) :=
  match k with
  | O => []
  | S k' =>
      (index_of (word g 0) n,
       nth (index_of (word g 1) (length pool)) pool EmptyString,
       VNone)
      :: null_draws pool n k' (skip 2 g)
  end.

(** The cells that the range pass overwrites in [k] turns over a table of
    [n] rows: a row position, a numeric column and an entry of that
    column's [wrong_values], from three fresh words each. *)
Fixpoint range_draws (self : Generator) (n k : nat) (g : rng)
  : list (nat * string * value) :=
  match k with
  | O => []
  | S k' =>
      let col := nth (index_of (word g 1) (length (numeric_cols self)))
                     (numeric_cols self) EmptyString in
      let w := match Dict.get col (column_types self) with
               | Some (numeric lo hi _) =>
                   nth (index_of (word g 2) 5) (wrong_values lo hi) 0%Q
               | _ => 0%Q
               end in
      (index_of (word g 0) n, col, VNum w) :: range_draws self n k' (skip 3 g)
  end.

(** A near-duplicate of a row: one text or categorical cell, a string,
    replaced by one of its four modifications. *)
Definition near_dup_of (self : Generator) (row d : Row) : Prop :=
  exists col s m,
    In col (text_cols self) /\ Dict.get col row = Some (VStr s) /\
    In m (modifications s) /\ d = Dict.set col (VStr m) row.

(** The exact-duplicate count of [analyze_data_quality]
    ([df.duplicated().sum()]): the rows equal to an earlier row. *)
Definition cell_eqb (a b : string * value) : bool :=
  String.eqb (fst a) (fst b) && value_eqb (snd a) (snd b).

Fixpoint row_eqb (a b : Row) : bool :=
  match a, b with
  | [], [] => true
  | x :: a', y :: b' => cell_eqb x y && row_eqb a' b'
  | _, _ => false
  end.

Fixpoint duplicated_from (seen rs : list Row) : nat :=
  match rs with
  | [] => 0
  | r :: rest =>
      (if existsb (row_eqb r) seen then 1 else 0) + duplicated_from (r :: seen) rest
  end.

Definition duplicated (df : DataFrame) : nat := duplicated_from [] (rows df).

(** A sample whose only column has no value, and a two-row table over the
    column of [sample_ids]. *)
Definition sample_notes : Sample :=
  [ ("note"%string, ObjectColumn [VNone; VNone]) ].

Definition table_ids : DataFrame :=
  {| columns := ["id"%string];
     rows := [ [("id"%string, VNum (10 # 1))]; [("id"%string, VNum (20 # 1))] ] |}.

(** [d] is a copy of the row of [df] at position [idx]: the row itself or
    a near-duplicate of it. *)
Definition copy_of (self : Generator) (df : DataFrame) (idx : nat) (d : Row) : Prop :=
  exists row,
    nth_error (rows df) idx = Some row /\ (d = row \/ near_dup_of self row d).

(** The positions that [np.random.choice] draws: [k] positions below [n]
    from [k] fresh words. *)
Definition drawn_positions (n k : nat) (g : rng) : list nat :=
  map (fun j => index_of (word g j) n) (seq 0 k).

(** Rates that are all zero, and a generator without any profiled
    column. *)
Definition zero_rates : Rates :=
  {| duplicate_rate := 0; null_rate := 0; wrong_range_rate := 0;
     wrong_timestamp_rate := 0; text_corruption_rate := 0 |}.

Definition half_rates : Rates :=
  {| duplicate_rate := 1 # 2; null_rate := 1 # 2; wrong_range_rate := 1 # 2;
     wrong_timestamp_rate := 1 # 2; text_corruption_rate := 1 # 2 |}.

(** A sample whose object column holds a number and a string, and a table
    over that column with a number in it. *)
Definition sample_codes : Sample :=
  [ ("code"%string, ObjectColumn [VNum (7 # 1); VStr "a"]) ].

Definition table_codes : DataFrame :=
  {| columns := ["code"%string]; rows := [ [("code"%string, VNum (7 # 1))] ] |}.

(** A sample with a text column, and a table over it. *)
Definition sample_names : Sample :=
  [ ("name"%string, ObjectColumn [VStr "Ann Lee"; VStr "Bob"]) ].

Definition table_names : DataFrame :=
  {| columns := ["name"%string];
     rows := [ [("name"%string, VStr "Ann Lee")]; [("name"%string, VStr "Bob")] ] |}.

(** Rates with range violations only. *)
Definition range_rates : Rates :=
  {| duplicate_rate := 0; null_rate := 0; wrong_range_rate := 1;
     wrong_timestamp_rate := 0; text_corruption_rate := 0 |}.

(** Every cell of a table satisfies [P]. *)
Definition cells_all (P : value -> Prop) (df : DataFrame) : Prop :=
  Forall (fun row => Forall (fun cell => P (snd cell)) row) (rows df).

(** The candidate set as the end-to-end scenario of the specification
    lists it for min = 10 and max = 20. *)
Definition listed_wrong_values : list Q :=
  [ - (10 # 1); 40 # 1; - (999999 # 1); 999999 # 1; - (1 # 1) ]%Q.

(** A cell of the scenario: an expanded value of [10, 20] or an entry of
    [wrong_values 10 20]. *)
Definition scenario_cell (v : value) : Prop :=
  exists x, v = VNum x /\
            ((10 # 1 <= x /\ x <= 20 # 1)%Q \/ In x (wrong_values (10 # 1) (20 # 1))).

(** The sample of the end-to-end scenario: [id] numeric over [1, 5],
    [name] text with the values "Alice" and "Bob", [joined] datetime over
    [2020-01-01, 2020-06-01] (seconds since the epoch). *)
Definition date_2020_01_01 : Q := 1577836800 # 1.
Definition date_2020_06_01 : Q := 1590969600 # 1.

Definition sample_people : Sample :=
  [ ("id"%string, NumericColumn [Some (1 # 1); Some (5 # 1)]);
    ("name"%string, ObjectColumn [VStr "Alice"; VStr "Bob"]);
    ("joined"%string, DatetimeColumn [Some date_2020_01_01; Some date_2020_06_01]) ].

(** A row of the scenario: an [id] of [1, 5], a [name] that is a string
    and a [joined] instant of [2020-01-01, 2020-06-01]. *)
Definition person_row (row : Row) : Prop :=
  exists x s t,
    row = [ ("id"%string, VNum x); ("name"%string, VStr s); ("joined"%string, VTime t) ] /\
    (1 # 1 <= x /\ x <= 5 # 1)%Q /\
    (date_2020_01_01 <= t /\ t <= date_2020_06_01)%Q.

(** ** Objects and references *)

(** The tables of the program are objects held by reference: [__init__]
    copies the caller's table, [pd.DataFrame], [pd.concat], [df.copy()] and
    [df.sample] build new objects, and [df.at[r, c] = v] mutates the object
    that it is given.  The generator object has two attributes. *)
Module Store.

Inductive object : Type :=
| SampleTable (s : Sample)
| WorkTable (df : DataFrame).

Record world : Type := {
  heap : list object;
  self_sample_df : nat;
  self_column_types : Dict.t col_info
}.

Definition with_heap (w : world) (h : list object) : world :=
  {| heap := h;
     self_sample_df := self_sample_df w;
     self_column_types := self_column_types w |}.

(** Computations on the objects, over the random source. *)
Definition W (A : Type) : Type := world -> M (A * world).

Definition retW {A} (a : A) : W A := fun w => ret (a, w).

Definition bindW {A B} (m : W A) (f : A -> W B) : W B :=
  fun w => bind (m w) (fun aw => f (fst aw) (snd aw)).

Definition lift {A} (m : M A) : W A := fun w => bind m (fun a => ret (a, w)).

Definition raiseW {A} : W A := fun _ => raise.

Declare Scope world_scope.
Delimit Scope world_scope with world.
Notation "x <- c ;; k" := (bindW c (fun x => k))
  (at level 61, c at next level, right associativity) : world_scope.
Local Open Scope world_scope.

(** A new object, at the next free address. *)
Definition new (o : object) : W nat :=
  fun w => ret (length (heap w), with_heap w (heap w ++ [o])).

(** The table behind a reference. *)
Definition frame (r : nat) : W DataFrame :=
  fun w => match nth_error (heap w) r with
           | Some (WorkTable df) => ret (df, w)
           | _ => raise
           end.

(** The object behind [r] becomes the table [df], in place. *)
Definition mutate (r : nat) (df : DataFrame) : W unit :=
  fun w => ret (tt, with_heap w (update_nth r (fun _ => WorkTable df) (heap w))).

(** The generator as its methods read it. *)
Definition self : W Generator :=
  fun w => match nth_error (heap w) (self_sample_df w) with
           | Some (SampleTable s) =>
               ret ({| sample_df := s; column_types := self_column_types w |}, w)
           | _ => raise
           end.

(** [AdvancedMessyDataGenerator(sample_df)] for the table behind
    [caller]: the generator keeps a copy of the table and the profiles of
    that copy. *)
Definition __init__ (caller : nat) (h : list object) : option world :=
  match nth_error h caller with
  | Some (SampleTable s) =>
      Some {| heap := h ++ [SampleTable s];
              self_sample_df := length h;
              self_column_types := _analyze_columns s |}
  | _ => None
  end.

(** A pass that builds its result as a new table. *)
Definition building (pass : Generator -> DataFrame -> M DataFrame) (r : nat) : W nat :=
  g <- self ;; df <- frame r ;; df' <- lift (pass g df) ;; new (WorkTable df').

(** A pass that writes into the table that it is given, and returns
    it. *)
Definition in_place (pass : Generator -> DataFrame -> M DataFrame) (r : nat) : W nat :=
  g <- self ;; df <- frame r ;; df' <- lift (pass g df) ;;
  _ <- mutate r df' ;; retW r.

(** [df.copy()] *)
Definition copy (r : nat) : W nat := df <- frame r ;; new (WorkTable df).

Definition _expand_data (target_rows : Z) : W nat :=
  g <- self ;; df <- lift (_expand_data g target_rows) ;; new (WorkTable df).

Definition _introduce_messiness (df : nat) (rates : Rates) : W nat :=
  messy_df <- copy df ;;
  messy_df <- building (fun g d => _add_smart_duplicates g d (duplicate_rate rates))
                       messy_df ;;
  messy_df <- in_place (fun g d => _add_strategic_nulls g d (null_rate rates))
                       messy_df ;;
  messy_df <- in_place (fun g d => _add_wrong_ranges g d (wrong_range_rate rates))
                       messy_df ;;
  messy_df <- in_place (fun g d => _add_wrong_timestamps g d (wrong_timestamp_rate rates))
                       messy_df ;;
  messy_df <- in_place (fun g d => _add_text_corruption g d (text_corruption_rate rates))
                       messy_df ;;
  retW messy_df.

Definition generate_messy_data (target_rows : Z) (rates : Rates) : W nat :=
  expanded_data <- _expand_data target_rows ;;
  messy_data <- _introduce_messiness expanded_data rates ;;
  messy_data <- building (fun _ d => sample_frac1 d) messy_data ;;
  retW messy_data.

(** The objects of [h] are still there, unchanged, in [h']. *)
Definition preserved (h h' : list object) : Prop :=
  forall r o, nth_error h r = Some o -> nth_error h' r = Some o.

(** A world whose generator was built from the sample [s]. *)
Definition ready (s : Sample) (w : world) : Prop :=
  nth_error (heap w) (self_sample_df w) = Some (SampleTable s) /\
  self_column_types w = _analyze_columns s.

End Store.

(** ** Kinds of profile and text up to case and spaces *)

(** [info['type'] == 'mixed'] *)
Definition is_mixed (info : col_info) : bool :=
  match info with mixed _ => true | _ => false end.

(** A string with its letters in lower case and its spaces removed, and
    the cells and rows that this makes. *)
Definition fold_text (s : string) : string :=
  PyStr.replace PyStr.space "" (PyStr.lower s).

Definition fold_value (v : value) : value :=
  match v with
  | VStr s => VStr (fold_text s)
  | _ => v
  end.

Definition fold_row (r : Row) : Row :=
  map (fun cell => (fst cell, fold_value (snd cell))) r.

(** A non-empty string, the only kind of cell that [_add_text_corruption]
    rewrites. *)
Definition is_text_cell (v : value) : bool :=
  match v with
  | VStr s => 0 <? String.length s
  | _ => false
  end.

(** ** The quality report *)

(** [df[c].isnull().sum()]: the null cells of one column (a cell that a row
    lacks is NaN). *)
Definition null_cell (c : string) (row : Row) : bool :=
  match Dict.get c row with
  | Some v => isnull v
  | None => true
  end.

Definition nulls_in (df : DataFrame) (c : string) : nat :=
  length (filter (null_cell c) (rows df)).

(** [df.isnull().sum()], as the dict that [to_dict()] makes of it. *)
Definition null_summary (df : DataFrame) : Dict.t nat :=
  map (fun c => (c, nulls_in df c)) (columns df).

(** The dict that [analyze_data_quality] returns. *)
Record Analysis : Type := {
  analysis_shape : nat * nat;
  analysis_duplicates : nat;
  analysis_null_counts : Dict.t nat;
  analysis_memory_mb : Q
}.

Section Quality.

(** [df.memory_usage(deep=True).sum()], the bytes that pandas reports for
    a table. *)
Variable memory_usage : DataFrame -> Q.

(** [analyze_data_quality]; the lines that it prints are not part of its
    result. *)
Definition analyze_data_quality (self : Generator) (df : DataFrame) : Analysis :=
  let duplicates := duplicated df in
  let null_summary := null_summary df in
  {| analysis_shape := shape df;
     analysis_duplicates := duplicates;
     analysis_null_counts := null_summary;
     analysis_memory_mb := (memory_usage df / inject_Z (1024 ^ 2))%Q |}.

End Quality.

(** ** The command line *)

(** [s.endswith(suffix)] *)
Definition endswith (s suffix : string) : bool :=
  (String.length suffix <=? String.length s) &&
  String.eqb (substring (String.length s - String.length suffix)
                        (String.length suffix) s) suffix.

(** [old in s] *)
Fixpoint contains (s old : string) : bool :=
  String.prefix old s ||
  match s with
  | EmptyString => false
  | String _ t => contains t old
  end.

(** [s.replace(old, new)] for a non-empty [old]: its occurrences are
    replaced from the left, without overlap.  [skip] counts the characters
    of the current occurrence that are still to be dropped. *)
Fixpoint replace_from (old new : string) (skip : nat) (s : string) : string :=
  match s with
  | EmptyString => EmptyString
  | String c t =>
      match skip with
      | S k => replace_from old new k t
      | O =>
          if String.prefix old s
          then (new ++ replace_from old new (String.length old - 1) t)%string
          else String c (replace_from old new 0 t)
      end
  end.

Definition str_replace (s old new : string) : string := replace_from old new 0 s.

Module Cli.

(** The namespace that [parser.parse_args()] returns. *)
Record Args : Type := {
  input_file : string;
  output : string;
  rows : Z;
  duplicates : Q;
  nulls : Q;
  wrong_ranges : Q;
  wrong_timestamps : Q;
  text_corruption : Q
}.

(** The keyword arguments that [main] passes to [generate_messy_data]. *)
Definition rates_of (args : Args) : Rates :=
  {| duplicate_rate := duplicates args;
     null_rate := nulls args;
     wrong_range_rate := wrong_ranges args;
     wrong_timestamp_rate := wrong_timestamps args;
     text_corruption_rate := text_corruption args |}.

(** What the program writes into a file: the CSV text of a table
    ([to_csv(path, index=False)]) or the lines of the analysis report. *)
Inductive content : Type :=
| Table (df : DataFrame)
| Report (original generated : string) (analysis : Analysis).

(** The files, by path. *)
Definition Files : Type := Dict.t content.

Section Program.

(** [pd.read_csv] and [pd.read_json] on the files as the program finds
    them: the table that they parse, [None] when they raise. *)
Variables read_csv read_json : string -> option Sample.
Variable memory_usage : DataFrame -> Q.

(** The [try] block of [main]: [None] when it raised. *)
Definition load (input_file : string) : option Sample :=
  if endswith input_file ".csv" then read_csv input_file
  else if endswith input_file ".json" then read_json input_file
  else None.

(** [main], on parsed arguments.  A failed load is reported and the
    program returns; the files are written in program order. *)
Definition main (args : Args) (files : Files) : M Files :=
  match load (input_file args) with
  | None => ret files
  | Some sample_df =>
      generator <- must (__init__ (Some sample_df)) ;;
      messy_data <- generate_messy_data generator (rows args) (rates_of args) ;;
      let files := Dict.set (output args) (Table messy_data) files in
      let analysis := analyze_data_quality memory_usage generator messy_data in
      let analysis_file := str_replace (output args) ".csv" "_analysis.txt" in
      ret (Dict.set analysis_file
                    (Report (input_file args) (output args) analysis) files)
  end.

End Program.

End Cli.

(** ** What a cell of the output may be *)

(** The values that a cell of a column can hold after the five passes: a
    null anywhere; a number of the range or a wrong value in a numeric
    column; an instant of the range or a wrong date in a datetime column; a
    unique value or a string in a categorical column; a sample or a string
    in a text column. *)
Definition messy_of (info : col_info) (v : value) : Prop :=
  v = VNone \/
  match info with
  | mixed _ => False
  | numeric lo hi _ =>
      exists x, v = VNum x /\ ((lo <= x /\ x <= hi)%Q \/ In x (wrong_values lo hi))
  | datetime lo hi _ =>
      In v wrong_dates \/ exists t, v = VTime t /\ (lo <= t /\ t <= hi)%Q
  | categorical _ u => In v u \/ exists t, v = VStr t
  | text s _ => In v s \/ exists t, v = VStr t
  end.

(** A row with one such cell per profiled column, in profile order. *)
Definition row_messy (self : Generator) (r : Row) : Prop :=
  Forall2 (fun item cell => fst item = fst cell /\ messy_of (snd item) (snd cell))
          (column_types self) r.

(** ** Corrupted text *)

(** The list [corruptions] of [_add_text_corruption] for the string [s] and
    the drawn characters [junk]: upper case, lower case, three question
    marks appended, every occurrence of the first character replaced by X,
    the reverse, the string twice, the empty string, the drawn characters. *)
Definition corruptions_of (s : string) (junk : list ascii) : list string :=
  [ PyStr.upper s; PyStr.lower s; s ++ "???";
    PyStr.replace (first_char s) "X" s;
    PyStr.reverse s; s ++ s; ""; PyStr.join junk ]%string.

(** One rewrite of a cell by the pass: a non-empty string becomes one of
    its corruptions, the junk being as many letters and digits as the
    string has characters. *)
Definition corrupts (s t : string) : Prop :=
  s <> EmptyString /\
  exists junk,
    length junk = String.length s /\
    Forall (fun c => In c (PyStr.ascii_letters ++ PyStr.digits)) junk /\
    In t (corruptions_of s junk).

(** One or more rewrites in a row. *)
Inductive corrupted : string -> string -> Prop :=
| corrupted_once s t : corrupts s t -> corrupted s t
| corrupted_more s t u : corrupted s t -> corrupts t u -> corrupted s u.

Unset Implicit Arguments.

(** * Properties *)

(** ** The calculus of runs *)

Lemma wp_ret {A} (a : A) post g : post a g -> wp (ret a) post g.
Proof. exact (fun H => H). Qed.

Lemma wp_bind {A B} (m : M A) (f : A -> M B) post g :
  wp m (fun a g' => wp (f a) post g') g -> wp (bind m f) post g.
Proof.
  unfold wp, bind. destruct (m g) as [[a g']|]; auto.
Qed.

Lemma wp_bind_inv {A B} (m : M A) (f : A -> M B) post g :
  wp (bind m f) post g -> wp m (fun a g' => wp (f a) post g') g.
Proof.
  unfold wp, bind. destruct (m g) as [[a g']|]; auto.
Qed.

Lemma wp_mono {A} (m : M A) (P Q : A -> rng -> Prop) g :
  (forall a g', P a g' -> Q a g') -> wp m P g -> wp m Q g.
Proof.
  unfold wp. destruct (m g) as [[a g']|]; auto.
Qed.

Lemma wp_some {A} (m : M A) post g :
  wp m post g <-> exists a g', m g = Some (a, g') /\ post a g'.
Proof.
  unfold wp. split.
  - destruct (m g) as [[a g']|]; [eauto | tauto].
  - intros (a & g' & -> & H). exact H.
Qed.

Lemma returns_some {A} (m : M A) (P : A -> Prop) :
  returns m P <-> forall g, exists a g', m g = Some (a, g') /\ P a.
Proof.
  unfold returns. split; intros H g; apply wp_some, H.
Qed.

Lemma returns_ret {A} (a : A) (P : A -> Prop) : P a -> returns (ret a) P.
Proof. intros H g. exact H. Qed.

Lemma returns_bind {A B} (m : M A) (f : A -> M B) (P : A -> Prop) (Q : B -> Prop) :
  returns m P -> (forall a, P a -> returns (f a) Q) -> returns (bind m f) Q.
Proof.
  intros Hm Hf g. apply wp_bind. eapply wp_mono; [|apply Hm].
  intros a g' Ha. apply Hf, Ha.
Qed.

Lemma returns_mono {A} (m : M A) (P Q : A -> Prop) :
  (forall a, P a -> Q a) -> returns m P -> returns m Q.
Proof.
  intros H Hm g. eapply wp_mono; [|apply Hm]. intros; auto.
Qed.

Lemma returns_and {A} (m : M A) (P Q : A -> Prop) :
  returns m P -> returns m Q -> returns m (fun a => P a /\ Q a).
Proof.
  intros HP HQ g. specialize (HP g). specialize (HQ g).
  unfold wp in *. destruct (m g) as [[a g']|]; auto.
Qed.

(** A result of a run that returns satisfies what every run satisfies. *)
Lemma returns_run {A} (m : M A) (P : A -> Prop) g a g' :
  returns m P -> m g = Some (a, g') -> P a.
Proof.
  intros H E. specialize (H g). unfold wp in H. rewrite E in H. exact H.
Qed.

(** ** The random primitives *)

Lemma index_of_lt w n : 0 < n -> index_of w n < n.
Proof.
  intros Hn. unfold index_of.
  assert (H : (w mod N.of_nat n < N.of_nat n)%N) by (apply N.mod_lt; lia).
  set (k := (w mod N.of_nat n)%N) in *. clearbody k. lia.
Qed.

Lemma randbelow_run n g :
  0 < n -> Random.randbelow n g = Some (index_of (word g 0) n, skip 1 g).
Proof.
  intros Hn. destruct n; [lia|].
  unfold Random.randbelow, bind, Random.next_word, ret, word, skip, index_of.
  rewrite Nat.add_0_r, Nat.add_1_r. reflexivity.
Qed.

Lemma returns_randbelow n : 0 < n -> returns (Random.randbelow n) (fun i => i < n).
Proof.
  intros Hn g. unfold wp. rewrite randbelow_run by exact Hn.
  apply index_of_lt, Hn.
Qed.

Lemma unit_of_range (w : N) : (0 <= unit_of w /\ unit_of w < 1)%Q.
Proof.
  unfold unit_of.
  assert (H : (w mod Npos Random.two53 < Npos Random.two53)%N)
    by (apply N.mod_lt; discriminate).
  unfold Qle, Qlt. simpl Qnum. simpl Qden.
  set (k := (w mod Npos Random.two53)%N) in *. clearbody k.
  unfold Random.two53 in *. split; lia.
Qed.

Lemma random_run g : Random.random g = Some (unit_of (word g 0), skip 1 g).
Proof.
  unfold Random.random, bind, Random.next_word, ret, word, skip, unit_of.
  rewrite Nat.add_0_r, Nat.add_1_r. reflexivity.
Qed.

Lemma returns_random : returns Random.random (fun u => (0 <= u /\ u < 1)%Q).
Proof. intros g. unfold wp. rewrite random_run. apply unit_of_range. Qed.

Lemma between (a b u : Q) :
  (a <= b -> 0 <= u -> u < 1 -> a <= a + (b - a) * u /\ a + (b - a) * u <= b)%Q.
Proof.
  intros Hab H0 H1.
  assert (Hd : (0 <= b - a)%Q).
  { unfold Qminus. rewrite <- (Qplus_opp_r a). apply Qplus_le_l. exact Hab. }
  split.
  - rewrite <- (Qplus_0_r a) at 1. apply Qplus_le_r.
    apply Qmult_le_0_compat; [exact Hd | exact H0].
  - assert (Hb : (b == a + (b - a) * 1)%Q) by ring.
    rewrite Hb at 2. apply Qplus_le_r.
    rewrite (Qmult_comm (b - a) u), (Qmult_comm (b - a) 1).
    apply Qmult_le_compat_r; [apply Qlt_le_weak; exact H1 | exact Hd].
Qed.

Lemma returns_uniform a b :
  (a <= b)%Q -> returns (Random.uniform a b) (fun x => (a <= x /\ x <= b)%Q).
Proof.
  intros Hab. unfold Random.uniform.
  eapply returns_bind; [apply returns_random|].
  intros u [H0 H1]. apply returns_ret. apply between; assumption.
Qed.

Lemma returns_randint a b :
  (a <= b)%Z -> returns (Random.randint a b) (fun k => (a <= k <= b)%Z).
Proof.
  intros Hab. unfold Random.randint.
  eapply returns_bind; [apply returns_randbelow; lia|].
  intros k Hk. apply returns_ret. simpl in Hk. lia.
Qed.

Lemma choice_run {A} (l : list A) d g :
  l <> [] ->
  Random.choice l g = Some (nth (index_of (word g 0) (length l)) l d, skip 1 g).
Proof.
  intros Hl. destruct l as [|x t]; [congruence|].
  unfold Random.choice, bind. rewrite randbelow_run by (simpl; lia).
  unfold ret. f_equal. f_equal. apply nth_indep. apply index_of_lt. simpl; lia.
Qed.

Lemma returns_choice {A} (l : list A) :
  l <> [] -> returns (Random.choice l) (fun x => In x l).
Proof.
  intros Hl g. unfold wp. destruct l as [|d t] eqn:E; [congruence|].
  rewrite <- E in *. rewrite (choice_run l d g Hl).
  apply nth_In, index_of_lt. rewrite E; simpl; lia.
Qed.

(** ** Dictionaries and labels *)

Lemma mem_In k l : mem k l = true <-> In k l.
Proof.
  unfold mem. rewrite existsb_exists. split.
  - intros (x & Hx & E). apply String.eqb_eq in E. subst. exact Hx.
  - intros H. exists k. split; [exact H | apply String.eqb_refl].
Qed.

Lemma mem_false k l : mem k l = false <-> ~ In k l.
Proof.
  rewrite <- mem_In. destruct (mem k l); split; congruence.
Qed.

Lemma keys_set {V} k (v : V) d :
  Dict.keys (Dict.set k v d) = add_key (Dict.keys d) k.
Proof.
  unfold Dict.keys, add_key. induction d as [|[k' v'] d IH]; simpl.
  - reflexivity.
  - destruct (String.eqb_spec k k') as [->|Hne]; simpl.
    + reflexivity.
    + rewrite IH. destruct (mem k (map fst d)); reflexivity.
Qed.

Lemma In_add_key acc k c : In c (add_key acc k) <-> In c acc \/ c = k.
Proof.
  unfold add_key. destruct (mem k acc) eqn:E.
  - apply mem_In in E. split; [auto|]. intros [H| ->]; assumption.
  - rewrite in_app_iff. simpl. intuition (subst; auto).
Qed.

Lemma NoDup_add_key acc k : NoDup acc -> NoDup (add_key acc k).
Proof.
  intros H. unfold add_key. destruct (mem k acc) eqn:E; [exact H|].
  apply mem_false in E.
  apply NoDup_app; [exact H | repeat constructor; simpl; tauto |].
  intros x Hx [<-|[]]. exact (E Hx).
Qed.

Lemma In_union a b c : In c (union a b) <-> In c a \/ In c b.
Proof.
  unfold union. revert a. induction b as [|k b IH]; intros a; simpl.
  - tauto.
  - rewrite IH, In_add_key. intuition (subst; auto).
Qed.

Lemma NoDup_union a b : NoDup a -> NoDup (union a b).
Proof.
  unfold union. revert a. induction b as [|k b IH]; intros a H; simpl.
  - exact H.
  - apply IH, NoDup_add_key, H.
Qed.

Lemma union_incl a b : incl b a -> union a b = a.
Proof.
  unfold union. induction b as [|k b IH]; intros H; simpl.
  - reflexivity.
  - assert (Hk : mem k a = true) by (apply mem_In, H; left; reflexivity).
    unfold add_key at 2. rewrite Hk. apply IH.
    intros x Hx. apply H. right. exact Hx.
Qed.

Lemma union_fresh a b : NoDup (a ++ b) -> union a b = a ++ b.
Proof.
  unfold union. revert a. induction b as [|k b IH]; intros a H; simpl.
  - rewrite app_nil_r. reflexivity.
  - assert (Hk : mem k a = false).
    { apply mem_false. intros Hin. apply NoDup_remove_2 in H.
      apply H. apply in_or_app. left. exact Hin. }
    unfold add_key. rewrite Hk. rewrite IH.
    + rewrite <- app_assoc. reflexivity.
    + rewrite <- app_assoc. exact H.
Qed.

Lemma union_nil b : NoDup b -> union [] b = b.
Proof. intros H. apply (union_fresh []). exact H. Qed.

Lemma get_In {V} k (v : V) d :
  NoDup (Dict.keys d) -> In (k, v) d -> Dict.get k d = Some v.
Proof.
  unfold Dict.keys. induction d as [|[k' v'] d IH]; simpl; intros Hnd Hin.
  - contradiction.
  - inversion Hnd as [|? ? Hnot Hnd']; subst.
    destruct Hin as [E|Hin].
    + inversion E; subst. rewrite String.eqb_refl. reflexivity.
    + destruct (String.eqb_spec k k') as [->|Hne].
      * exfalso. apply Hnot. apply (in_map fst) in Hin. exact Hin.
      * apply IH; assumption.
Qed.

Lemma get_some_In {V} k (v : V) d : Dict.get k d = Some v -> In (k, v) d.
Proof.
  induction d as [|[k' v'] d IH]; simpl; intros H.
  - discriminate.
  - destruct (String.eqb_spec k k') as [->|Hne].
    + inversion H; subst. left. reflexivity.
    + right. apply IH, H.
Qed.

Lemma get_none {V} k (d : Dict.t V) : Dict.get k d = None <-> ~ In k (Dict.keys d).
Proof.
  unfold Dict.keys. induction d as [|[k' v'] d IH]; simpl.
  - tauto.
  - destruct (String.eqb_spec k k') as [->|Hne].
    + split; [discriminate|]. intros H. exfalso. apply H. left. reflexivity.
    + rewrite IH. split.
      * intros H [E|Hin]; [congruence | tauto].
      * intros H Hin. apply H. right. exact Hin.
Qed.

Lemma get_key {V} k (d : Dict.t V) :
  In k (Dict.keys d) -> exists v, Dict.get k d = Some v.
Proof.
  intros H. destruct (Dict.get k d) eqn:E; [eauto|].
  apply get_none in E. contradiction.
Qed.

Lemma get_set_same {V} k (v : V) d : Dict.get k (Dict.set k v d) = Some v.
Proof.
  induction d as [|[k' v'] d IH]; simpl.
  - rewrite String.eqb_refl. reflexivity.
  - destruct (String.eqb_spec k k') as [->|Hne]; simpl.
    + rewrite String.eqb_refl. reflexivity.
    + destruct (String.eqb_spec k k'); [contradiction | exact IH].
Qed.

Lemma get_set_other {V} k k' (v : V) d :
  k' <> k -> Dict.get k' (Dict.set k v d) = Dict.get k' d.
Proof.
  intros Hne. induction d as [|[k0 v0] d IH]; simpl.
  - destruct (String.eqb_spec k' k); [contradiction | reflexivity].
  - destruct (String.eqb_spec k k0) as [->|H0]; simpl.
    + destruct (String.eqb_spec k' k0); [contradiction | reflexivity].
    + destruct (String.eqb_spec k' k0); [reflexivity | exact IH].
Qed.

(** Writing an existing key keeps the keys. *)
Lemma keys_set_present {V} k (v : V) d :
  In k (Dict.keys d) -> Dict.keys (Dict.set k v d) = Dict.keys d.
Proof.
  intros H. rewrite keys_set. unfold add_key.
  apply mem_In in H. rewrite H. reflexivity.
Qed.

Lemma reindex_keys cols r : Dict.keys (reindex cols r) = cols.
Proof.
  unfold reindex, Dict.keys. rewrite map_map. simpl. apply map_id.
Qed.

Lemma reindex_id r : NoDup (Dict.keys r) -> reindex (Dict.keys r) r = r.
Proof.
  intros Hnd. unfold reindex, Dict.keys. rewrite map_map.
  transitivity (map (fun x : string * value => x) r); [|apply map_id].
  apply map_ext_in.
  intros [k v] Hin. simpl. rewrite (get_In k v r Hnd Hin). reflexivity.
Qed.

Lemma map_reindex_id cols rs :
  NoDup cols -> Forall (fun row => Dict.keys row = cols) rs ->
  map (reindex cols) rs = rs.
Proof.
  intros Hnd H. induction H as [|r rs Hr _ IH]; simpl.
  - reflexivity.
  - rewrite IH. f_equal. rewrite <- Hr. apply reindex_id. rewrite Hr. exact Hnd.
Qed.

(** ** Lists *)

Lemma update_nth_length {A} i (f : A -> A) l : length (update_nth i f l) = length l.
Proof.
  revert i. induction l as [|x l IH]; intros [|i]; simpl; auto.
Qed.

Lemma update_nth_Forall {A} (P : A -> Prop) i f l :
  (forall x, P x -> P (f x)) -> Forall P l -> Forall P (update_nth i f l).
Proof.
  intros Hf H. revert i. induction H as [|x l Hx Hl IH]; intros [|i]; simpl;
    try constructor; auto.
Qed.

Lemma nth_error_update_nth {A} i j (f : A -> A) l :
  nth_error (update_nth i f l) j =
  if Nat.eqb i j then option_map f (nth_error l j) else nth_error l j.
Proof.
  revert i j. induction l as [|x l IH]; intros [|i] [|j]; simpl; auto.
  - destruct (Nat.eqb i j); reflexivity.
Qed.

(** ** The profiler *)

Lemma Qltb_lt x y : Qltb x y = true <-> (x < y)%Q.
Proof.
  unfold Qltb. rewrite negb_true_iff. split.
  - intros H. apply Qnot_le_lt. intros Hle.
    apply Qle_bool_iff in Hle. congruence.
  - intros H. destruct (Qle_bool y x) eqn:E; [|reflexivity].
    apply Qle_bool_iff in E. exfalso. exact (Qlt_not_le _ _ H E).
Qed.

Lemma Qltb_ge x y : Qltb x y = false <-> (y <= x)%Q.
Proof.
  unfold Qltb. rewrite negb_false_iff. apply Qle_bool_iff.
Qed.

Lemma value_eqb_refl v : value_eqb v v = true.
Proof.
  destruct v; simpl; auto using Qeq_bool_refl, String.eqb_refl.
Qed.

Lemma series_min_spec x t : is_min (series_min x t) (x :: t).
Proof.
  unfold series_min. revert x. induction t as [|y t IH]; intros x.
  - simpl. split; [left; reflexivity|]. intros z [<-|[]]. apply Qle_refl.
  - simpl fold_left. destruct (IH (Qmin x y)) as [Hin Hle]. split.
    + destruct Hin as [E|Hin].
      * rewrite <- E. unfold Qmin, GenericMinMax.gmin.
        destruct (x ?= y)%Q; simpl; auto.
      * right. right. exact Hin.
    + intros z [<-|[<-|Hz]].
      * eapply Qle_trans; [apply Hle; left; reflexivity | apply Q.le_min_l].
      * eapply Qle_trans; [apply Hle; left; reflexivity | apply Q.le_min_r].
      * apply Hle. right. exact Hz.
Qed.

Lemma series_max_spec x t : is_max (series_max x t) (x :: t).
Proof.
  unfold series_max. revert x. induction t as [|y t IH]; intros x.
  - simpl. split; [left; reflexivity|]. intros z [<-|[]]. apply Qle_refl.
  - simpl fold_left. destruct (IH (Qmax x y)) as [Hin Hle]. split.
    + destruct Hin as [E|Hin].
      * rewrite <- E. unfold Qmax, GenericMinMax.gmax.
        destruct (x ?= y)%Q; simpl; auto.
      * right. right. exact Hin.
    + intros z [<-|[<-|Hz]].
      * eapply Qle_trans; [apply Q.le_max_l | apply Hle; left; reflexivity].
      * eapply Qle_trans; [apply Q.le_max_r | apply Hle; left; reflexivity].
      * apply Hle. right. exact Hz.
Qed.

Lemma unique_from_In seen l v : In v (unique_from seen l) -> In v l.
Proof.
  revert seen. induction l as [|x t IH]; intros seen; simpl.
  - tauto.
  - destruct (existsb (value_eqb x) seen).
    + intros H. right. exact (IH _ H).
    + intros [E|H]; [left; exact E | right; exact (IH _ H)].
Qed.

Lemma unique_from_covers seen l v :
  In v l ->
  existsb (value_eqb v) seen = true \/
  exists w, In w (unique_from seen l) /\ value_eqb v w = true.
Proof.
  revert seen. induction l as [|x t IH]; intros seen; simpl.
  - tauto.
  - intros [E|H].
    + subst x. destruct (existsb (value_eqb v) seen) eqn:Es; [left; reflexivity|].
      right. exists v. split; [left; reflexivity | apply value_eqb_refl].
    + destruct (existsb (value_eqb x) seen) eqn:Es.
      * apply IH, H.
      * destruct (IH (x :: seen) H) as [Hs|(w & Hw & E)].
        -- simpl in Hs. apply orb_true_iff in Hs. destruct Hs as [Hx|Hs].
           ++ right. exists x. split; [left; reflexivity | exact Hx].
           ++ left. exact Hs.
        -- right. exists w. split; [right; exact Hw | exact E].
Qed.

Lemma unique_from_fresh seen l w :
  In w (unique_from seen l) -> existsb (value_eqb w) seen = false.
Proof.
  revert seen. induction l as [|x t IH]; intros seen; simpl.
  - tauto.
  - destruct (existsb (value_eqb x) seen) eqn:Es.
    + apply IH.
    + intros [<-|H]; [exact Es|].
      apply IH in H. simpl in H. apply orb_false_iff in H. apply H.
Qed.

Lemma unique_from_pairs seen l :
  ForallOrdPairs (fun a b => value_eqb b a = false) (unique_from seen l).
Proof.
  revert seen. induction l as [|x t IH]; intros seen; simpl.
  - constructor.
  - destruct (existsb (value_eqb x) seen) eqn:Es.
    + apply IH.
    + constructor; [|apply IH].
      apply Forall_forall. intros w Hw.
      apply unique_from_fresh in Hw. simpl in Hw.
      apply orb_false_iff in Hw. apply Hw.
Qed.

Lemma unique_distinct l : distinct_values (unique l) l.
Proof.
  unfold unique. split; [|split].
  - intros v. apply unique_from_In.
  - intros v Hv. destruct (unique_from_covers [] l v Hv) as [H|H];
      [discriminate | exact H].
  - apply unique_from_pairs.
Qed.

(** The body of the profiler computes the classification rule. *)
Lemma analyze_column_spec c : Profile c (analyze_column c).
Proof.
  destruct c as [cells|cells|cells]; unfold analyze_column.
  - destruct (dropna_cells cells) as [|x t] eqn:E.
    + apply Profile_mixed. simpl. rewrite E. reflexivity.
    + rewrite <- E. apply Profile_numeric.
      * rewrite E. discriminate.
      * rewrite E. apply series_min_spec.
      * rewrite E. apply series_max_spec.
  - destruct (dropna_cells cells) as [|x t] eqn:E.
    + apply Profile_mixed. simpl. rewrite E. reflexivity.
    + rewrite <- E. apply Profile_datetime.
      * rewrite E. discriminate.
      * rewrite E. apply series_min_spec.
      * rewrite E. apply series_max_spec.
  - cbv zeta. destruct (dropna cells) as [|x t] eqn:E.
    + apply Profile_mixed. simpl. exact E.
    + rewrite <- E.
      assert (Hne : dropna cells <> []) by (rewrite E; discriminate).
      destruct (Qltb (Qnat (length (unique (dropna cells))))
                     (Qnat (length (dropna cells)) * (8 # 10))) eqn:Eq.
      * apply Profile_categorical; [exact Hne | apply unique_distinct |].
        apply Qltb_lt in Eq. rewrite Qmult_comm. exact Eq.
      * apply Profile_text; [exact Hne | apply unique_distinct |].
        apply Qltb_ge in Eq. intros Hlt. rewrite Qmult_comm in Hlt.
        exact (Qlt_not_le _ _ Hlt Eq).
Qed.

(** The profile map has one entry per column name of the sample. *)
Lemma analyze_fold_keys s acc :
  Dict.keys (fold_left (fun column_info '(col, c) =>
                          Dict.set col (analyze_column c) column_info) s acc)
  = union (Dict.keys acc) (sample_columns s).
Proof.
  revert acc. induction s as [|[col c] s IH]; intros acc; simpl.
  - reflexivity.
  - rewrite IH, keys_set. reflexivity.
Qed.

Lemma analyze_columns_keys s :
  Dict.keys (_analyze_columns s) = union [] (sample_columns s).
Proof. apply analyze_fold_keys. Qed.

Lemma analyze_columns_NoDup s : NoDup (Dict.keys (_analyze_columns s)).
Proof. rewrite analyze_columns_keys. apply NoDup_union. constructor. Qed.

Lemma analyze_columns_same s :
  same_columns (Dict.keys (_analyze_columns s)) (sample_columns s).
Proof.
  intros c. rewrite analyze_columns_keys, In_union. simpl. tauto.
Qed.

Lemma analyze_fold_fresh s acc :
  NoDup (Dict.keys acc ++ sample_columns s) ->
  fold_left (fun column_info '(col, c) =>
               Dict.set col (analyze_column c) column_info) s acc
  = acc ++ map (fun '(col, c) => (col, analyze_column c)) s.
Proof.
  revert acc. induction s as [|[col c] s IH]; intros acc H; simpl.
  - rewrite app_nil_r. reflexivity.
  - assert (Hset : Dict.set col (analyze_column c) acc
                   = acc ++ [(col, analyze_column c)]).
    { simpl in H. apply NoDup_remove_2 in H.
      assert (Hk : ~ In col (Dict.keys acc))
        by (intros Hin; apply H, in_or_app; left; exact Hin).
      clear - Hk. induction acc as [|[k v] acc IHa]; simpl.
      - reflexivity.
      - simpl in Hk. destruct (String.eqb_spec col k) as [->|Hne].
        + exfalso. apply Hk. left. reflexivity.
        + rewrite IHa; [reflexivity|]. intros Hin. apply Hk. right. exact Hin. }
    rewrite Hset, IH.
    + rewrite <- app_assoc. reflexivity.
    + unfold Dict.keys in *. rewrite map_app, <- app_assoc. simpl. exact H.
Qed.

(** With distinct column names the profile map is the sample, column by
    column. *)
Lemma analyze_columns_map s :
  NoDup (sample_columns s) ->
  _analyze_columns s = map (fun '(col, c) => (col, analyze_column c)) s.
Proof.
  intros H. unfold _analyze_columns. rewrite analyze_fold_fresh; [reflexivity|].
  exact H.
Qed.

Lemma analyze_columns_keys_NoDup s :
  NoDup (sample_columns s) -> Dict.keys (_analyze_columns s) = sample_columns s.
Proof.
  intros H. rewrite analyze_columns_keys. apply union_nil, H.
Qed.

Lemma analyze_columns_get s col c :
  NoDup (sample_columns s) -> In (col, c) s ->
  Dict.get col (_analyze_columns s) = Some (analyze_column c).
Proof.
  intros Hnd Hin. apply get_In.
  - rewrite analyze_columns_keys_NoDup by exact Hnd. exact Hnd.
  - rewrite analyze_columns_map by exact Hnd.
    apply (in_map (fun '(col, c) => (col, analyze_column c))) in Hin. exact Hin.
Qed.

Lemma below_eight_tenths a b :
  (Qnat a < (8 # 10) * Qnat b)%Q <-> 5 * a < 4 * b.
Proof.
  unfold Qnat, Qlt, Qmult, inject_Z. cbn [Qnum Qden].
  change (Z.pos (10 * 1)) with 10%Z. lia.
Qed.



(** ** Reading the entropy stream *)

Lemma skip_skip a b g : skip a (skip b g) = skip (b + a) g.
Proof. unfold skip. simpl. rewrite Nat.add_assoc. reflexivity. Qed.

Lemma skip_0 g : skip 0 g = g.
Proof. destruct g. unfold skip. simpl. rewrite Nat.add_0_r. reflexivity. Qed.

Lemma word_skip k g i : word (skip k g) i = word g (k + i).
Proof. unfold word, skip. simpl. rewrite Nat.add_assoc. reflexivity. Qed.

Lemma bind_run {A B} {m : M A} (f : A -> M B) {g a g'} :
  m g = Some (a, g') -> bind m f g = f a g'.
Proof. intros E. unfold bind. rewrite E. reflexivity. Qed.

Lemma bind_bind_run {A B C} {m : M A} (f : A -> M B) (k : B -> M C) {g a g'} :
  m g = Some (a, g') -> bind (bind m f) k g = bind (f a) k g'.
Proof. intros E. unfold bind. rewrite E. reflexivity. Qed.

Lemma bind_ret_l {A B} (a : A) (f : A -> M B) : bind (ret a) f = f a.
Proof. reflexivity. Qed.

Lemma bind_run_inv {A B} (m : M A) (f : A -> M B) g b g2 :
  bind m f g = Some (b, g2) ->
  exists a g1, m g = Some (a, g1) /\ f a g1 = Some (b, g2).
Proof.
  unfold bind. destruct (m g) as [[a g1]|]; [eauto | discriminate].
Qed.

Lemma uniform_run a b g :
  Random.uniform a b g = Some ((a + (b - a) * unit_of (word g 0))%Q, skip 1 g).
Proof.
  unfold Random.uniform. rewrite (bind_run _ (random_run g)). reflexivity.
Qed.

Lemma randint_run a b g :
  (a <= b)%Z ->
  Random.randint a b g
  = Some ((a + Z.of_nat (index_of (word g 0) (Z.to_nat (b - a + 1))))%Z, skip 1 g).
Proof.
  intros H. unfold Random.randint.
  rewrite (bind_run _ (randbelow_run (Z.to_nat (b - a + 1)) g ltac:(lia))).
  reflexivity.
Qed.

(** [random.choices] reads one word per pick and picks inside the
    population. *)
Lemma choices_wp {A} (pop : list A) k g :
  pop <> [] ->
  wp (Random.choices pop k)
     (fun l g' => length l = k /\ Forall (fun x => In x pop) l /\ g' = skip k g) g.
Proof.
  intros Hne. revert g. induction k as [|k IH]; intros g.
  - simpl. unfold wp, ret. rewrite skip_0. auto.
  - cbn [Random.choices]. destruct pop as [|d pop']; [congruence|].
    set (pop := d :: pop') in *.
    unfold wp. rewrite (bind_run _ (random_run g)).
    specialize (IH (skip 1 g)). unfold wp in IH.
    destruct (Random.choices pop k (skip 1 g)) as [[rest g']|] eqn:E; [|contradiction].
    rewrite (bind_run _ E). unfold ret.
    destruct IH as (Hl & Hf & ->). split; [simpl; lia|]. split.
    + constructor; [|exact Hf].
      destruct (unit_of_range (word g 0)) as [H0 H1].
      apply nth_In.
      assert (Hlen : 0 < length pop) by (simpl; lia).
      set (n := length pop) in *. clearbody n.
      assert (Hlt : (unit_of (word g 0) * inject_Z (Z.of_nat n) < inject_Z (Z.of_nat n))%Q).
      { rewrite <- (Qmult_1_l (inject_Z (Z.of_nat n))) at 2.
        apply Qmult_lt_compat_r; [|exact H1].
        change 0%Q with (inject_Z 0). rewrite <- Zlt_Qlt. lia. }
      assert (Hfl : (Qfloor (unit_of (word g 0) * inject_Z (Z.of_nat n)) < Z.of_nat n)%Z).
      { rewrite Zlt_Qlt. eapply Qle_lt_trans; [apply Qfloor_le | exact Hlt]. }
      lia.
    + rewrite skip_skip. reflexivity.
Qed.

Lemma returns_choices {A} (pop : list A) k :
  pop <> [] ->
  returns (Random.choices pop k)
          (fun l => length l = k /\ Forall (fun x => In x pop) l).
Proof.
  intros Hne g. eapply wp_mono; [|apply (choices_wp pop k g Hne)].
  intros l g' (H1 & H2 & _). auto.
Qed.

(** ** Chances *)

Lemma unit_below p w :
  (unit_of w < p)%Q <-> (w mod Npos Random.two53 < chances p)%N.
Proof.
  unfold unit_of, chances.
  set (k := (w mod Npos Random.two53)%N).
  set (x := (p * inject_Z (Z.pos Random.two53))%Q).
  assert (Hx : (Z.of_N k # Random.two53 < p)%Q <-> (inject_Z (Z.of_N k) < x)%Q).
  { unfold x, Qlt, Qmult, inject_Z. cbn [Qnum Qden].
    rewrite Pos.mul_1_r. rewrite !Z.mul_1_r. reflexivity. }
  rewrite Hx. split.
  - intros H.
    assert (Hc : (Z.of_N k < Qceiling x)%Z).
    { rewrite Zlt_Qlt. eapply Qlt_le_trans; [exact H | apply Qle_ceiling]. }
    lia.
  - intros H.
    assert (Hc : (Z.of_N k <= Qceiling x - 1)%Z) by lia.
    rewrite Zle_Qle in Hc. eapply Qle_lt_trans; [exact Hc | apply Qceiling_lt].
Qed.

Lemma chances_values :
  chances (7 # 10) = 6305039478318695%N /\
  chances (8 # 10) = 7205759403792794%N /\
  chances (3 # 10) = 2702159776422298%N.
Proof. repeat split; vm_compute; reflexivity. Qed.

(** The chance of [random.random() < p] is [p] up to the resolution of the
    generator. *)
Lemma chance_close p :
  (0 <= p)%Q -> (p <= chance p /\ chance p < p + (1 # Random.two53))%Q.
Proof.
  intros Hp. unfold chance, chances.
  set (x := (p * inject_Z (Z.pos Random.two53))%Q).
  assert (Hx0 : (0 <= x)%Q).
  { unfold x. apply Qmult_le_0_compat; [exact Hp|]. unfold Qle. simpl. lia. }
  assert (Hc0 : (0 <= Qceiling x)%Z).
  { rewrite Zle_Qle. eapply Qle_trans; [exact Hx0 | apply Qle_ceiling]. }
  rewrite Z2N.id by exact Hc0.
  pose proof (Qle_ceiling x) as Hle. pose proof (Qceiling_lt x) as Hlt.
  set (c := Qceiling x) in *. clearbody c.
  unfold x in *. clear x Hx0.
  unfold Qle, Qlt, Qmult, Qplus, inject_Z in *. cbn [Qnum Qden] in *.
  rewrite ?Pos.mul_1_r, ?Z.mul_1_r in *.
  destruct p as [pn pd]. cbn [Qnum Qden] in *.
  rewrite Pos2Z.inj_mul. split; nia.
Qed.

(** ** Value synthesis *)

Lemma dropna_nonnull cells v : In v (dropna cells) -> isnull v = false.
Proof.
  unfold dropna. intros H. apply filter_In in H. destruct H as [_ H].
  apply negb_true_iff in H. exact H.
Qed.

(** The profiles that the profiler makes are well formed. *)
Lemma Profile_ok c info : Profile c info -> info_ok info.
Proof.
  intros H. destruct H as [c H|cells lo hi Hne Hlo Hhi|cells lo hi Hne Hlo Hhi
                           |cells u Hne Hu _|cells u Hne Hu _]; simpl.
  - reflexivity.
  - split.
    + intros E. apply map_eq_nil in E. contradiction.
    + intros v Hv. apply in_map_iff in Hv. destruct Hv as (x & <- & Hx).
      exists x. split; [reflexivity|]. split; [apply Hlo | apply Hhi]; exact Hx.
  - split.
    + intros E. apply map_eq_nil in E. contradiction.
    + intros v Hv. apply in_map_iff in Hv. destruct Hv as (x & <- & Hx).
      exists x. split; [reflexivity|]. split; [apply Hlo | apply Hhi]; exact Hx.
  - destruct Hu as (Hin & Hcov & _). repeat split.
    + exact Hne.
    + intros E. destruct (dropna cells) as [|x t] eqn:Ed; [congruence|].
      destruct (Hcov x (or_introl eq_refl)) as (w & Hw & _).
      rewrite E in Hw. exact Hw.
    + exact Hin.
    + apply dropna_nonnull.
  - split; [exact Hne | apply dropna_nonnull].
Qed.

Lemma analyze_column_ok c : info_ok (analyze_column c).
Proof. apply (Profile_ok c), analyze_column_spec. Qed.

Lemma letters_alpha :
  Forall (fun c => PyStr.is_alpha c = true) PyStr.ascii_letters.
Proof. apply Forall_forall. intros c Hc. repeat (destruct Hc as [<-|Hc]; [reflexivity|]). destruct Hc. Qed.

Lemma join_length l : String.length (PyStr.join l) = length l.
Proof.
  unfold PyStr.join. induction l as [|c l IH]; simpl; [reflexivity | now rewrite IH].
Qed.

(** Replacing the spaces by underscores is a character-wise map. *)
Lemma replace_space_underscore s :
  PyStr.replace PyStr.space "_" s
  = PyStr.map_chars (fun c => if Ascii.eqb c PyStr.space then "_"%char else c) s.
Proof.
  induction s as [|c s IH]; simpl; [reflexivity|].
  rewrite IH. destruct (Ascii.eqb c PyStr.space); reflexivity.
Qed.

(** A value that is not a non-empty string is returned unchanged. *)
Lemma text_variation_bypass v g :
  (forall s, v = VStr s -> s = EmptyString) ->
  _generate_text_variation v g = Some (v, g).
Proof.
  intros H. destruct v as [| | | |s]; try reflexivity.
  rewrite (H s eq_refl). reflexivity.
Qed.

(** A non-empty string gives one of the four variations, picked by the
    last word read. *)
Lemma text_variation_run s g :
  s <> EmptyString ->
  exists n suffix letters,
    1 <= n <= 999 /\ In suffix suffixes /\
    length letters = String.length s /\
    Forall (fun c => PyStr.is_alpha c = true) letters /\
    _generate_text_variation (VStr s) g
    = Some (nth (index_of (word g (2 + String.length s)) 4)
                (variations_of s n suffix letters) VNone,
            skip (3 + String.length s) g).
Proof.
  intros Hs. unfold _generate_text_variation.
  destruct (String.length s =? 0) eqn:E.
  { apply Nat.eqb_eq in E. destruct s; [congruence | discriminate]. }
  rewrite (bind_run _ (randint_run 1 999 g ltac:(lia))).
  assert (Hsuf : suffixes <> []) by discriminate.
  rewrite (bind_run _ (choice_run suffixes EmptyString (skip 1 g) Hsuf)).
  rewrite skip_skip.
  assert (Hl : PyStr.ascii_letters <> []) by discriminate.
  pose proof (choices_wp PyStr.ascii_letters (String.length s) (skip (1 + 1) g) Hl) as Hc.
  unfold wp in Hc.
  destruct (Random.choices PyStr.ascii_letters (String.length s) (skip (1 + 1) g))
    as [[letters g']|] eqn:Ec; [|contradiction].
  destruct Hc as (Hlen & Hin & ->).
  rewrite (bind_run _ Ec). rewrite skip_skip.
  set (n := Z.to_nat (1 + Z.of_nat (index_of (word g 0) (Z.to_nat (999 - 1 + 1))))).
  set (suffix := nth (index_of (word (skip 1 g) 0) (length suffixes)) suffixes EmptyString).
  exists n, suffix, letters.
  assert (Hi : index_of (word g 0) (Z.to_nat (999 - 1 + 1)) < Z.to_nat (999 - 1 + 1))
    by (apply index_of_lt; lia).
  split; [unfold n; lia|].
  split; [apply nth_In, index_of_lt; simpl; lia|].
  split; [exact Hlen|]. split.
  - apply Forall_forall. intros c Hc.
    rewrite Forall_forall in Hin. apply Hin in Hc.
    pose proof letters_alpha as Ha. rewrite Forall_forall in Ha. apply Ha, Hc.
  - match goal with
    | |- Random.choice ?l ?g0 = _ =>
        rewrite (choice_run l VNone g0 ltac:(discriminate))
    end.
    rewrite skip_skip, word_skip.
    replace (1 + 1 + String.length s + 0) with (2 + String.length s) by lia.
    replace (1 + 1 + String.length s + 1) with (3 + String.length s) by lia.
    reflexivity.
Qed.

Lemma similar_numeric_run col lo hi samples g :
  samples <> [] ->
  _generate_similar_value col (numeric lo hi samples) g
  = Some (if Qltb (unit_of (word g 0)) (7 # 10)
          then nth (index_of (word g 1) (length samples)) samples VNone
          else VNum (lo + (hi - lo) * unit_of (word g 1)),
          skip 2 g).
Proof.
  intros Hs. unfold _generate_similar_value. cbn [samples_of].
  destruct samples as [|x t] eqn:E; [congruence|]. rewrite <- E in *.
  replace (length samples =? 0) with false by (rewrite E; reflexivity).
  rewrite (bind_run _ (random_run g)).
  destruct (Qltb (unit_of (word g 0)) (7 # 10)).
  - rewrite (choice_run samples VNone (skip 1 g) Hs).
    rewrite skip_skip, word_skip. reflexivity.
  - rewrite (bind_run _ (uniform_run lo hi (skip 1 g))).
    rewrite skip_skip, word_skip. reflexivity.
Qed.

Lemma similar_datetime_run col lo hi samples g :
  samples <> [] ->
  _generate_similar_value col (datetime lo hi samples) g
  = Some (if Qltb (unit_of (word g 0)) (7 # 10)
          then nth (index_of (word g 1) (length samples)) samples VNone
          else VTime (lo + (hi - lo) * unit_of (word g 1)),
          skip 2 g).
Proof.
  intros Hs. unfold _generate_similar_value. cbn [samples_of].
  destruct samples as [|x t] eqn:E; [congruence|]. rewrite <- E in *.
  replace (length samples =? 0) with false by (rewrite E; reflexivity).
  rewrite (bind_run _ (random_run g)).
  destruct (Qltb (unit_of (word g 0)) (7 # 10)).
  - rewrite (choice_run samples VNone (skip 1 g) Hs).
    rewrite skip_skip, word_skip. reflexivity.
  - rewrite (bind_run _ (uniform_run lo hi (skip 1 g))).
    rewrite skip_skip, word_skip. reflexivity.
Qed.

Lemma similar_categorical_run col samples uv g :
  samples <> [] -> uv <> [] ->
  _generate_similar_value col (categorical samples uv) g
  = Some (nth (index_of (word g 0) (length uv)) uv VNone, skip 1 g).
Proof.
  intros Hs Hu. unfold _generate_similar_value. cbn [samples_of].
  destruct samples as [|x t] eqn:E; [congruence|]. rewrite <- E in *.
  replace (length samples =? 0) with false by (rewrite E; reflexivity).
  apply choice_run, Hu.
Qed.

Lemma similar_text_run col samples uv g :
  samples <> [] ->
  _generate_similar_value col (text samples uv) g
  = if Qltb (unit_of (word g 1)) (8 # 10)
    then Some (nth (index_of (word g 0) (length samples)) samples VNone, skip 2 g)
    else _generate_text_variation
           (nth (index_of (word g 0) (length samples)) samples VNone) (skip 2 g).
Proof.
  intros Hs. unfold _generate_similar_value. cbn [samples_of].
  destruct samples as [|x t] eqn:E; [congruence|]. rewrite <- E in *.
  replace (length samples =? 0) with false by (rewrite E; reflexivity).
  rewrite (bind_run _ (choice_run samples VNone g Hs)).
  rewrite (bind_run _ (random_run (skip 1 g))).
  rewrite skip_skip, word_skip. change (1 + 0) with 1. change (1 + 1) with 2.
  destruct (Qltb (unit_of (word g 1)) (8 # 10)); reflexivity.
Qed.

Lemma nth_variation_str i s n suffix letters :
  i < 4 -> exists t, nth i (variations_of s n suffix letters) VNone = VStr t.
Proof.
  intros Hi. destruct i as [|[|[|[|i]]]]; simpl; try (eexists; reflexivity).
  exfalso. lia.
Qed.

(** Every run of the synthesis of a well-formed profile returns a value
    that the profile allows. *)
Lemma returns_similar col info :
  info_ok info -> returns (_generate_similar_value col info) (similar_to info).
Proof.
  intros Hok g. unfold wp.
  destruct info as [s|lo hi s|lo hi s|s u|s u]; simpl in Hok.
  - subst s. reflexivity.
  - destruct Hok as [Hne Hin]. rewrite similar_numeric_run by exact Hne.
    simpl. destruct (Qltb (unit_of (word g 0)) (7 # 10)).
    + apply Hin, nth_In, index_of_lt. destruct s; [congruence | simpl; lia].
    + eexists. split; [reflexivity|].
      destruct s as [|v0 s']; [congruence|].
      destruct (Hin v0 (or_introl eq_refl)) as (x0 & _ & Hx0).
      destruct (unit_of_range (word g 1)) as [H0 H1].
      apply between; [|exact H0 | exact H1].
      eapply Qle_trans; apply Hx0.
  - destruct Hok as [Hne Hin]. rewrite similar_datetime_run by exact Hne.
    simpl. destruct (Qltb (unit_of (word g 0)) (7 # 10)).
    + apply Hin, nth_In, index_of_lt. destruct s; [congruence | simpl; lia].
    + eexists. split; [reflexivity|].
      destruct s as [|v0 s']; [congruence|].
      destruct (Hin v0 (or_introl eq_refl)) as (x0 & _ & Hx0).
      destruct (unit_of_range (word g 1)) as [H0 H1].
      apply between; [|exact H0 | exact H1].
      eapply Qle_trans; apply Hx0.
  - destruct Hok as (Hne & Hu & _). rewrite similar_categorical_run by assumption.
    simpl. apply nth_In, index_of_lt. destruct u; [congruence | simpl; lia].
  - destruct Hok as (Hne & _). rewrite similar_text_run by exact Hne.
    assert (Hin : In (nth (index_of (word g 0) (length s)) s VNone) s).
    { apply nth_In, index_of_lt. destruct s; [congruence | simpl; lia]. }
    set (t := nth (index_of (word g 0) (length s)) s VNone) in *.
    destruct (Qltb (unit_of (word g 1)) (8 # 10)).
    + simpl. left. exact Hin.
    + destruct t as [| | | |str] eqn:Et;
        try (rewrite text_variation_bypass by (intros ? ?; discriminate);
             simpl; left; exact Hin).
      destruct str as [|c str'] eqn:Es.
      * rewrite text_variation_bypass; [simpl; left; exact Hin|].
        intros s0 E0. inversion E0. reflexivity.
      * destruct (text_variation_run (String c str') (skip 2 g) ltac:(discriminate))
          as (n & suffix & letters & _ & _ & _ & _ & ->).
        cbv beta iota. right. apply nth_variation_str, index_of_lt. lia.
Qed.

Lemma index_of_onto n i : i < n -> index_of (N.of_nat i) n = i.
Proof.
  intros H. unfold index_of. rewrite N.mod_small by lia. lia.
Qed.

Lemma nth_index_In {A} (l : list A) w d : l <> [] -> In (nth (index_of w (length l)) l d) l.
Proof.
  intros H. apply nth_In, index_of_lt. destruct l; [congruence | simpl; lia].
Qed.



(** ** Expansion *)

Lemma set_fresh {V} k (v : V) d :
  ~ In k (Dict.keys d) -> Dict.set k v d = d ++ [(k, v)].
Proof.
  unfold Dict.keys. induction d as [|[k' v'] d IH]; simpl; intros Hk.
  - reflexivity.
  - destruct (String.eqb_spec k k') as [->|Hne].
    + exfalso. apply Hk. left. reflexivity.
    + rewrite IH; [reflexivity|]. intros Hin. apply Hk. right. exact Hin.
Qed.

Lemma generator_profiled s : profiled (generator s).
Proof.
  split; simpl.
  - apply analyze_columns_NoDup.
  - unfold _analyze_columns.
    assert (H : forall acc,
               Forall info_ok (Dict.values acc) ->
               Forall info_ok
                 (Dict.values
                    (fold_left (fun column_info '(col, c) =>
                                  Dict.set col (analyze_column c) column_info) s acc))).
    { induction s as [|[col c] s IH]; intros acc Hacc; simpl; [exact Hacc|].
      apply IH. clear IH. unfold Dict.values in *.
      induction acc as [|[k v] acc IHa]; simpl.
      - constructor; [apply analyze_column_ok | constructor].
      - inversion Hacc; subst. destruct (String.eqb k col) eqn:E.
        + rewrite String.eqb_sym, E. simpl.
          constructor; [apply analyze_column_ok | assumption].
        + rewrite String.eqb_sym, E. simpl. constructor; auto. }
    apply H. constructor.
Qed.

(** One record: the cells are synthesized in profile order and appended
    to the record under construction. *)
Lemma new_record_wp items record g :
  NoDup (Dict.keys record ++ Dict.keys items) ->
  Forall info_ok (Dict.values items) ->
  wp (new_record items record)
     (fun r _ => exists cells,
          r = record ++ cells /\
          Forall2 (fun item cell =>
                     fst item = fst cell /\ similar_to (snd item) (snd cell))
                  items cells) g.
Proof.
  revert record g. induction items as [|[col info] items IH]; intros record g Hnd Hok.
  - simpl. exists []. rewrite app_nil_r. split; [reflexivity | constructor].
  - simpl new_record. inversion Hok as [|? ? Hinfo Hok']; subst.
    apply wp_bind. eapply wp_mono; [|apply (returns_similar col info Hinfo g)].
    intros v g1 Hv. cbv beta.
    assert (Hfresh : ~ In col (Dict.keys record)).
    { simpl in Hnd. apply NoDup_remove_2 in Hnd. intros Hin.
      apply Hnd, in_or_app. left. exact Hin. }
    rewrite (set_fresh col v record Hfresh).
    eapply wp_mono; [|apply IH].
    + intros r g2 (cells & -> & Hcells). exists ((col, v) :: cells).
      rewrite <- app_assoc. split; [reflexivity|].
      constructor; [split; [reflexivity | exact Hv] | exact Hcells].
    + unfold Dict.keys in *. rewrite map_app, <- app_assoc. simpl. exact Hnd.
    + exact Hok'.
Qed.

Lemma returns_new_record self :
  profiled self -> returns (new_record (column_types self) []) (row_similar self).
Proof.
  intros [Hnd Hok] g. eapply wp_mono; [|apply new_record_wp].
  - intros r g' (cells & -> & H). exact H.
  - exact Hnd.
  - exact Hok.
Qed.

Lemma returns_expanded_records self n :
  profiled self ->
  returns (expanded_records self n)
          (fun rs => length rs = n /\ Forall (row_similar self) rs).
Proof.
  intros Hp. induction n as [|n IH]; simpl.
  - apply returns_ret. split; [reflexivity | constructor].
  - eapply returns_bind; [apply returns_new_record, Hp|].
    intros r Hr. eapply returns_bind; [apply IH|].
    intros rs [Hlen Hrs]. apply returns_ret.
    split; [simpl; lia | constructor; assumption].
Qed.

Lemma row_similar_keys self r :
  row_similar self r -> Dict.keys r = Dict.keys (column_types self).
Proof.
  unfold row_similar, Dict.keys. intros H.
  induction H as [|x y l l' [E _] _ IH]; simpl; [reflexivity|].
  rewrite IH, E. reflexivity.
Qed.

(** A table built from records that all have the keys [K]. *)
Lemma DataFrame_of_uniform K r rs :
  NoDup K -> Forall (fun row => Dict.keys row = K) (r :: rs) ->
  DataFrame_of (r :: rs) = {| columns := K; rows := r :: rs |}.
Proof.
  intros Hnd H. unfold DataFrame_of.
  assert (Hcols : fold_left (fun acc r0 => union acc (Dict.keys r0)) (r :: rs) [] = K).
  { inversion H as [|? ? Hr Hrs]; subst. simpl. rewrite union_nil by exact Hnd.
    clear H. induction Hrs as [|r' rs' Hr' _ IH]; simpl; [reflexivity|].
    rewrite Hr'. rewrite union_incl by apply incl_refl. exact IH. }
  rewrite Hcols. f_equal. apply map_reindex_id; assumption.
Qed.

Lemma DataFrame_of_nil : DataFrame_of [] = {| columns := []; rows := [] |}.
Proof. reflexivity. Qed.

(** Expansion: [range(target_rows)] rows of synthesized cells; the columns
    are read off the records, so there is none when there is no record. *)
Lemma returns_expand_data self target_rows :
  profiled self ->
  returns (_expand_data self target_rows)
          (fun df =>
             len df = Z.to_nat target_rows /\
             Forall (row_similar self) (rows df) /\
             columns df = (if (0 <? target_rows)%Z
                           then Dict.keys (column_types self) else []) /\
             fits self df).
Proof.
  intros Hp. unfold _expand_data.
  eapply returns_bind; [apply returns_expanded_records, Hp|].
  intros rs [Hlen Hrs]. apply returns_ret.
  assert (Hkeys : Forall (fun row => Dict.keys row = Dict.keys (column_types self)) rs).
  { eapply Forall_impl; [|exact Hrs]. intros r. apply row_similar_keys. }
  destruct rs as [|r rs].
  - simpl in Hlen. rewrite DataFrame_of_nil. unfold len. simpl.
    destruct (0 <? target_rows)%Z eqn:E; [apply Z.ltb_lt in E; lia|].
    repeat split; auto; try constructor. exact (proj1 Hp).
  - replace (DataFrame_of (r :: rs))
      with {| columns := Dict.keys (column_types self); rows := r :: rs |}
      by (symmetry; apply DataFrame_of_uniform; [exact (proj1 Hp) | exact Hkeys]).
    unfold len. simpl.
    destruct (0 <? target_rows)%Z eqn:E;
      [|apply Z.ltb_ge in E; simpl in Hlen; lia].
    repeat split; auto. exact (proj1 Hp). exact (proj1 Hp).
Qed.




(** ** Counting draws *)

Lemma py_int_floor x : (0 <= x)%Q -> py_int x = Qfloor x.
Proof.
  intros H. destruct x as [n d]. unfold py_int, Qfloor. simpl.
  apply Z.quot_div_nonneg; [|lia].
  unfold Qle in H. simpl in H. lia.
Qed.

Lemma Qnat_rate_nonneg n rate : (0 <= rate)%Q -> (0 <= Qnat n * rate)%Q.
Proof.
  intros H. apply Qmult_le_0_compat; [|exact H].
  unfold Qnat. change 0%Q with (inject_Z 0). rewrite <- Zle_Qle. lia.
Qed.

Lemma py_int_nonneg x : (0 <= x)%Q -> (0 <= py_int x)%Z.
Proof.
  intros H. rewrite py_int_floor by exact H.
  rewrite Zle_Qle. change (inject_Z 0) with (inject_Z (Qfloor 0)).
  rewrite <- Zle_Qle. apply Qfloor_resp_le, H.
Qed.

Lemma draws_floor n rate :
  (0 <= rate)%Q -> Z.of_nat (draws n rate) = Qfloor (Qnat n * rate).
Proof.
  intros H. unfold draws.
  rewrite Z2Nat.id by (apply py_int_nonneg, Qnat_rate_nonneg, H).
  apply py_int_floor, Qnat_rate_nonneg, H.
Qed.

Lemma draws_zero_rows rate : draws 0 rate = 0.
Proof.
  unfold draws, py_int.
  assert (H : Qnum (Qnat 0 * rate) = 0%Z) by reflexivity.
  rewrite H. rewrite Z.quot_0_l; [reflexivity | discriminate].
Qed.

Lemma draws_zero_rate n : draws n 0 = 0.
Proof.
  unfold draws, py_int.
  assert (H : Qnum (Qnat n * 0) = 0%Z) by (cbn [Qnum Qmult]; apply Z.mul_0_r).
  rewrite H. rewrite Z.quot_0_l; [reflexivity | discriminate].
Qed.

Lemma draws_pos n rate : 0 < draws n rate -> 0 < n.
Proof.
  destruct n; [rewrite draws_zero_rows; lia | lia].
Qed.

(** ** Loops *)

Lemma returns_for_range {S} (Inv : S -> Prop) n (body : S -> M S) s :
  Inv s -> (forall s, Inv s -> returns (body s) Inv) ->
  returns (for_range n body s) Inv.
Proof.
  intros Hs Hbody. revert s Hs. induction n as [|n IH]; intros s Hs; simpl.
  - apply returns_ret, Hs.
  - eapply returns_bind; [apply Hbody, Hs|]. intros s' Hs'. apply IH, Hs'.
Qed.

Lemma sure_ret {A} (a : A) (P : A -> Prop) : P a -> sure (ret a) P.
Proof. intros H g a' g' E. inversion E; subst. exact H. Qed.

Lemma sure_raise {A} (P : A -> Prop) : sure raise P.
Proof. intros g a g' E. discriminate. Qed.

Lemma sure_bind {A B} (m : M A) (f : A -> M B) (P : A -> Prop) (Q : B -> Prop) :
  sure m P -> (forall a, P a -> sure (f a) Q) -> sure (bind m f) Q.
Proof.
  intros Hm Hf g b g2 E. apply bind_run_inv in E.
  destruct E as (a & g1 & E1 & E2). exact (Hf a (Hm _ _ _ E1) _ _ _ E2).
Qed.

Lemma sure_mono {A} (m : M A) (P Q : A -> Prop) :
  (forall a, P a -> Q a) -> sure m P -> sure m Q.
Proof. intros H Hm g a g' E. apply H. exact (Hm _ _ _ E). Qed.

Lemma sure_returns {A} (m : M A) (P : A -> Prop) : returns m P -> sure m P.
Proof. intros H g a g' E. exact (returns_run m P g a g' H E). Qed.

Lemma sure_must {A} (o : option A) (P : A -> Prop) :
  (forall a, o = Some a -> P a) -> sure (must o) P.
Proof.
  intros H. destruct o; simpl; [apply sure_ret, H; reflexivity | apply sure_raise].
Qed.

(** A step whose result does not matter for the property at hand. *)
Ltac any_result :=
  eapply sure_bind with (P := fun _ => True); [intros ? ? ? ?; exact I|].

Lemma sure_for_range {S} (Inv : S -> Prop) n (body : S -> M S) s :
  Inv s -> (forall s, Inv s -> sure (body s) Inv) ->
  sure (for_range n body s) Inv.
Proof.
  intros Hs Hbody. revert s Hs. induction n as [|n IH]; intros s Hs; simpl.
  - apply sure_ret, Hs.
  - eapply sure_bind; [apply Hbody, Hs|]. intros s' Hs'. apply IH, Hs'.
Qed.

(** [random.randint(0, len(df) - 1)] draws a row of a table that has one. *)
Lemma random_row_run df g :
  0 < len df -> random_row df g = Some (index_of (word g 0) (len df), skip 1 g).
Proof.
  intros H. unfold random_row.
  rewrite (bind_run _ (randint_run 0 (Z.of_nat (len df) - 1) g ltac:(lia))).
  unfold ret. f_equal. f_equal.
  replace (Z.to_nat (Z.of_nat (len df) - 1 - 0 + 1)) with (len df) by lia.
  lia.
Qed.

Lemma returns_random_row df :
  0 < len df -> returns (random_row df) (fun r => r < len df).
Proof.
  intros H g. unfold wp. rewrite random_row_run by exact H.
  apply index_of_lt, H.
Qed.

Lemma sure_random_row df : sure (random_row df) (fun r => r < len df).
Proof.
  intros g r g' E. unfold random_row in E. apply bind_run_inv in E.
  destruct E as (i & g1 & E1 & E2). inversion E2; subst. clear E2.
  unfold Random.randint in E1. apply bind_run_inv in E1.
  destruct E1 as (k & g2 & E1 & E2). inversion E2; subst. clear E2.
  destruct (Z.to_nat (Z.of_nat (len df) - 1 - 0 + 1)) as [|m] eqn:Em.
  - discriminate.
  - assert (Hk : k < S m).
    { rewrite randbelow_run in E1 by lia. inversion E1; subst.
      apply index_of_lt. lia. }
    lia.
Qed.

(** ** Assignments to cells *)

Lemma at_set_len df r c v : r < len df -> len (at_set df r c v) = len df.
Proof.
  intros H. unfold at_set. apply Nat.ltb_lt in H. rewrite H.
  destruct (mem c (columns df)); unfold len; simpl;
    rewrite update_nth_length; [reflexivity|]. apply length_map.
Qed.

Lemma at_set_present df r c v :
  r < len df -> In c (columns df) ->
  at_set df r c v
  = {| columns := columns df; rows := update_nth r (Dict.set c v) (rows df) |}.
Proof.
  intros Hr Hc. unfold at_set. apply Nat.ltb_lt in Hr. apply mem_In in Hc.
  rewrite Hr, Hc. reflexivity.
Qed.

Lemma at_set_wf df r c v :
  r < len df -> In c (columns df) -> wf df -> wf (at_set df r c v).
Proof.
  intros Hr Hc [Hnd Hrows]. rewrite at_set_present by assumption.
  split; simpl; [exact Hnd|].
  apply update_nth_Forall; [|exact Hrows].
  intros row Hrow. rewrite keys_set_present; [exact Hrow|]. rewrite Hrow. exact Hc.
Qed.

Lemma fits_columns self df c :
  fits self df -> 0 < len df -> In c (Dict.keys (column_types self)) ->
  In c (columns df).
Proof.
  intros (_ & _ & [H|H]) Hlen Hc; [lia|]. rewrite H. exact Hc.
Qed.

Lemma at_set_fits self df r c v :
  r < len df -> In c (columns df) -> fits self df -> fits self (at_set df r c v).
Proof.
  intros Hr Hc (Hwf & Hnd & Hcols). split; [apply at_set_wf; assumption|].
  split; [exact Hnd|]. rewrite at_set_len by exact Hr.
  rewrite at_set_present by assumption. exact Hcols.
Qed.

Lemma cols_where_keys p self c :
  In c (cols_where p self) -> In c (Dict.keys (column_types self)).
Proof.
  unfold cols_where, Dict.keys. intros H. apply in_map_iff in H.
  destruct H as (x & <- & Hx). apply filter_In in Hx. apply in_map, Hx.
Qed.

Lemma cols_where_get p self c :
  NoDup (Dict.keys (column_types self)) -> In c (cols_where p self) ->
  exists info, Dict.get c (column_types self) = Some info /\ p info = true.
Proof.
  unfold cols_where, Dict.keys at 2. intros Hnd H. apply in_map_iff in H.
  destruct H as ([k info] & <- & Hx). apply filter_In in Hx.
  destruct Hx as [Hin Hp]. exists info. split; [|exact Hp].
  apply get_In; assumption.
Qed.

(** ** Sequences of writes *)

Lemma writes_app ws1 ws2 df : writes (ws1 ++ ws2) df = writes ws2 (writes ws1 df).
Proof. unfold writes. apply fold_left_app. Qed.

Lemma written_refl cols P df : written cols P df df.
Proof. exists []. split; [reflexivity | constructor]. Qed.

Lemma writes_shape cols ws df :
  wf df -> incl cols (columns df) ->
  Forall (fun w => fst (fst w) < len df /\ In (snd (fst w)) cols) ws ->
  len (writes ws df) = len df /\ columns (writes ws df) = columns df /\
  wf (writes ws df).
Proof.
  intros Hwf Hincl H. revert df Hwf Hincl H.
  induction ws as [|[[r c] v] ws IH]; intros df Hwf Hincl H.
  - simpl. auto.
  - inversion H as [|? ? [Hr Hc] Hws]; subst. simpl in Hr, Hc.
    assert (Hc' : In c (columns df)) by (apply Hincl, Hc).
    change (writes ((r, c, v) :: ws) df) with (writes ws (at_set df r c v)).
    destruct (IH (at_set df r c v)) as (Hl & Hcs & Hw).
    + apply at_set_wf; assumption.
    + rewrite at_set_present by assumption. exact Hincl.
    + rewrite at_set_len by exact Hr. exact Hws.
    + split; [rewrite Hl; apply at_set_len; exact Hr|].
      split; [|exact Hw].
      rewrite Hcs, at_set_present by assumption. reflexivity.
Qed.

Lemma written_shape cols P df df' :
  wf df -> incl cols (columns df) -> written cols P df df' ->
  len df' = len df /\ columns df' = columns df /\ wf df'.
Proof.
  intros Hwf Hincl (ws & -> & H). apply (writes_shape cols); try assumption.
  eapply Forall_impl; [|exact H]. intros w (H1 & H2 & _). auto.
Qed.

Lemma written_step cols P df df' r c v :
  written cols P df df' -> len df' = len df -> r < len df' -> In c cols -> P c v ->
  written cols P df (at_set df' r c v).
Proof.
  intros (ws & -> & H) Hl Hr Hc Hv.
  exists (ws ++ [(r, c, v)]). split.
  - rewrite writes_app. reflexivity.
  - apply Forall_app. split; [exact H|]. constructor; [|constructor].
    simpl. rewrite <- Hl. auto.
Qed.

Lemma written_fits self cols P df df' :
  fits self df -> incl cols (columns df) -> written cols P df df' ->
  fits self df' /\ len df' = len df /\ columns df' = columns df.
Proof.
  intros (Hwf & Hnd & Hcols) Hincl Hw.
  destruct (written_shape cols P df df' Hwf Hincl Hw) as (Hl & Hc & Hwf').
  split; [|auto]. split; [exact Hwf'|]. split; [exact Hnd|].
  rewrite Hl, Hc. exact Hcols.
Qed.

(** ** Null injection *)

Lemma writes_cons w ws df : writes (w :: ws) df = writes ws (write df w).
Proof. reflexivity. Qed.

Lemma null_loop pool k df g :
  (0 < k -> 0 < len df /\ pool <> []) ->
  for_range k
    (fun df =>
       row_idx <- random_row df ;;
       col_name <- Random.choice pool ;;
       ret (at_set df row_idx col_name VNone))
    df g
  = Some (writes (null_draws pool (len df) k g) df, skip (2 * k) g).
Proof.
  revert df g. induction k as [|k IH]; intros df g H.
  - simpl. unfold ret. rewrite skip_0. reflexivity.
  - destruct H as [Hlen Hpool]; [lia|].
    cbn [for_range null_draws].
    rewrite (bind_bind_run _ _ (random_row_run df g Hlen)).
    rewrite (bind_bind_run _ _ (choice_run pool EmptyString (skip 1 g) Hpool)).
    unfold bind at 1, ret at 1. rewrite skip_skip, word_skip. change (1 + 0) with 1.
    assert (Hr : index_of (word g 0) (len df) < len df) by (apply index_of_lt, Hlen).
    rewrite IH.
    + rewrite at_set_len by exact Hr. rewrite writes_cons, skip_skip.
      unfold write. simpl fst. simpl snd.
      f_equal. f_equal. f_equal. lia.
    + intros _. rewrite at_set_len by exact Hr. auto.
Qed.

Lemma null_prone_In self c :
  In c (null_prone_cols self) <-> In c (Dict.keys (column_types self)).
Proof.
  unfold null_prone_cols, Dict.keys. rewrite in_flat_map, in_map_iff.
  split.
  - intros ([k info] & Hin & Hc). exists (k, info). split; [|exact Hin].
    destruct (is_text_like info); simpl in *; intuition congruence.
  - intros ([k info] & <- & Hin). exists (k, info). split; [exact Hin|].
    destruct (is_text_like info); simpl; auto.
Qed.

Lemma null_prone_nonempty self :
  column_types self <> [] -> null_prone_cols self <> [].
Proof.
  unfold null_prone_cols. destruct (column_types self) as [|[k info] t]; [congruence|].
  intros _. simpl. destruct (is_text_like info); discriminate.
Qed.

(** The weights of the pool: three entries for a text or categorical
    column, one for any other. *)
Lemma null_prone_weight self col info :
  NoDup (Dict.keys (column_types self)) -> In (col, info) (column_types self) ->
  count_occ string_dec (null_prone_cols self) col
  = if is_text_like info then 3 else 1.
Proof.
  unfold null_prone_cols, Dict.keys.
  induction (column_types self) as [|[k i] t IH]; intros Hnd Hin; [contradiction|].
  simpl in Hnd. inversion Hnd as [|? ? Hnot Hnd']; subst.
  cbn [flat_map]. rewrite count_occ_app.
  destruct Hin as [E|Hin].
  - inversion E; subst.
    assert (Ht : count_occ string_dec
                   (flat_map (fun '(col0, info0) =>
                                if is_text_like info0 then [col0; col0; col0] else [col0]) t)
                   col = 0).
    { apply count_occ_not_In. rewrite in_flat_map.
      intros ([k' i'] & Hin' & Hc). apply Hnot.
      apply in_map_iff. exists (k', i'). split; [|exact Hin'].
      destruct (is_text_like i'); simpl in *; intuition congruence. }
    rewrite Ht. destruct (is_text_like info); simpl;
      destruct (string_dec col col); try congruence; reflexivity.
  - rewrite (IH Hnd' Hin).
    assert (Hne : k <> col).
    { intros ->. apply Hnot. apply in_map_iff. exists (col, info). auto. }
    destruct (is_text_like i); simpl;
      destruct (string_dec k col); try congruence; reflexivity.
Qed.

Lemma null_draws_length pool n k g : length (null_draws pool n k g) = k.
Proof. revert g. induction k; intros g; simpl; auto. Qed.

Lemma null_draws_Forall pool n k g :
  0 < n -> pool <> [] ->
  Forall (fun w => fst (fst w) < n /\ In (snd (fst w)) pool /\ snd w = VNone)
         (null_draws pool n k g).
Proof.
  intros Hn Hp. revert g. induction k as [|k IH]; intros g; simpl; constructor.
  - simpl. split; [apply index_of_lt, Hn|]. split; [|reflexivity].
    apply nth_In, index_of_lt. destruct pool; [congruence | simpl; lia].
  - apply IH.
Qed.

Lemma cells_pos df rate :
  0 < draws (fst (shape df) * snd (shape df)) rate ->
  0 < len df /\ columns df <> [].
Proof.
  intros H. apply draws_pos in H. unfold shape in H. simpl in H.
  split; [lia|]. intros E. rewrite E in H. simpl in H. lia.
Qed.

(** Null injection on a table that fits the generator: the table after the
    writes of the drawn cells. *)
Lemma add_strategic_nulls_run self df rate g :
  fits self df ->
  _add_strategic_nulls self df rate g
  = Some (writes (null_draws (null_prone_cols self) (len df)
                    (draws (len df * length (columns df)) rate) g) df,
          skip (2 * draws (len df * length (columns df)) rate) g).
Proof.
  intros (Hwf & Hnd & Hcols). unfold _add_strategic_nulls.
  apply null_loop. intros Hk. apply cells_pos in Hk. destruct Hk as [Hlen Hc].
  split; [exact Hlen|]. apply null_prone_nonempty.
  destruct Hcols as [H0|Hc']; [lia|]. rewrite Hc' in Hc.
  intros E. rewrite E in Hc. apply Hc. reflexivity.
Qed.

Lemma returns_add_strategic_nulls self df rate :
  fits self df ->
  returns (_add_strategic_nulls self df rate)
          (written (Dict.keys (column_types self)) (fun _ v => v = VNone) df).
Proof.
  intros Hfit g. unfold wp. rewrite add_strategic_nulls_run by exact Hfit.
  set (k := draws (len df * length (columns df)) rate).
  destruct k as [|k'] eqn:Ek.
  - apply written_refl.
  - assert (Hk : 0 < draws (fst (shape df) * snd (shape df)) rate)
      by (unfold shape; simpl; fold k; lia).
    apply cells_pos in Hk. destruct Hk as [Hlen Hc].
    eexists. split; [reflexivity|].
    eapply Forall_impl; [|apply null_draws_Forall].
    + intros w (H1 & H2 & H3). split; [exact H1|]. split; [|exact H3].
      apply null_prone_In, H2.
    + exact Hlen.
    + apply null_prone_nonempty. destruct Hfit as (_ & _ & [H0|Hc']); [lia|].
      rewrite Hc' in Hc. intros E. rewrite E in Hc. apply Hc. reflexivity.
Qed.

(** Whatever the table and the profiles, null injection keeps the rows. *)
Lemma sure_add_strategic_nulls_len self df rate :
  sure (_add_strategic_nulls self df rate) (fun df' => len df' = len df).
Proof.
  unfold _add_strategic_nulls.
  apply (sure_for_range (fun d => len d = len df)); [reflexivity|].
  intros d Hd. eapply sure_bind; [apply sure_random_row|].
  intros r Hr. any_result.
  intros c _. apply sure_ret. rewrite at_set_len by exact Hr. exact Hd.
Qed.

(** ** Counting nulls *)

Lemma null_count_rows cols rs :
  null_count {| columns := cols; rows := rs |}
  = list_sum (map (fun row => length (filter isnull (Dict.values row))) rs).
Proof.
  unfold null_count. simpl. induction rs as [|r rs IH]; simpl; [reflexivity|].
  rewrite filter_app, length_app, IH. reflexivity.
Qed.

Lemma null_count_eq df :
  null_count df
  = list_sum (map (fun row => length (filter isnull (Dict.values row))) (rows df)).
Proof. destruct df. apply null_count_rows. Qed.

(** Overwriting a cell of a row changes its null count by the change of
    that cell. *)
Lemma nulls_set row c v v0 :
  Dict.get c row = Some v0 ->
  length (filter isnull (Dict.values (Dict.set c v row)))
  + (if isnull v0 then 1 else 0)
  = length (filter isnull (Dict.values row)) + (if isnull v then 1 else 0).
Proof.
  unfold Dict.values. induction row as [|[k x] row IH]; simpl; intros H.
  - discriminate.
  - destruct (String.eqb_spec c k) as [->|Hne].
    + inversion H; subst. simpl.
      destruct (isnull v), (isnull v0); simpl; lia.
    + simpl. specialize (IH H). destruct (isnull x); simpl; lia.
Qed.

Lemma list_sum_update {A} (f : A -> nat) (h : A -> A) r l x :
  nth_error l r = Some x ->
  list_sum (map f (update_nth r h l)) + f x = list_sum (map f l) + f (h x).
Proof.
  revert r. induction l as [|y l IH]; intros [|r]; simpl; intros H; try discriminate.
  - inversion H; subst. lia.
  - specialize (IH r H). lia.
Qed.

Lemma null_count_at_set df r c v v0 :
  In c (columns df) -> at_get df r c = Some v0 ->
  null_count (at_set df r c v) + (if isnull v0 then 1 else 0)
  = null_count df + (if isnull v then 1 else 0).
Proof.
  intros Hc Hget. unfold at_get in Hget.
  destruct (nth_error (rows df) r) as [row|] eqn:Er; [|discriminate].
  assert (Hr : r < len df) by (apply nth_error_Some; congruence).
  rewrite at_set_present by assumption.
  rewrite null_count_rows, null_count_eq.
  pose proof (list_sum_update
                (fun row => length (filter isnull (Dict.values row)))
                (Dict.set c v) r (rows df) row Er) as Hs.
  cbv beta in Hs. pose proof (nulls_set row c v v0 Hget) as Hn. lia.
Qed.

Lemma at_get_at_set_same df r c v :
  r < len df -> In c (columns df) -> at_get (at_set df r c v) r c = Some v.
Proof.
  intros Hr Hc. rewrite at_set_present by assumption. unfold at_get. simpl.
  rewrite nth_error_update_nth, Nat.eqb_refl.
  destruct (nth_error (rows df) r) eqn:E.
  - simpl. apply get_set_same.
  - apply nth_error_None in E. unfold len in Hr. lia.
Qed.

Lemma at_get_at_set_other df r c v r' c' :
  r < len df -> In c (columns df) -> (r', c') <> (r, c) ->
  at_get (at_set df r c v) r' c' = at_get df r' c'.
Proof.
  intros Hr Hc Hne. rewrite at_set_present by assumption. unfold at_get. simpl.
  rewrite nth_error_update_nth. destruct (Nat.eqb_spec r r') as [->|Hr'].
  - destruct (nth_error (rows df) r') eqn:E; simpl; [|reflexivity].
    apply get_set_other. intros ->. apply Hne. reflexivity.
  - reflexivity.
Qed.

Lemma wf_at_get df r c :
  wf df -> r < len df -> In c (columns df) -> exists v, at_get df r c = Some v.
Proof.
  intros [_ Hrows] Hr Hc. unfold at_get.
  destruct (nth_error (rows df) r) as [row|] eqn:E.
  - apply get_key. rewrite Forall_forall in Hrows.
    rewrite (Hrows row (nth_error_In _ _ E)). exact Hc.
  - apply nth_error_None in E. unfold len in Hr. lia.
Qed.

(** Null writes into cells of a well-formed table add at most one null
    each. *)
Lemma null_writes_le ws df :
  wf df ->
  Forall (fun w => fst (fst w) < len df /\ In (snd (fst w)) (columns df) /\
                   snd w = VNone) ws ->
  null_count (writes ws df) <= null_count df + length ws.
Proof.
  revert df. induction ws as [|[[r c] v] ws IH]; intros df Hwf H.
  - simpl. lia.
  - inversion H as [|? ? (Hr & Hc & Hv) Hws]; subst. simpl in Hr, Hc, Hv. subst v.
    rewrite writes_cons. unfold write. simpl fst. simpl snd.
    destruct (wf_at_get df r c Hwf Hr Hc) as (v0 & Hget).
    pose proof (null_count_at_set df r c VNone _ Hc Hget) as Hstep. simpl in Hstep.
    specialize (IH (at_set df r c VNone)).
    assert (Hle : null_count (writes ws (at_set df r c VNone))
                  <= null_count (at_set df r c VNone) + length ws).
    { apply IH; [apply at_set_wf; assumption|].
      rewrite at_set_len by exact Hr. rewrite at_set_present by assumption. exact Hws. }
    simpl length. destruct (isnull v0); lia.
Qed.

(** Null writes into distinct cells that were not null add exactly one
    null each. *)
Lemma null_writes_eq ws df :
  wf df ->
  Forall (fun w => fst (fst w) < len df /\ In (snd (fst w)) (columns df) /\
                   snd w = VNone) ws ->
  NoDup (map fst ws) ->
  Forall (fun w => exists v, at_get df (fst (fst w)) (snd (fst w)) = Some v /\
                             isnull v = false) ws ->
  null_count (writes ws df) = null_count df + length ws.
Proof.
  revert df. induction ws as [|[[r c] v] ws IH]; intros df Hwf H Hnd Hnn.
  - simpl. lia.
  - inversion H as [|? ? (Hr & Hc & Hv) Hws]; subst. simpl in Hr, Hc, Hv. subst v.
    inversion Hnn as [|? ? (v0 & Hget & Hv0) Hnn']; subst. simpl in Hget.
    simpl in Hnd. inversion Hnd as [|? ? Hnot Hnd']; subst.
    rewrite writes_cons. unfold write. simpl fst. simpl snd.
    pose proof (null_count_at_set df r c VNone _ Hc Hget) as Hstep.
    rewrite Hv0 in Hstep. simpl in Hstep.
    rewrite (IH (at_set df r c VNone)).
    + simpl length. lia.
    + apply at_set_wf; assumption.
    + rewrite at_set_len by exact Hr. rewrite at_set_present by assumption. exact Hws.
    + exact Hnd'.
    + rewrite Forall_forall in *. intros [[r' c'] v'] Hin.
      destruct (Hnn' _ Hin) as (v1 & Hg1 & Hv1). simpl in *.
      exists v1. split; [|exact Hv1].
      rewrite at_get_at_set_other; try assumption.
      intros E. apply Hnot. rewrite <- E.
      apply (in_map fst) in Hin. exact Hin.
Qed.



Lemma table_ids_fits : fits (generator sample_ids) table_ids.
Proof.
  split; [split|split].
  - repeat constructor. simpl. tauto.
  - repeat constructor.
  - repeat constructor. simpl. tauto.
  - right. reflexivity.
Qed.


(** ** Range violation *)

Lemma numeric_col_info self col :
  NoDup (Dict.keys (column_types self)) -> In col (numeric_cols self) ->
  exists lo hi s, Dict.get col (column_types self) = Some (numeric lo hi s).
Proof.
  intros Hnd Hin. destruct (cols_where_get is_numeric self col Hnd Hin) as (info & Hg & Hp).
  destruct info; try discriminate. eauto.
Qed.

Lemma wrong_values_nonempty lo hi : wrong_values lo hi <> [].
Proof. discriminate. Qed.

Lemma range_loop self k df g :
  NoDup (Dict.keys (column_types self)) -> numeric_cols self <> [] ->
  (0 < k -> 0 < len df) ->
  for_range k
    (fun df =>
       row_idx <- random_row df ;;
       match numeric_cols self with
       | [] => ret df
       | _ :: _ =>
           col <- Random.choice (numeric_cols self) ;;
           info <- must (Dict.get col (column_types self)) ;;
           match info with
           | numeric min max _ =>
               w <- Random.choice (wrong_values min max) ;;
               ret (at_set df row_idx col (VNum w))
           | _ => raise
           end
       end)
    df g
  = Some (writes (range_draws self (len df) k g) df, skip (3 * k) g).
Proof.
  intros Hnd Hne. revert df g. induction k as [|k IH]; intros df g H.
  - simpl. unfold ret. rewrite skip_0. reflexivity.
  - assert (Hlen : 0 < len df) by (apply H; lia).
    cbn [for_range range_draws].
    rewrite (bind_bind_run _ _ (random_row_run df g Hlen)).
    destruct (numeric_cols self) as [|c0 cs] eqn:Ec; [congruence|].
    rewrite <- Ec in *.
    rewrite (bind_bind_run _ _ (choice_run (numeric_cols self) EmptyString (skip 1 g) Hne)).
    rewrite skip_skip, word_skip. change (1 + 0) with 1. change (1 + 1) with 2.
    set (col := nth (index_of (word g 1) (length (numeric_cols self)))
                    (numeric_cols self) EmptyString).
    assert (Hcol : In col (numeric_cols self)).
    { apply nth_In, index_of_lt. rewrite Ec. simpl. lia. }
    destruct (numeric_col_info self col Hnd Hcol) as (lo & hi & s & Hget).
    rewrite Hget. cbn [must].
    unfold bind at 2, ret at 1.
    rewrite (bind_bind_run _ _ (choice_run (wrong_values lo hi) 0%Q (skip 2 g)
                                  (wrong_values_nonempty lo hi))).
    unfold bind at 1, ret at 1.
    rewrite skip_skip, word_skip. change (2 + 0) with 2. change (2 + 1) with 3.
    assert (Hr : index_of (word g 0) (len df) < len df) by (apply index_of_lt, Hlen).
    rewrite IH.
    + rewrite at_set_len by exact Hr. rewrite writes_cons, skip_skip.
      unfold write. simpl fst. simpl snd.
      change (length (wrong_values lo hi)) with 5.
      f_equal. f_equal. f_equal. lia.
    + intros _. rewrite at_set_len by exact Hr. exact Hlen.
Qed.

Lemma add_wrong_ranges_run self df rate g :
  NoDup (Dict.keys (column_types self)) -> numeric_cols self <> [] ->
  _add_wrong_ranges self df rate g
  = Some (writes (range_draws self (len df) (draws (len df) rate) g) df,
          skip (3 * draws (len df) rate) g).
Proof.
  intros Hnd Hne. unfold _add_wrong_ranges. apply range_loop; try assumption.
  apply draws_pos.
Qed.

Lemma range_draws_length self n k g : length (range_draws self n k g) = k.
Proof. revert g. induction k; intros g; simpl; auto. Qed.

Lemma range_draws_Forall self n k g :
  NoDup (Dict.keys (column_types self)) -> numeric_cols self <> [] -> 0 < n ->
  Forall (fun w =>
            fst (fst w) < n /\ In (snd (fst w)) (numeric_cols self) /\
            exists lo hi s x,
              Dict.get (snd (fst w)) (column_types self) = Some (numeric lo hi s) /\
              snd w = VNum x /\ In x (wrong_values lo hi))
         (range_draws self n k g).
Proof.
  intros Hnd Hne Hn. revert g. induction k as [|k IH]; intros g; cbn [range_draws].
  - constructor.
  - constructor; [|apply IH]. cbv zeta. cbn [fst snd].
    set (col := nth (index_of (word g 1) (length (numeric_cols self)))
                    (numeric_cols self) EmptyString).
    assert (Hcol : In col (numeric_cols self)).
    { apply nth_In, index_of_lt. destruct (numeric_cols self); [congruence | simpl; lia]. }
    split; [apply index_of_lt, Hn|]. split; [exact Hcol|].
    destruct (numeric_col_info self col Hnd Hcol) as (lo & hi & s & Hget).
    exists lo, hi, s. rewrite Hget. eexists. split; [reflexivity|].
    split; [reflexivity|]. apply nth_In, index_of_lt. simpl. lia.
Qed.

(** Without a numeric column the loop only draws row positions. *)
Lemma range_noop self df rate g :
  numeric_cols self = [] ->
  _add_wrong_ranges self df rate g = Some (df, skip (draws (len df) rate) g).
Proof.
  intros Hno. unfold _add_wrong_ranges. fold (draws (len df) rate).
  rewrite Hno.
  pose proof (@draws_pos (len df) rate) as Hpos.
  generalize dependent (draws (len df) rate). intros k. revert g.
  induction k as [|k IH]; intros g Hpos.
  - simpl. unfold ret. rewrite skip_0. reflexivity.
  - cbn [for_range].
    rewrite (bind_bind_run _ _ (random_row_run df g ltac:(apply Hpos; lia))).
    unfold bind at 1, ret at 1. rewrite IH.
    + rewrite skip_skip. reflexivity.
    + intros _. apply Hpos. lia.
Qed.

Lemma returns_add_wrong_ranges self df rate :
  NoDup (Dict.keys (column_types self)) ->
  returns (_add_wrong_ranges self df rate)
          (written (numeric_cols self)
                   (fun c v => exists lo hi s x,
                        Dict.get c (column_types self) = Some (numeric lo hi s) /\
                        v = VNum x /\ In x (wrong_values lo hi)) df).
Proof.
  intros Hnd g. unfold wp.
  destruct (numeric_cols self) as [|c0 cs] eqn:Ec.
  - rewrite range_noop by exact Ec. apply written_refl.
  - rewrite add_wrong_ranges_run; [|exact Hnd | rewrite Ec; discriminate].
    destruct (draws (len df) rate) as [|k] eqn:Ek.
    + rewrite <- Ec. apply written_refl.
    + exists (range_draws self (len df) (S k) g). split; [reflexivity|].
      rewrite <- Ec. apply range_draws_Forall; [exact Hnd | rewrite Ec; discriminate|].
      apply (@draws_pos (len df) rate). lia.
Qed.

Lemma sure_add_wrong_ranges_len self df rate :
  sure (_add_wrong_ranges self df rate) (fun df' => len df' = len df).
Proof.
  unfold _add_wrong_ranges.
  apply (sure_for_range (fun d => len d = len df)); [reflexivity|].
  intros d Hd. eapply sure_bind; [apply sure_random_row|].
  intros r Hr. destruct (numeric_cols self); [apply sure_ret, Hd|].
  any_result.
  intros c _. any_result.
  intros info _. destruct info; try apply sure_raise.
  any_result.
  intros w _. apply sure_ret. rewrite at_set_len by exact Hr. exact Hd.
Qed.

(** ** Timestamp violation *)

Lemma timestamps_noop self df rate g :
  datetime_cols self = [] -> _add_wrong_timestamps self df rate g = Some (df, g).
Proof. intros H. unfold _add_wrong_timestamps. rewrite H. reflexivity. Qed.

Lemma returns_add_wrong_timestamps self df rate :
  returns (_add_wrong_timestamps self df rate)
          (fun df' => written (datetime_cols self) (fun _ v => In v wrong_dates) df df' /\
                      len df' = len df).
Proof.
  unfold _add_wrong_timestamps. fold (draws (len df) rate).
  destruct (datetime_cols self) as [|c0 cs] eqn:Ec.
  - apply returns_ret. split; [apply written_refl | reflexivity].
  - rewrite <- Ec.
    destruct (draws (len df) rate) as [|k] eqn:Ek.
    + simpl. apply returns_ret. split; [apply written_refl | reflexivity].
    + assert (Hlen : 0 < len df) by (apply (@draws_pos (len df) rate); lia).
      apply (returns_for_range
               (fun d => written (datetime_cols self) (fun _ v => In v wrong_dates) df d /\
                         len d = len df)).
      * split; [apply written_refl | reflexivity].
      * intros d [Hw Hl].
        eapply returns_bind; [apply returns_random_row; lia|].
        intros r Hr. eapply returns_bind;
          [apply returns_choice; rewrite Ec; discriminate|].
        intros c Hc. eapply returns_bind; [apply returns_choice; discriminate|].
        intros w Hw'. apply returns_ret. split.
        -- apply written_step; assumption.
        -- rewrite at_set_len by exact Hr. exact Hl.
Qed.

Lemma sure_add_wrong_timestamps_len self df rate :
  sure (_add_wrong_timestamps self df rate) (fun df' => len df' = len df).
Proof.
  apply sure_returns. eapply returns_mono; [|apply returns_add_wrong_timestamps].
  intros d [_ H]. exact H.
Qed.

(** ** Text corruption *)

Lemma text_noop self df rate g :
  text_cols self = [] -> _add_text_corruption self df rate g = Some (df, g).
Proof. intros H. unfold _add_text_corruption. rewrite H. reflexivity. Qed.

Lemma returns_add_text_corruption self df rate :
  fits self df ->
  returns (_add_text_corruption self df rate)
          (fun df' => written (text_cols self) (fun _ v => exists s, v = VStr s) df df' /\
                      len df' = len df /\ fits self df').
Proof.
  intros Hfit. unfold _add_text_corruption. fold (draws (len df) rate).
  destruct (text_cols self) as [|c0 cs] eqn:Ec.
  - apply returns_ret. split; [apply written_refl | auto].
  - rewrite <- Ec.
    destruct (draws (len df) rate) as [|k] eqn:Ek.
    + simpl. apply returns_ret. split; [apply written_refl | auto].
    + assert (Hlen : 0 < len df) by (apply (@draws_pos (len df) rate); lia).
      apply (returns_for_range
               (fun d => written (text_cols self) (fun _ v => exists s, v = VStr s) df d /\
                         len d = len df /\ fits self d)).
      * split; [apply written_refl | auto].
      * intros d (Hw & Hl & Hfd).
        eapply returns_bind; [apply returns_random_row; lia|].
        intros r Hr. eapply returns_bind;
          [apply returns_choice; rewrite Ec; discriminate|].
        intros c Hc.
        assert (Hcd : In c (columns d)).
        { apply (fits_columns self); [exact Hfd | lia|].
          apply (cols_where_keys is_text_like), Hc. }
        destruct (wf_at_get d r c (proj1 Hfd) Hr Hcd) as (v & Hv).
        rewrite Hv. cbn [must]. eapply returns_bind; [apply returns_ret; exact I|].
        intros original _.
        assert (Hkeep : returns (ret d)
                  (fun df' => written (text_cols self)
                                (fun _ v => exists s, v = VStr s) df df' /\
                              len df' = len df /\ fits self df'))
          by (apply returns_ret; auto).
        destruct original as [| | | |s]; try exact Hkeep.
        destruct (0 <? String.length s); [|exact Hkeep].
        eapply returns_bind; [apply returns_choices; discriminate|].
        intros junk _. eapply returns_bind; [apply returns_choice; discriminate|].
        intros w _. apply returns_ret. split; [|split].
        -- apply written_step; try assumption. eexists. reflexivity.
        -- rewrite at_set_len by exact Hr. exact Hl.
        -- apply at_set_fits; assumption.
Qed.

Lemma sure_add_text_corruption_len self df rate :
  sure (_add_text_corruption self df rate) (fun df' => len df' = len df).
Proof.
  unfold _add_text_corruption. destruct (text_cols self); [apply sure_ret; reflexivity|].
  apply (sure_for_range (fun d => len d = len df)); [reflexivity|].
  intros d Hd. eapply sure_bind; [apply sure_random_row|].
  intros r Hr. any_result.
  intros c _. any_result.
  intros original _. destruct original as [| | | |str]; try (apply sure_ret; exact Hd).
  destruct (0 <? String.length str); [|apply sure_ret; exact Hd].
  any_result.
  intros junk _. any_result.
  intros w _. apply sure_ret. rewrite at_set_len by exact Hr. exact Hd.
Qed.

(** ** Duplication *)

Lemma draw_indices_run n k g :
  (0 < k -> 0 < n) ->
  Random.draw_indices n k g = Some (drawn_positions n k g, skip k g).
Proof.
  unfold drawn_positions. revert g. induction k as [|k IH]; intros g H.
  - simpl. unfold ret. rewrite skip_0. reflexivity.
  - cbn [Random.draw_indices].
    rewrite (bind_run _ (randbelow_run n g ltac:(apply H; lia))).
    rewrite (bind_run _ (IH (skip 1 g) ltac:(intros _; apply H; lia))).
    unfold ret. rewrite skip_skip. f_equal. f_equal.
    cbn [seq map]. f_equal.
    rewrite <- seq_shift, map_map. apply map_ext. intros j.
    rewrite word_skip. reflexivity.
Qed.

Lemma drawn_positions_lt n k g :
  0 < n -> Forall (fun i => i < n) (drawn_positions n k g).
Proof.
  intros Hn. unfold drawn_positions. apply Forall_forall. intros i Hi.
  apply in_map_iff in Hi. destruct Hi as (j & <- & _). apply index_of_lt, Hn.
Qed.

Lemma drawn_positions_length n k g : length (drawn_positions n k g) = k.
Proof. unfold drawn_positions. rewrite length_map, length_seq. reflexivity. Qed.

Lemma np_choice_run n size g :
  (0 <= size)%Z -> ((0 < size)%Z -> 0 < n) ->
  Random.np_choice n size g
  = Some (drawn_positions n (Z.to_nat size) g, skip (Z.to_nat size) g).
Proof.
  intros H0 Hn. unfold Random.np_choice.
  destruct (size <? 0)%Z eqn:E; [apply Z.ltb_lt in E; lia|].
  apply draw_indices_run. lia.
Qed.

Lemma modifications_nonempty s : modifications s <> [].
Proof. discriminate. Qed.

(** One copy, as a function of the words read. *)
Lemma duplicate_of_run self df idx row g :
  nth_error (rows df) idx = Some row ->
  (~ (unit_of (word g 0) < 3 # 10)%Q ->
   duplicate_of self df idx g = Some (row, skip 1 g)) /\
  ((unit_of (word g 0) < 3 # 10)%Q -> text_cols self = [] ->
   duplicate_of self df idx g = Some (row, skip 1 g)) /\
  ((unit_of (word g 0) < 3 # 10)%Q -> text_cols self <> [] ->
   let col := nth (index_of (word g 1) (length (text_cols self)))
                  (text_cols self) EmptyString in
   In col (text_cols self) /\
   (forall s, Dict.get col row = Some (VStr s) ->
      duplicate_of self df idx g
      = Some (Dict.set col
                (VStr (nth (index_of (word g 2) 4) (modifications s) EmptyString)) row,
              skip 3 g)) /\
   (forall v, Dict.get col row = Some v -> is_str v = false ->
      duplicate_of self df idx g = Some (row, skip 2 g)) /\
   (Dict.get col row = None -> duplicate_of self df idx g = None)).
Proof.
  intros Hrow. unfold duplicate_of, iloc. rewrite Hrow. cbn [must].
  rewrite bind_ret_l.
  rewrite (bind_run _ (random_run g)).
  split; [|split].
  - intros Hu. destruct (Qltb (unit_of (word g 0)) (3 # 10)) eqn:E.
    + apply Qltb_lt in E. contradiction.
    + reflexivity.
  - intros Hu Hno. apply Qltb_lt in Hu. rewrite Hu.
    unfold near_duplicate. rewrite Hno. reflexivity.
  - intros Hu Hne.
    apply Qltb_lt in Hu. rewrite Hu.
    unfold near_duplicate. destruct (text_cols self) as [|c0 cs] eqn:Ec; [congruence|].
    rewrite <- Ec in *.
    set (col := nth (index_of (word g 1) (length (text_cols self)))
                    (text_cols self) EmptyString).
    assert (Hcol : In col (text_cols self)).
    { apply nth_In, index_of_lt. rewrite Ec. simpl. lia. }
    split; [exact Hcol|].
    rewrite (bind_run _ (choice_run (text_cols self) EmptyString (skip 1 g) Hne)).
    rewrite skip_skip, word_skip. change (1 + 0) with 1. change (1 + 1) with 2.
    fold col. split; [|split].
    + intros s Hs. rewrite Hs. cbn [must]. rewrite bind_ret_l.
      rewrite (bind_run _ (choice_run (modifications s) EmptyString (skip 2 g)
                             (modifications_nonempty s))).
      rewrite skip_skip, word_skip. reflexivity.
    + intros v Hv Hstr. rewrite Hv. cbn [must]. rewrite bind_ret_l.
      destruct v; try reflexivity. discriminate.
    + intros Hnone. rewrite Hnone. reflexivity.
Qed.

(** One copy of a row of a well-formed table whose columns include the
    text and categorical columns. *)
Lemma returns_duplicate_of self df idx :
  wf df -> incl (text_cols self) (columns df) -> idx < len df ->
  returns (duplicate_of self df idx)
          (fun d => copy_of self df idx d /\ Dict.keys d = columns df).
Proof.
  intros [Hnd Hrows] Hincl Hidx g. unfold wp.
  destruct (nth_error (rows df) idx) as [row|] eqn:Erow;
    [|apply nth_error_None in Erow; unfold len in Hidx; lia].
  assert (Hkeys : Dict.keys row = columns df).
  { rewrite Forall_forall in Hrows. apply Hrows. eapply nth_error_In, Erow. }
  destruct (duplicate_of_run self df idx row g Erow) as (Hge & Hno & Hlt).
  assert (Hsame : copy_of self df idx row /\ Dict.keys row = columns df).
  { split; [|exact Hkeys]. exists row. auto. }
  destruct (Qltb (unit_of (word g 0)) (3 # 10)) eqn:E.
  - apply Qltb_lt in E. destruct (text_cols self) as [|c0 cs] eqn:Ec.
    + rewrite (Hno E eq_refl). exact Hsame.
    + rewrite <- Ec in *.
      destruct (Hlt E ltac:(rewrite Ec; discriminate)) as (Hcol & Hs & Hv & _).
      set (col := nth (index_of (word g 1) (length (text_cols self)))
                      (text_cols self) EmptyString) in *.
      destruct (get_key col row) as (v & Hget).
      { rewrite Hkeys. apply Hincl, Hcol. }
      destruct v as [| | | |s];
        try (rewrite (Hv _ Hget eq_refl); exact Hsame).
      rewrite (Hs s Hget). split.
      * exists row. split; [exact Erow|]. right.
        exists col, s, (nth (index_of (word g 2) 4) (modifications s) EmptyString).
        split; [exact Hcol|]. split; [exact Hget|]. split; [|reflexivity].
        apply nth_In, index_of_lt. simpl. lia.
      * rewrite keys_set_present; [exact Hkeys|].
        rewrite Hkeys. apply Hincl, Hcol.
  - rewrite Hge; [exact Hsame|]. intros Hlt'. apply Qltb_lt in Hlt'. congruence.
Qed.

Lemma returns_duplicates_of self df idxs :
  wf df -> incl (text_cols self) (columns df) ->
  Forall (fun i => i < len df) idxs ->
  returns (duplicates_of self df idxs)
          (fun ds => Forall2 (copy_of self df) idxs ds /\
                     Forall (fun d => Dict.keys d = columns df) ds).
Proof.
  intros Hwf Hincl H. induction H as [|idx idxs Hidx _ IH]; cbn [duplicates_of].
  - apply returns_ret. split; constructor.
  - eapply returns_bind; [apply returns_duplicate_of; assumption|].
    intros d [Hd Hk]. eapply returns_bind; [apply IH|].
    intros ds [Hds Hks]. apply returns_ret. split; constructor; assumption.
Qed.

(** Appending rows that have the columns of the table. *)
Lemma concat_rows df ds :
  wf df -> Forall (fun d => Dict.keys d = columns df) ds ->
  concat df (DataFrame_of ds) = {| columns := columns df; rows := rows df ++ ds |}.
Proof.
  intros [Hnd Hrows] Hds. unfold concat.
  assert (Hcols : union (columns df) (columns (DataFrame_of ds)) = columns df).
  { destruct ds as [|d ds'].
    - reflexivity.
    - replace (DataFrame_of (d :: ds'))
        with {| columns := columns df; rows := d :: ds' |}
        by (symmetry; apply DataFrame_of_uniform; assumption).
      simpl. apply union_incl, incl_refl. }
  rewrite Hcols. f_equal.
  assert (Hrs : rows (DataFrame_of ds) = ds).
  { destruct ds as [|d ds'].
    - reflexivity.
    - replace (DataFrame_of (d :: ds'))
        with {| columns := columns df; rows := d :: ds' |}
        by (symmetry; apply DataFrame_of_uniform; assumption).
      reflexivity. }
  rewrite Hrs. apply map_reindex_id; [exact Hnd|].
  apply Forall_app. split; assumption.
Qed.

Lemma fits_text_cols self df :
  fits self df -> 0 < len df -> incl (text_cols self) (columns df).
Proof.
  intros Hfit Hlen c Hc. apply (fits_columns self); [exact Hfit | exact Hlen|].
  apply (cols_where_keys is_text_like), Hc.
Qed.

(** The duplication pass on a table that fits the generator, for a rate
    >= 0: the table followed by one copy per drawn position. *)
Lemma add_smart_duplicates_wp self df rate g :
  fits self df -> (0 <= rate)%Q ->
  wp (_add_smart_duplicates self df rate)
     (fun df' _ =>
        exists ds,
          df' = {| columns := columns df; rows := rows df ++ ds |} /\
          Forall2 (copy_of self df) (drawn_positions (len df) (draws (len df) rate) g) ds /\
          Forall (fun d => Dict.keys d = columns df) ds) g.
Proof.
  intros Hfit Hrate. unfold _add_smart_duplicates. fold (draws (len df) rate).
  assert (Hk : (0 <= py_int (Qnat (len df) * rate))%Z)
    by (apply py_int_nonneg, Qnat_rate_nonneg, Hrate).
  unfold wp.
  rewrite (bind_run _ (np_choice_run (len df) _ g Hk
                         ltac:(intros Hp; pose proof (@draws_pos (len df) rate);
                               unfold draws in *; lia))).
  fold (draws (len df) rate).
  set (idxs := drawn_positions (len df) (draws (len df) rate) g).
  destruct (draws (len df) rate) as [|k] eqn:Ek.
  - unfold idxs, drawn_positions. simpl. unfold ret.
    exists []. rewrite concat_rows by (try apply Hfit; constructor).
    split; [reflexivity|]. split; constructor.
  - assert (Hlen : 0 < len df) by (apply (@draws_pos (len df) rate); lia).
    pose proof (returns_duplicates_of self df idxs (proj1 Hfit)
                  (fits_text_cols self df Hfit Hlen)
                  (drawn_positions_lt (len df) (S k) g Hlen)
                  (skip (S k) g)) as Hd.
    unfold wp in Hd.
    destruct (duplicates_of self df idxs (skip (S k) g)) as [[ds g']|] eqn:E;
      [|contradiction].
    rewrite (bind_run _ E). unfold ret.
    destruct Hd as [Hc Hkeys]. exists ds.
    rewrite concat_rows by (try apply Hfit; exact Hkeys). auto.
Qed.

Lemma returns_add_smart_duplicates self df rate :
  fits self df -> (0 <= rate)%Q ->
  returns (_add_smart_duplicates self df rate)
          (fun df' => len df' = len df + draws (len df) rate /\
                      columns df' = columns df /\ fits self df' /\
                      exists ds, rows df' = rows df ++ ds).
Proof.
  intros Hfit Hrate g. eapply wp_mono; [|apply add_smart_duplicates_wp; assumption].
  intros df' _ (ds & -> & Hc & Hkeys). cbv beta.
  assert (Hl : length ds = draws (len df) rate).
  { rewrite <- (Forall2_length Hc). apply drawn_positions_length. }
  assert (Hlen' : len {| columns := columns df; rows := rows df ++ ds |}
                  = len df + draws (len df) rate).
  { unfold len. simpl. rewrite length_app, Hl. reflexivity. }
  split; [exact Hlen'|]. split; [reflexivity|]. split; [|simpl; eauto].
  destruct Hfit as ((Hnd & Hrows) & Hk & Hcols).
  split; [split; simpl; [exact Hnd | apply Forall_app; auto]|].
  split; [exact Hk|].
  destruct Hcols as [H0|Hc']; [|right; exact Hc'].
  left. rewrite Hlen', H0, draws_zero_rows. reflexivity.
Qed.

(** ** The shuffle *)

Lemma remove_nth_perm {A} i (l : list A) d :
  i < length l -> Permutation l (nth i l d :: Random.remove_nth i l).
Proof.
  revert i. induction l as [|x l IH]; intros [|i] H; simpl in *; try lia.
  - apply Permutation_refl.
  - eapply Permutation_trans; [apply perm_skip, (IH i); lia|].
    apply perm_swap.
Qed.

Lemma remove_nth_length {A} i (l : list A) :
  i < length l -> length (Random.remove_nth i l) = length l - 1.
Proof.
  revert i. induction l as [|x l IH]; intros [|i] H; simpl in *; try lia.
  rewrite IH by lia. lia.
Qed.

Lemma returns_permute {A} n (l : list A) :
  length l = n -> returns (Random.permute n l) (fun l' => Permutation l l').
Proof.
  revert l. induction n as [|n IH]; intros l Hl.
  - destruct l; [|discriminate]. simpl. apply returns_ret. constructor.
  - destruct l as [|d t]; [discriminate|].
    cbn [Random.permute]. set (l := d :: t) in *.
    assert (Hpos : 0 < length l) by lia.
    eapply returns_bind; [apply returns_randbelow; exact Hpos|].
    intros i Hi. eapply returns_bind.
    + apply IH. rewrite remove_nth_length by exact Hi. lia.
    + intros rest Hrest. apply returns_ret.
      eapply Permutation_trans; [apply (remove_nth_perm i l d Hi)|].
      apply perm_skip, Hrest.
Qed.

Lemma returns_sample_frac1 df :
  returns (sample_frac1 df)
          (fun df' => columns df' = columns df /\ Permutation (rows df) (rows df')).
Proof.
  unfold sample_frac1, Random.shuffle.
  eapply returns_bind; [apply returns_permute; reflexivity|].
  intros rs Hrs. apply returns_ret. simpl. auto.
Qed.

(** ** The pipeline *)

Lemma written_fits_keys self cols P df df' :
  fits self df -> incl cols (Dict.keys (column_types self)) ->
  written cols P df df' ->
  fits self df' /\ len df' = len df /\ columns df' = columns df.
Proof.
  intros Hfit Hincl Hw.
  destruct (Nat.eq_dec (len df) 0) as [H0|Hn].
  - destruct Hw as (ws & -> & Hws). destruct ws as [|w ws].
    + simpl. auto.
    + inversion Hws as [|? ? (Hr & _) _]; subst. lia.
  - apply (written_fits self cols P); try assumption.
    destruct Hfit as (_ & _ & [H0|Hc]); [lia|]. rewrite Hc. exact Hincl.
Qed.

(** The five passes in order, on a table that fits the generator. *)
Lemma returns_introduce_messiness self df rates :
  fits self df -> (0 <= duplicate_rate rates)%Q ->
  returns (_introduce_messiness self df rates)
          (fun out => len out = len df + draws (len df) (duplicate_rate rates) /\
                      columns out = columns df /\ fits self out).
Proof.
  intros Hfit Hrate. unfold _introduce_messiness. cbv zeta.
  eapply returns_bind; [apply returns_add_smart_duplicates; assumption|].
  intros d1 (Hl1 & Hc1 & Hf1 & _).
  eapply returns_bind; [apply returns_add_strategic_nulls, Hf1|].
  intros d2 Hw2.
  destruct (written_fits_keys self _ _ d1 d2 Hf1 (incl_refl _) Hw2) as (Hf2 & Hl2 & Hc2).
  eapply returns_bind; [apply returns_add_wrong_ranges, Hf2|].
  intros d3 Hw3.
  destruct (written_fits_keys self _ _ d2 d3 Hf2
              (fun c => cols_where_keys is_numeric self c) Hw3) as (Hf3 & Hl3 & Hc3).
  eapply returns_bind; [apply returns_add_wrong_timestamps|].
  intros d4 (Hw4 & _).
  destruct (written_fits_keys self _ _ d3 d4 Hf3
              (fun c => cols_where_keys is_datetime self c) Hw4) as (Hf4 & Hl4 & Hc4).
  eapply returns_bind; [apply returns_add_text_corruption, Hf4|].
  intros d5 (Hw5 & Hl5 & Hf5).
  destruct (written_fits_keys self _ _ d4 d5 Hf4
              (fun c => cols_where_keys is_text_like self c) Hw5) as (_ & _ & Hc5).
  apply returns_ret. split; [lia|]. split; [congruence | exact Hf5].
Qed.

Lemma returns_generate_messy_data self target_rows rates :
  profiled self -> (0 <= duplicate_rate rates)%Q ->
  returns (generate_messy_data self target_rows rates)
          (fun out =>
             len out = Z.to_nat target_rows
                       + draws (Z.to_nat target_rows) (duplicate_rate rates) /\
             columns out = (if (0 <? target_rows)%Z
                            then Dict.keys (column_types self) else [])).
Proof.
  intros Hp Hrate. unfold generate_messy_data.
  eapply returns_bind; [apply returns_expand_data, Hp|].
  intros d0 (Hl0 & _ & Hc0 & Hf0).
  eapply returns_bind; [apply returns_introduce_messiness; assumption|].
  intros d1 (Hl1 & Hc1 & _).
  eapply returns_bind; [apply returns_sample_frac1|].
  intros d2 (Hc2 & Hperm). apply returns_ret. split.
  - unfold len in *. rewrite <- (Permutation_length Hperm). rewrite Hl1, Hl0.
    reflexivity.
  - congruence.
Qed.

Lemma Qnat_to_nat z : (0 <= z)%Z -> Qnat (Z.to_nat z) = inject_Z z.
Proof. intros H. unfold Qnat. rewrite Z2Nat.id by exact H. reflexivity. Qed.

(** No numeric dtype in the sample, no numeric profile; likewise for the
    other kinds. *)
Lemma no_kind_cols (p : col_info -> bool) s :
  (forall col c, In (col, c) s -> p (analyze_column c) = false) ->
  cols_where p (generator s) = [].
Proof.
  intros H. unfold cols_where. simpl.
  assert (Hall : forall acc,
             Forall (fun kv => p (snd kv) = false) acc ->
             Forall (fun kv => p (snd kv) = false)
               (fold_left (fun column_info '(col, c) =>
                             Dict.set col (analyze_column c) column_info) s acc)).
  { induction s as [|[col c] s IH]; intros acc Hacc; simpl; [exact Hacc|].
    apply IH.
    - intros col' c' Hin. apply (H col' c'). right. exact Hin.
    - assert (Hc : p (analyze_column c) = false) by (apply (H col c); left; reflexivity).
      clear - Hacc Hc. induction acc as [|[k v] acc IHa]; simpl.
      + constructor; [exact Hc | constructor].
      + inversion Hacc; subst. destruct (String.eqb col k); constructor; auto. }
  specialize (Hall [] (Forall_nil _)). unfold _analyze_columns.
  induction Hall as [|[k v] l Hk _ IH]; simpl; [reflexivity|].
  simpl in Hk. rewrite Hk. exact IH.
Qed.

(** C8.  Whatever the input table and the rate: when the sample has no
    column of a numeric dtype, the range-violation pass returns its input
    table; when it has no column of a datetime dtype, the
    timestamp-violation pass returns its input table; when it has no column
    of the object dtype, so that no column is text or categorical, the
    text-corruption pass returns its input table.  None of them raises. *)
Theorem C8_absent_kind_noop (s : Sample) (df : DataFrame) (rate : Q) (g : rng) :
  ((forall col c, In (col, c) s -> forall cells, c <> NumericColumn cells) ->
   exists g', _add_wrong_ranges (generator s) df rate g = Some (df, g')) /\
  ((forall col c, In (col, c) s -> forall cells, c <> DatetimeColumn cells) ->
   exists g', _add_wrong_timestamps (generator s) df rate g = Some (df, g')) /\
  ((forall col c, In (col, c) s -> forall cells, c <> ObjectColumn cells) ->
   exists g', _add_text_corruption (generator s) df rate g = Some (df, g')) /\
  (numeric_cols (generator s) = [] ->
   exists g', _add_wrong_ranges (generator s) df rate g = Some (df, g')) /\
  (datetime_cols (generator s) = [] ->
   exists g', _add_wrong_timestamps (generator s) df rate g = Some (df, g')) /\
  (text_cols (generator s) = [] ->
   exists g', _add_text_corruption (generator s) df rate g = Some (df, g')).
Proof.
  assert (Hr : numeric_cols (generator s) = [] ->
               exists g', _add_wrong_ranges (generator s) df rate g = Some (df, g')).
  { intros H. eexists. apply range_noop, H. }
  assert (Ht : datetime_cols (generator s) = [] ->
               exists g', _add_wrong_timestamps (generator s) df rate g = Some (df, g')).
  { intros H. eexists. apply timestamps_noop, H. }
  assert (Hx : text_cols (generator s) = [] ->
               exists g', _add_text_corruption (generator s) df rate g = Some (df, g')).
  { intros H. eexists. apply text_noop, H. }
  split; [|split; [|split; [|auto]]].
  - intros H. apply Hr. apply (no_kind_cols is_numeric).
    intros col c Hin. specialize (H col c Hin).
    destruct c as [cells|cells|cells]; simpl.
    + exfalso. exact (H cells eq_refl).
    + destruct (dropna_cells cells); reflexivity.
    + destruct (dropna cells); [reflexivity|]. destruct (Qltb _ _); reflexivity.
  - intros H. apply Ht. apply (no_kind_cols is_datetime).
    intros col c Hin. specialize (H col c Hin).
    destruct c as [cells|cells|cells]; simpl.
    + destruct (dropna_cells cells); reflexivity.
    + exfalso. exact (H cells eq_refl).
    + destruct (dropna cells); [reflexivity|]. destruct (Qltb _ _); reflexivity.
  - intros H. apply Hx. apply (no_kind_cols is_text_like).
    intros col c Hin. specialize (H col c Hin).
    destruct c as [cells|cells|cells]; simpl.
    + destruct (dropna_cells cells); reflexivity.
    + destruct (dropna_cells cells); reflexivity.
    + exfalso. exact (H cells eq_refl).
Qed.

Lemma C8_witness :
  (exists g', _add_wrong_ranges (generator sample_notes) table_ids 1 (entropy [])
              = Some (table_ids, g')) /\
  (exists g', _add_wrong_timestamps (generator sample_notes) table_ids 1 (entropy [])
              = Some (table_ids, g')) /\
  (exists g', _add_text_corruption (generator sample_ids) table_ids 1 (entropy [])
              = Some (table_ids, g')).
Proof.
  destruct (C8_absent_kind_noop sample_notes table_ids 1 (entropy []))
    as (Hr & Ht & _).
  destruct (C8_absent_kind_noop sample_ids table_ids 1 (entropy []))
    as (_ & _ & Hx & _).
  split; [|split].
  - apply Hr. intros col c [E|[]] cells. inversion E; subst. discriminate.
  - apply Ht. intros col c [E|[]] cells. inversion E; subst. discriminate.
  - apply Hx. intros col c [E|[]] cells. inversion E; subst. discriminate.
Defined.

Lemma returns_nulls_len self df rate :
  fits self df ->
  returns (_add_strategic_nulls self df rate) (fun df' => len df' = len df).
Proof.
  intros Hfit. eapply returns_mono; [|apply returns_add_strategic_nulls, Hfit].
  intros d Hw. apply (written_fits_keys self _ _ df d Hfit (incl_refl _) Hw).
Qed.

Lemma returns_ranges_len self df rate :
  fits self df ->
  returns (_add_wrong_ranges self df rate) (fun df' => len df' = len df).
Proof.
  intros Hfit. eapply returns_mono; [|apply returns_add_wrong_ranges, Hfit].
  intros d Hw.
  apply (written_fits_keys self _ _ df d Hfit
           (fun c => cols_where_keys is_numeric self c) Hw).
Qed.

Lemma returns_timestamps_len self df rate :
  returns (_add_wrong_timestamps self df rate) (fun df' => len df' = len df).
Proof.
  eapply returns_mono; [|apply returns_add_wrong_timestamps].
  intros d [_ H]. exact H.
Qed.

Lemma returns_text_len self df rate :
  fits self df ->
  returns (_add_text_corruption self df rate) (fun df' => len df' = len df).
Proof.
  intros Hfit. eapply returns_mono; [|apply returns_add_text_corruption, Hfit].
  intros d (_ & H & _). exact H.
Qed.

Lemma returns_shuffle_len df :
  returns (sample_frac1 df) (fun df' => len df' = len df).
Proof.
  eapply returns_mono; [|apply returns_sample_frac1].
  intros d [_ H]. unfold len. symmetry. apply Permutation_length, H.
Qed.



(** The stages of [_introduce_messiness] on a table that fits the
    generator: passes 2 to 5 work on tables that have the row count that
    the duplication pass leaves. *)
Lemma introduce_messiness_stages self df rates g :
  fits self df -> (0 <= duplicate_rate rates)%Q ->
  exists d1 g1 d2 g2 d3 g3 d4 g4 out g5,
    _add_smart_duplicates self df (duplicate_rate rates) g = Some (d1, g1) /\
    _add_strategic_nulls self d1 (null_rate rates) g1 = Some (d2, g2) /\
    _add_wrong_ranges self d2 (wrong_range_rate rates) g2 = Some (d3, g3) /\
    _add_wrong_timestamps self d3 (wrong_timestamp_rate rates) g3 = Some (d4, g4) /\
    _add_text_corruption self d4 (text_corruption_rate rates) g4 = Some (out, g5) /\
    _introduce_messiness self df rates g = Some (out, g5) /\
    len d1 = len df + draws (len df) (duplicate_rate rates) /\
    len d2 = len d1 /\ len d3 = len d1 /\ len d4 = len d1 /\ len out = len d1 /\
    columns d1 = columns df /\ columns d2 = columns df /\ columns d3 = columns df /\
    columns d4 = columns df /\ columns out = columns df.
Proof.
  intros Hfit Hrate.
  pose proof (returns_add_smart_duplicates self df _ Hfit Hrate g) as H1.
  apply wp_some in H1. destruct H1 as (d1 & g1 & E1 & Hl1 & Hc1 & Hf1 & _).
  pose proof (returns_add_strategic_nulls self d1 (null_rate rates) Hf1 g1) as H2.
  apply wp_some in H2. destruct H2 as (d2 & g2 & E2 & Hw2).
  destruct (written_fits_keys self _ _ d1 d2 Hf1 (incl_refl _) Hw2) as (Hf2 & Hl2 & Hc2).
  pose proof (returns_add_wrong_ranges self d2 (wrong_range_rate rates)
                (proj1 (proj2 Hf2)) g2) as H3.
  apply wp_some in H3. destruct H3 as (d3 & g3 & E3 & Hw3).
  destruct (written_fits_keys self _ _ d2 d3 Hf2
              (fun c => cols_where_keys is_numeric self c) Hw3) as (Hf3 & Hl3 & Hc3).
  pose proof (returns_add_wrong_timestamps self d3 (wrong_timestamp_rate rates) g3) as H4.
  apply wp_some in H4. destruct H4 as (d4 & g4 & E4 & Hw4 & _).
  destruct (written_fits_keys self _ _ d3 d4 Hf3
              (fun c => cols_where_keys is_datetime self c) Hw4) as (Hf4 & Hl4 & Hc4).
  pose proof (returns_add_text_corruption self d4 (text_corruption_rate rates) Hf4 g4) as H5.
  apply wp_some in H5. destruct H5 as (d5 & g5 & E5 & Hw5 & Hl5 & _).
  destruct (written_fits_keys self _ _ d4 d5 Hf4
              (fun c => cols_where_keys is_text_like self c) Hw5) as (_ & _ & Hc5).
  exists d1, g1, d2, g2, d3, g3, d4, g4, d5, g5.
  repeat (split; [first [assumption | congruence]|]).
  split.
  { unfold _introduce_messiness. cbv zeta.
    rewrite (bind_run _ E1), (bind_run _ E2), (bind_run _ E3), (bind_run _ E4),
      (bind_run _ E5). reflexivity. }
  repeat (split; [first [assumption | congruence]|]). congruence.
Qed.



Lemma table_names_fits : fits (generator sample_names) table_names.
Proof.
  split; [split|split].
  - repeat constructor. simpl. tauto.
  - repeat constructor.
  - repeat constructor. simpl. tauto.
  - right. reflexivity.
Qed.


(** ** Cells of the tables of a run *)

Lemma set_Forall (P : value -> Prop) c v (row : Row) :
  P v -> Forall (fun cell => P (snd cell)) row ->
  Forall (fun cell => P (snd cell)) (Dict.set c v row).
Proof.
  intros Hv H. induction H as [|[k x] row Hx Hrow IH]; simpl.
  - repeat constructor. exact Hv.
  - destruct (String.eqb c k); constructor; auto.
Qed.

Lemma cells_all_writes (P : value -> Prop) cols ws df :
  wf df -> incl cols (columns df) ->
  Forall (fun w => fst (fst w) < len df /\ In (snd (fst w)) cols /\ P (snd w)) ws ->
  cells_all P df -> cells_all P (writes ws df).
Proof.
  revert df. induction ws as [|[[r c] v] ws IH]; intros df Hwf Hincl H Hall.
  - exact Hall.
  - inversion H as [|? ? (Hr & Hc & Hv) Hws]; subst. simpl in Hr, Hc, Hv.
    rewrite writes_cons. unfold write. cbn [fst snd].
    assert (Hc' : In c (columns df)) by (apply Hincl, Hc).
    apply IH.
    + apply at_set_wf; assumption.
    + rewrite at_set_present by assumption. exact Hincl.
    + rewrite at_set_len by exact Hr. exact Hws.
    + rewrite at_set_present by assumption. unfold cells_all. simpl.
      apply update_nth_Forall; [|exact Hall].
      intros row Hrow. apply set_Forall; assumption.
Qed.

Lemma cells_all_written (P : value -> Prop) cols (R : string -> value -> Prop) df df' :
  wf df -> incl cols (columns df) -> (forall c v, In c cols -> R c v -> P v) ->
  written cols R df df' -> cells_all P df -> cells_all P df'.
Proof.
  intros Hwf Hincl HR (ws & -> & Hws) Hall.
  apply (cells_all_writes P cols); try assumption.
  eapply Forall_impl; [|exact Hws].
  intros w (H1 & H2 & H3). split; [exact H1|]. split; [exact H2|].
  apply (HR (snd (fst w))); assumption.
Qed.

Lemma cells_all_perm (P : value -> Prop) cols rs rs' :
  Permutation rs rs' ->
  cells_all P {| columns := cols; rows := rs |} ->
  cells_all P {| columns := cols; rows := rs' |}.
Proof.
  unfold cells_all. simpl. intros Hp H.
  apply Forall_forall. intros row Hrow. rewrite Forall_forall in H.
  apply H. eapply Permutation_in; [apply Permutation_sym, Hp | exact Hrow].
Qed.

(** The cells of an expanded row are synthesized from the profiles. *)
Lemma row_similar_cells (P : value -> Prop) self r :
  (forall col info v, In (col, info) (column_types self) -> similar_to info v -> P v) ->
  row_similar self r -> Forall (fun cell => P (snd cell)) r.
Proof.
  intros HP H. unfold row_similar in H.
  induction H as [|[col info] [k v] items cells [_ Hs] _ IH]; constructor.
  - simpl in *. apply (HP col info); [left; reflexivity | exact Hs].
  - apply IH. intros col' info' v' Hin. apply (HP col' info'). right. exact Hin.
Qed.

(** With all rates zero the five passes return their input table. *)
Lemma duplicates_zero self df g :
  wf df -> _add_smart_duplicates self df 0 g = Some (df, g).
Proof.
  intros Hwf. unfold _add_smart_duplicates. fold (draws (len df) 0).
  assert (E : py_int (Qnat (len df) * 0) = 0%Z).
  { pose proof (draws_zero_rate (len df)) as H. unfold draws in H.
    pose proof (py_int_nonneg (Qnat (len df) * 0)
                  (Qnat_rate_nonneg (len df) 0 ltac:(discriminate))). lia. }
  rewrite E. change (Random.np_choice (len df) 0) with (@ret (list nat) []).
  rewrite bind_ret_l. cbn [duplicates_of]. rewrite bind_ret_l. cbv zeta.
  unfold ret. rewrite concat_rows by (try exact Hwf; constructor).
  rewrite app_nil_r. destruct df. reflexivity.
Qed.

Lemma nulls_zero self df g : _add_strategic_nulls self df 0 g = Some (df, g).
Proof.
  unfold _add_strategic_nulls. fold (draws (fst (shape df) * snd (shape df)) 0).
  rewrite draws_zero_rate. reflexivity.
Qed.

Lemma ranges_zero self df g : _add_wrong_ranges self df 0 g = Some (df, g).
Proof.
  unfold _add_wrong_ranges. fold (draws (len df) 0).
  rewrite draws_zero_rate. reflexivity.
Qed.

Lemma timestamps_zero self df g : _add_wrong_timestamps self df 0 g = Some (df, g).
Proof.
  unfold _add_wrong_timestamps. fold (draws (len df) 0).
  rewrite draws_zero_rate. destruct (datetime_cols self); reflexivity.
Qed.

Lemma text_zero self df g : _add_text_corruption self df 0 g = Some (df, g).
Proof.
  unfold _add_text_corruption. fold (draws (len df) 0).
  rewrite draws_zero_rate. destruct (text_cols self); reflexivity.
Qed.

Lemma introduce_messiness_zero self df g :
  wf df -> _introduce_messiness self df zero_rates g = Some (df, g).
Proof.
  intros Hwf. unfold _introduce_messiness. cbv zeta. simpl.
  rewrite (bind_run _ (duplicates_zero self df g Hwf)).
  rewrite (bind_run _ (nulls_zero self df g)).
  rewrite (bind_run _ (ranges_zero self df g)).
  rewrite (bind_run _ (timestamps_zero self df g)).
  rewrite (bind_run _ (text_zero self df g)). reflexivity.
Qed.

(** ** The scenario with range violations only *)

Lemma introduce_messiness_range_only self df g :
  wf df ->
  _introduce_messiness self df range_rates g = _add_wrong_ranges self df 1 g.
Proof.
  intros Hwf. unfold _introduce_messiness. cbv zeta. simpl.
  rewrite (bind_run _ (duplicates_zero self df g Hwf)).
  rewrite (bind_run _ (nulls_zero self df g)).
  unfold bind at 1. destruct (_add_wrong_ranges self df 1 g) as [[d g']|]; [|reflexivity].
  rewrite (bind_run _ (timestamps_zero self d g')).
  rewrite (bind_run _ (text_zero self d g')). reflexivity.
Qed.

Lemma scenario_profile :
  column_types (generator sample_ids)
  = [("id"%string, numeric (10 # 1) (20 # 1) [VNum (10 # 1); VNum (20 # 1)])].
Proof. reflexivity. Qed.

Lemma scenario_runs h :
  exists out h',
    generate_messy_data (generator sample_ids) 10 range_rates h = Some (out, h') /\
    len out = 10 /\ columns out = ["id"%string] /\ cells_all scenario_cell out.
Proof.
  pose proof (returns_expand_data (generator sample_ids) 10
                (generator_profiled sample_ids) h) as H0.
  apply wp_some in H0. destruct H0 as (d0 & h0 & E0 & Hl0 & Hrows0 & Hc0 & Hf0).
  simpl in Hc0.
  assert (Hall0 : cells_all scenario_cell d0).
  { unfold cells_all. eapply Forall_impl; [|exact Hrows0].
    intros r Hr. apply (row_similar_cells scenario_cell (generator sample_ids)); [|exact Hr].
    intros col info v Hin Hs. rewrite scenario_profile in Hin.
    destruct Hin as [E|[]]. inversion E; subst. simpl in Hs.
    destruct Hs as (x & -> & Hx). exists x. auto. }
  pose proof (returns_add_wrong_ranges (generator sample_ids) d0 1
                (proj1 (generator_profiled sample_ids)) h0) as H1.
  apply wp_some in H1. destruct H1 as (d1 & h1 & E1 & Hw1).
  destruct (written_fits_keys (generator sample_ids) _ _ d0 d1 Hf0
              (fun c => cols_where_keys is_numeric (generator sample_ids) c) Hw1)
    as (Hf1 & Hl1 & Hc1).
  assert (Hall1 : cells_all scenario_cell d1).
  { apply (cells_all_written scenario_cell (numeric_cols (generator sample_ids))
             (fun c v => exists lo hi s x,
                  Dict.get c (column_types (generator sample_ids))
                  = Some (numeric lo hi s) /\
                  v = VNum x /\ In x (wrong_values lo hi)) d0 d1);
      try assumption.
    - apply Hf0.
    - rewrite Hc0. intros c Hc. exact Hc.
    - intros c v Hc (lo & hi & s & x & Hget & -> & Hx).
      destruct Hc as [<-|[]]. inversion Hget; subst. exists x. auto. }
  pose proof (returns_sample_frac1 d1 h1) as H2.
  apply wp_some in H2. destruct H2 as (d2 & h2 & E2 & Hc2 & Hperm).
  exists d2, h2. split.
  { unfold generate_messy_data. rewrite (bind_run _ E0).
    rewrite (bind_run _ (eq_trans (introduce_messiness_range_only _ d0 h0 (proj1 Hf0)) E1)).
    rewrite (bind_run _ E2). reflexivity. }
  split.
  { unfold len in *. rewrite <- (Permutation_length Hperm). lia. }
  split; [congruence|].
  destruct d1 as [c1 r1], d2 as [c2 r2]. simpl in *. subst c2.
  apply (cells_all_perm scenario_cell c1 r1 r2 Hperm Hall1).
Qed.

Lemma wrong_values_shape lo hi :
  exists low high edge,
    wrong_values lo hi = [ low; high; - (999999 # 1); 999999 # 1; edge ]%Q /\
    (low == lo - Qabs (hi - lo) /\ low <= lo)%Q /\
    (high == hi + Qabs (hi - lo) /\ hi <= high)%Q /\
    ((0 < lo)%Q -> edge = 0%Q) /\ (~ (0 < lo)%Q -> edge = (- (1 # 1))%Q).
Proof.
  do 3 eexists. split; [reflexivity|].
  pose proof (Qabs_nonneg (hi - lo)) as Habs.
  set (d := Qabs (hi - lo)) in *. clearbody d.
  split; [split; [reflexivity | lra]|].
  split; [split; [reflexivity | lra]|].
  split.
  - intros H. apply Qltb_lt in H. rewrite H. reflexivity.
  - intros H. destruct (Qltb 0 lo) eqn:E; [|reflexivity].
    apply Qltb_lt in E. contradiction.
Qed.




(** ** The scenario with all rates zero *)

Lemma people_profile :
  column_types (generator sample_people)
  = [ ("id"%string, numeric (1 # 1) (5 # 1) [VNum (1 # 1); VNum (5 # 1)]);
      ("name"%string, text [VStr "Alice"; VStr "Bob"] [VStr "Alice"; VStr "Bob"]);
      ("joined"%string,
       datetime date_2020_01_01 date_2020_06_01
                [VTime date_2020_01_01; VTime date_2020_06_01]) ].
Proof. reflexivity. Qed.

Lemma people_row_similar r :
  row_similar (generator sample_people) r -> person_row r.
Proof.
  unfold row_similar. rewrite people_profile. intros H.
  inversion H as [|? [k1 v1] ? r1 [E1 S1] H1]; subst. clear H.
  inversion H1 as [|? [k2 v2] ? r2 [E2 S2] H2]; subst. clear H1.
  inversion H2 as [|? [k3 v3] ? r3 [E3 S3] H3]; subst. clear H2.
  inversion H3; subst. clear H3. simpl in *. subst k1 k2 k3.
  destruct S1 as (x & -> & Hx). destruct S3 as (t & -> & Ht).
  assert (Hs : exists s, v2 = VStr s).
  { destruct S2 as [[<-|[<-|[]]]|Hs]; eauto. }
  destruct Hs as (s & ->). exists x, s, t. auto.
Qed.

Lemma person_rows_no_null cols rs :
  Forall person_row rs -> null_count {| columns := cols; rows := rs |} = 0.
Proof.
  intros H. rewrite null_count_rows. induction H as [|r rs Hr _ IH]; simpl.
  - reflexivity.
  - rewrite IH. destruct Hr as (x & s & t & -> & _). reflexivity.
Qed.

Lemma people_runs g :
  exists out g',
    generate_messy_data (generator sample_people) 100 zero_rates g = Some (out, g') /\
    len out = 100 /\ null_count out = 0 /\ Forall person_row (rows out).
Proof.
  pose proof (returns_expand_data (generator sample_people) 100
                (generator_profiled sample_people) g) as H0.
  apply wp_some in H0. destruct H0 as (d0 & g0 & E0 & Hl0 & Hrows0 & _ & Hf0).
  pose proof (returns_sample_frac1 d0 g0) as H2.
  apply wp_some in H2. destruct H2 as (d2 & g2 & E2 & Hc2 & Hperm).
  assert (Hrows2 : Forall person_row (rows d2)).
  { apply Forall_forall. intros r Hr. apply people_row_similar.
    rewrite Forall_forall in Hrows0. apply Hrows0.
    eapply Permutation_in; [apply Permutation_sym, Hperm | exact Hr]. }
  exists d2, g2. split.
  { unfold generate_messy_data. rewrite (bind_run _ E0).
    rewrite (bind_run _ (introduce_messiness_zero _ d0 g0 (proj1 Hf0))).
    rewrite (bind_run _ E2). reflexivity. }
  split.
  { unfold len in *. rewrite <- (Permutation_length Hperm). lia. }
  split; [|exact Hrows2].
  destruct d2 as [c2 r2]. apply person_rows_no_null. exact Hrows2.
Qed.

(** C9, as stated, fails: with all rates zero no duplicate is added, but
    the expansion itself resamples the same few values and can synthesize
    the same row twice.  In this run all 100 rows are equal, so that the
    exact-duplicate count is 99. *)
Lemma C9_counterexample :
  exists out g',
    generate_messy_data (generator sample_people) 100 zero_rates (entropy [])
    = Some (out, g') /\
    len out = 100 /\
    Forall (fun row => row = [ ("id"%string, VNum (1 # 1));
                               ("name"%string, VStr "Alice");
                               ("joined"%string, VTime date_2020_01_01) ])
           (rows out) /\
    duplicated out = 99.
Proof.
  do 2 eexists. split; [vm_compute; reflexivity|].
  split; [reflexivity|]. split; [|vm_compute; reflexivity].
  repeat constructor.
Qed.

(** C9, amended.  For the sample with the columns [id] (numeric over
    [1, 5]), [name] (text, "Alice" and "Bob") and [joined] (datetime over
    [2020-01-01, 2020-06-01]), target_rows = 100 and all five rates 0,
    every run of the pipeline returns exactly 100 rows with zero null
    cells, every [id] within [1, 5], every [name] a string and every
    [joined] within [2020-01-01, 2020-06-01]; exact-duplicate rows are not
    excluded. *)
Theorem C9_clean_scenario (g : rng) :
  exists out g',
    generate_messy_data (generator sample_people) 100 zero_rates g = Some (out, g') /\
    len out = 100 /\ null_count out = 0 /\ Forall person_row (rows out).
Proof. apply people_runs. Qed.

(** ** Objects and references *)

Lemma nth_error_app_last {A} (h : list A) x t : nth_error (h ++ x :: t) (length h) = Some x.
Proof. rewrite nth_error_app2 by lia. rewrite Nat.sub_diag. reflexivity. Qed.

Lemma update_nth_app_last {A} (h : list A) f x t :
  update_nth (length h) f (h ++ x :: t) = h ++ f x :: t.
Proof. induction h as [|y h IH]; simpl; [reflexivity | now rewrite IH]. Qed.

Lemma nth_error_app_old {A} (h t : list A) r o :
  nth_error h r = Some o -> nth_error (h ++ t) r = Some o.
Proof.
  intros H. rewrite nth_error_app1; [exact H|]. apply nth_error_Some. congruence.
Qed.

Lemma bindW_run {A B} {m : Store.W A} (f : A -> Store.W B) {w g a w' g'} :
  m w g = Some ((a, w'), g') -> Store.bindW m f w g = f a w' g'.
Proof. intros E. unfold Store.bindW, bind. rewrite E. reflexivity. Qed.

Lemma lift_run {A} {m : M A} {g a g'} w :
  m g = Some (a, g') -> Store.lift m w g = Some ((a, w), g').
Proof. intros E. unfold Store.lift, bind. rewrite E. reflexivity. Qed.

Lemma self_run s w g :
  Store.ready s w -> Store.self w g = Some ((generator s, w), g).
Proof.
  intros [Hs Hc]. unfold Store.self. rewrite Hs. unfold generator. rewrite Hc.
  reflexivity.
Qed.

Lemma frame_run r df w g :
  nth_error (Store.heap w) r = Some (Store.WorkTable df) ->
  Store.frame r w g = Some ((df, w), g).
Proof. intros H. unfold Store.frame. rewrite H. reflexivity. Qed.

Lemma ready_grow s w t :
  Store.ready s w -> Store.ready s (Store.with_heap w (Store.heap w ++ t)).
Proof.
  intros [Hs Hc]. split; simpl; [|exact Hc]. apply nth_error_app_old, Hs.
Qed.

(** A pass that builds a new table leaves every object as it is. *)
Lemma building_run pass s r df df' w g g' :
  Store.ready s w ->
  nth_error (Store.heap w) r = Some (Store.WorkTable df) ->
  pass (generator s) df g = Some (df', g') ->
  Store.building pass r w g
  = Some ((length (Store.heap w),
           Store.with_heap w (Store.heap w ++ [Store.WorkTable df'])), g').
Proof.
  intros Hready Hr Hpass. unfold Store.building.
  rewrite (bindW_run _ (self_run s w g Hready)).
  rewrite (bindW_run _ (frame_run r df w g Hr)).
  rewrite (bindW_run _ (lift_run w Hpass)). reflexivity.
Qed.

(** A pass that works in place changes the object that it is given, and
    no other. *)
Lemma in_place_run pass s df df' h t w g g' :
  Store.ready s w ->
  Store.heap w = h ++ Store.WorkTable df :: t ->
  Store.self_sample_df w < length h ->
  pass (generator s) df g = Some (df', g') ->
  Store.in_place pass (length h) w g
  = Some ((length h, Store.with_heap w (h ++ Store.WorkTable df' :: t)), g').
Proof.
  intros Hready Hh Hlt Hpass. unfold Store.in_place.
  rewrite (bindW_run _ (self_run s w g Hready)).
  assert (Hr : nth_error (Store.heap w) (length h) = Some (Store.WorkTable df))
    by (rewrite Hh; apply nth_error_app_last).
  rewrite (bindW_run _ (frame_run (length h) df w g Hr)).
  rewrite (bindW_run _ (lift_run w Hpass)).
  unfold Store.bindW, Store.mutate, Store.retW, bind, ret. simpl.
  rewrite Hh, update_nth_app_last. reflexivity.
Qed.

Lemma ready_in_place s h o o' t w :
  Store.ready s w -> Store.heap w = h ++ o :: t ->
  Store.self_sample_df w < length h ->
  Store.ready s (Store.with_heap w (h ++ o' :: t)).
Proof.
  intros [Hs Hc] Hh Hlt. split; simpl; [|exact Hc].
  rewrite Hh in Hs. rewrite nth_error_app1 in Hs by exact Hlt.
  rewrite nth_error_app1 by exact Hlt. exact Hs.
Qed.

(** One run of [generate_messy_data] on the objects: the tables of the
    stages are those of the functional pipeline; the run adds four objects
    (the expanded table, its copy, the table that the duplication pass
    builds and that passes 2 to 5 overwrite, and the shuffled table) and
    touches no other. *)
Lemma generate_run s target_rows rates w g d0 g0 d1 g1 d2 g2 d3 g3 d4 g4 d5 g5 d6 g6 :
  Store.ready s w ->
  Store.self_sample_df w < length (Store.heap w) ->
  _expand_data (generator s) target_rows g = Some (d0, g0) ->
  _add_smart_duplicates (generator s) d0 (duplicate_rate rates) g0 = Some (d1, g1) ->
  _add_strategic_nulls (generator s) d1 (null_rate rates) g1 = Some (d2, g2) ->
  _add_wrong_ranges (generator s) d2 (wrong_range_rate rates) g2 = Some (d3, g3) ->
  _add_wrong_timestamps (generator s) d3 (wrong_timestamp_rate rates) g3 = Some (d4, g4) ->
  _add_text_corruption (generator s) d4 (text_corruption_rate rates) g4 = Some (d5, g5) ->
  sample_frac1 d5 g5 = Some (d6, g6) ->
  Store.generate_messy_data target_rows rates w g
  = Some ((length (Store.heap w) + 3,
           Store.with_heap w
             (Store.heap w ++ [Store.WorkTable d0; Store.WorkTable d0;
                               Store.WorkTable d5; Store.WorkTable d6])), g6).
Proof.
  intros Hready Hlt E0 E1 E2 E3 E4 E5 E6.
  set (h := Store.heap w).
  unfold Store.generate_messy_data.
  (* expansion *)
  assert (R0 : Store._expand_data target_rows w g
               = Some ((length h, Store.with_heap w (h ++ [Store.WorkTable d0])), g0)).
  { unfold Store._expand_data.
    rewrite (bindW_run _ (self_run s w g Hready)).
    rewrite (bindW_run _ (lift_run w E0)). reflexivity. }
  rewrite (bindW_run _ R0).
  set (w1 := Store.with_heap w (h ++ [Store.WorkTable d0])).
  assert (Hready1 : Store.ready s w1) by (apply ready_grow, Hready).
  (* the five passes *)
  assert (R1 : Store._introduce_messiness (length h) rates w1 g0
               = Some ((length h + 2,
                        Store.with_heap w
                          (h ++ [Store.WorkTable d0; Store.WorkTable d0;
                                 Store.WorkTable d5])), g5)).
  { unfold Store._introduce_messiness.
    assert (C : Store.copy (length h) w1 g0
                = Some ((length h + 1,
                         Store.with_heap w (h ++ [Store.WorkTable d0; Store.WorkTable d0])),
                        g0)).
    { unfold Store.copy.
      rewrite (bindW_run _ (frame_run (length h) d0 w1 g0 (nth_error_app_last h _ []))).
      unfold Store.new, ret. simpl. rewrite length_app, <- app_assoc. reflexivity. }
    rewrite (bindW_run _ C).
    set (w2 := Store.with_heap w (h ++ [Store.WorkTable d0; Store.WorkTable d0])).
    assert (Hready2 : Store.ready s w2) by (apply ready_grow, Hready).
    assert (Hr2 : nth_error (Store.heap w2) (length h + 1) = Some (Store.WorkTable d0)).
    { simpl. replace (h ++ [Store.WorkTable d0; Store.WorkTable d0])
        with ((h ++ [Store.WorkTable d0]) ++ [Store.WorkTable d0])
        by (rewrite <- app_assoc; reflexivity).
      replace (length h + 1) with (length (h ++ [Store.WorkTable d0]))
        by (rewrite length_app; reflexivity).
      apply nth_error_app_last. }
    rewrite (bindW_run _ (building_run
                            (fun g d => _add_smart_duplicates g d (duplicate_rate rates))
                            s (length h + 1) d0 d1 w2 g0 g1 Hready2 Hr2 E1)).
    set (pre := h ++ [Store.WorkTable d0; Store.WorkTable d0]).
    assert (Hpre : length (Store.heap w2) = length pre) by reflexivity.
    rewrite Hpre.
    assert (Hlt' : Store.self_sample_df w < length pre).
    { unfold pre. rewrite length_app. unfold h. lia. }
    assert (Step : forall pass da db ga gb,
               pass (generator s) da ga = Some (db, gb) ->
               Store.in_place pass (length pre)
                 (Store.with_heap w (pre ++ [Store.WorkTable da])) ga
               = Some ((length pre,
                        Store.with_heap w (pre ++ [Store.WorkTable db])), gb)).
    { intros pass da db ga gb Hp.
      rewrite (in_place_run pass s da db pre []
                 (Store.with_heap w (pre ++ [Store.WorkTable da])) ga gb);
        [reflexivity | | reflexivity | exact Hlt' | exact Hp].
      apply (ready_grow s w (Store.WorkTable d0 :: Store.WorkTable d0
                               :: [Store.WorkTable da])) in Hready.
      unfold pre. rewrite <- app_assoc. exact Hready. }
    change (Store.with_heap w2 (Store.heap w2 ++ [Store.WorkTable d1]))
      with (Store.with_heap w (pre ++ [Store.WorkTable d1])).
    rewrite (bindW_run _ (Step _ d1 d2 g1 g2 E2)).
    rewrite (bindW_run _ (Step _ d2 d3 g2 g3 E3)).
    rewrite (bindW_run _ (Step _ d3 d4 g3 g4 E4)).
    rewrite (bindW_run _ (Step _ d4 d5 g4 g5 E5)).
    unfold Store.retW, ret. unfold pre. rewrite length_app, <- app_assoc. simpl.
    reflexivity. }
  rewrite (bindW_run _ R1).
  set (w3 := Store.with_heap w (h ++ [Store.WorkTable d0; Store.WorkTable d0;
                                      Store.WorkTable d5])).
  assert (Hready3 : Store.ready s w3) by (apply ready_grow, Hready).
  assert (Hr3 : nth_error (Store.heap w3) (length h + 2) = Some (Store.WorkTable d5)).
  { simpl. replace (h ++ [Store.WorkTable d0; Store.WorkTable d0; Store.WorkTable d5])
      with ((h ++ [Store.WorkTable d0; Store.WorkTable d0]) ++ [Store.WorkTable d5])
      by (rewrite <- app_assoc; reflexivity).
    replace (length h + 2) with (length (h ++ [Store.WorkTable d0; Store.WorkTable d0]))
      by (rewrite length_app; reflexivity).
    apply nth_error_app_last. }
  rewrite (bindW_run _ (building_run (fun _ d => sample_frac1 d)
                          s (length h + 2) d5 d6 w3 g5 g6 Hready3 Hr3 E6)).
  unfold Store.retW, ret. simpl. rewrite length_app, <- app_assoc. simpl.
  reflexivity.
Qed.

Lemma concat_len a b : len (concat a b) = len a + len b.
Proof. unfold concat, len. simpl. rewrite length_map, length_app. reflexivity. Qed.

(** Whatever the table and the profiles, the duplication pass keeps the
    rows that it is given. *)
Lemma sure_add_smart_duplicates_len self df rate :
  sure (_add_smart_duplicates self df rate) (fun df' => len df <= len df').
Proof.
  unfold _add_smart_duplicates.
  any_result.
  intros idxs _. any_result.
  intros ds _. apply sure_ret. rewrite concat_len. lia.
Qed.

Lemma init_run h caller s :
  nth_error h caller = Some (Store.SampleTable s) ->
  Store.__init__ caller h
  = Some {| Store.heap := h ++ [Store.SampleTable s];
            Store.self_sample_df := length h;
            Store.self_column_types := _analyze_columns s |}.
Proof. intros H. unfold Store.__init__. rewrite H. reflexivity. Qed.

Lemma preserved_app h t : Store.preserved h (h ++ t).
Proof. intros r o H. apply nth_error_app_old, H. Qed.




(** ** Lengths and folding of strings *)

Lemma str_length_app (a b : string) :
  String.length (a ++ b) = String.length a + String.length b.
Proof. induction a as [|c a IH]; simpl; [reflexivity|]. rewrite IH. reflexivity. Qed.

Lemma str_app_nil (a : string) : (a ++ "")%string = a.
Proof. induction a as [|c a IH]; simpl; [reflexivity|]. rewrite IH. reflexivity. Qed.

Lemma str_app_assoc (a b c : string) : ((a ++ b) ++ c)%string = (a ++ (b ++ c))%string.
Proof. induction a as [|x a IH]; simpl; [reflexivity|]. rewrite IH. reflexivity. Qed.

Lemma map_chars_length f s : String.length (PyStr.map_chars f s) = String.length s.
Proof. induction s as [|c s IH]; simpl; [reflexivity|]. rewrite IH. reflexivity. Qed.

Lemma map_chars_app f a b :
  PyStr.map_chars f (a ++ b) = (PyStr.map_chars f a ++ PyStr.map_chars f b)%string.
Proof. induction a as [|c a IH]; simpl; [reflexivity|]. rewrite IH. reflexivity. Qed.

Lemma map_chars_compose f h s :
  PyStr.map_chars f (PyStr.map_chars h s) = PyStr.map_chars (fun c => f (h c)) s.
Proof. induction s as [|c s IH]; simpl; [reflexivity|]. rewrite IH. reflexivity. Qed.

Lemma map_chars_ext f h s :
  (forall c, f c = h c) -> PyStr.map_chars f s = PyStr.map_chars h s.
Proof.
  intros E. induction s as [|c s IH]; simpl; [reflexivity|]. rewrite E, IH. reflexivity.
Qed.

Lemma reverse_length s : String.length (PyStr.reverse s) = String.length s.
Proof.
  induction s as [|c s IH]; simpl; [reflexivity|].
  rewrite str_length_app, IH. simpl. lia.
Qed.

Lemma replace_app old new a b :
  PyStr.replace old new (a ++ b)
  = (PyStr.replace old new a ++ PyStr.replace old new b)%string.
Proof.
  induction a as [|c a IH]; simpl; [reflexivity|].
  destruct (Ascii.eqb c old); rewrite IH; [rewrite str_app_assoc|]; reflexivity.
Qed.

Lemma lower_upper_char c : PyStr.lower_char (PyStr.upper_char c) = PyStr.lower_char c.
Proof. destruct c as [[] [] [] [] [] [] [] []]; reflexivity. Qed.

Lemma lower_lower_char c : PyStr.lower_char (PyStr.lower_char c) = PyStr.lower_char c.
Proof. destruct c as [[] [] [] [] [] [] [] []]; reflexivity. Qed.

Lemma lower_char_space c :
  Ascii.eqb (PyStr.lower_char c) PyStr.space = Ascii.eqb c PyStr.space.
Proof. destruct c as [[] [] [] [] [] [] [] []]; reflexivity. Qed.

Lemma lower_strip s :
  PyStr.lower (PyStr.replace PyStr.space "" s)
  = PyStr.replace PyStr.space "" (PyStr.lower s).
Proof.
  unfold PyStr.lower. induction s as [|c s IH]; simpl; [reflexivity|].
  rewrite lower_char_space. destruct (Ascii.eqb c PyStr.space); simpl; rewrite IH; reflexivity.
Qed.

Lemma strip_strip s :
  PyStr.replace PyStr.space "" (PyStr.replace PyStr.space "" s)
  = PyStr.replace PyStr.space "" s.
Proof.
  induction s as [|c s IH]; simpl; [reflexivity|].
  destruct (Ascii.eqb c PyStr.space) eqn:E; simpl; [exact IH|].
  rewrite E, IH. reflexivity.
Qed.

Lemma fold_text_modification s m : In m (modifications s) -> fold_text m = fold_text s.
Proof.
  unfold modifications, fold_text. simpl.
  intros [<-|[<-|[<-|[<-|[]]]]].
  - unfold PyStr.lower. rewrite map_chars_app, replace_app. simpl. apply str_app_nil.
  - unfold PyStr.lower, PyStr.upper. rewrite map_chars_compose.
    rewrite (map_chars_ext _ PyStr.lower_char); [reflexivity|apply lower_upper_char].
  - unfold PyStr.lower. rewrite map_chars_compose.
    rewrite (map_chars_ext _ PyStr.lower_char); [reflexivity|apply lower_lower_char].
  - rewrite lower_strip. apply strip_strip.
Qed.

(** ** Bounds on text variations *)

Lemma str_of_nat_length n :
  1 <= n <= 999 ->
  1 <= String.length (PyStr.str_of_nat n) <= 3.
Proof.
  intros Hn.
  assert (H : forallb (fun k => let l := String.length (PyStr.str_of_nat k) in
                                (1 <=? l) && (l <=? 3)) (seq 1 999) = true)
    by (vm_compute; reflexivity).
  rewrite forallb_forall in H. specialize (H n).
  cbv zeta in H. rewrite andb_true_iff, Nat.leb_le, Nat.leb_le in H.
  apply H. apply in_seq. lia.
Qed.

Lemma suffix_length suffix : In suffix suffixes -> 3 <= String.length suffix <= 4.
Proof.
  unfold suffixes. simpl. intros [<-|[<-|[<-|[<-|[<-|[]]]]]]; simpl; lia.
Qed.

Lemma variation_length s n suffix letters v :
  1 <= n <= 999 -> In suffix suffixes -> length letters = String.length s ->
  In v (variations_of s n suffix letters) ->
  exists t, v = VStr t /\
            String.length s <= String.length t <= String.length s + 4.
Proof.
  intros Hn Hsuf Hlen. unfold variations_of. simpl.
  intros [<-|[<-|[<-|[<-|[]]]]]; eexists; (split; [reflexivity|]).
  - rewrite str_length_app. pose proof (str_of_nat_length n Hn). lia.
  - rewrite replace_space_underscore, map_chars_length. lia.
  - rewrite str_length_app. pose proof (suffix_length suffix Hsuf). lia.
  - rewrite join_length. lia.
Qed.

(** X5. A variation of a non-empty string is a string that is at least as
    long as the original and at most four characters longer; in particular
    [_generate_text_variation] never makes an empty string of a non-empty
    one. *)
Theorem X5_text_variation_length (s : string) :
  s <> EmptyString ->
  returns (_generate_text_variation (VStr s))
          (fun v => exists t, v = VStr t /\
                              String.length s <= String.length t <= String.length s + 4).
Proof.
  intros Hs g. unfold wp.
  destruct (text_variation_run s g Hs) as (n & suffix & letters & Hn & Hsuf & Hlen & _ & Hrun).
  rewrite Hrun.
  apply (variation_length s n suffix letters); auto.
  apply nth_In. unfold variations_of. simpl.
  apply index_of_lt. lia.
Qed.

Lemma X5_witness :
  returns (_generate_text_variation (VStr "Bob"))
          (fun v => exists t, v = VStr t /\ 3 <= String.length t <= 7).
Proof.
  apply (X5_text_variation_length "Bob"). discriminate.
Defined.

(** ** Profiles and expanded tables, for every sample *)

Lemma info_ok_range info :
  info_ok info ->
  match info with
  | numeric lo hi _ | datetime lo hi _ => (lo <= hi)%Q
  | _ => True
  end.
Proof.
  destruct info as [s|lo hi s|lo hi s|s u|s u]; simpl; auto.
  - intros [Hne H]. destruct s as [|v s]; [congruence|].
    destruct (H v (or_introl eq_refl)) as (x & _ & H1 & H2). lra.
  - intros [Hne H]. destruct s as [|v s]; [congruence|].
    destruct (H v (or_introl eq_refl)) as (x & _ & H1 & H2). lra.
Qed.

Lemma values_Forall {V} (P : V -> Prop) (d : Dict.t V) :
  Forall P (Dict.values d) <-> Forall (fun item => P (snd item)) d.
Proof. unfold Dict.values. rewrite Forall_map. reflexivity. Qed.


Lemma row_similar_get self row col info :
  NoDup (Dict.keys (column_types self)) -> row_similar self row ->
  In (col, info) (column_types self) ->
  exists v, Dict.get col row = Some v /\ similar_to info v.
Proof.
  unfold row_similar. generalize (column_types self) as items.
  intros items Hnd HF. induction HF as [|[k i] [k' v] items cells [Hk Hs] HF IH];
    intros Hin; [destruct Hin|].
  simpl in *. subst k'. inversion Hnd as [|? ? Hfresh Hnd']; subst.
  destruct Hin as [E|Hin].
  - inversion E; subst. rewrite String.eqb_refl. eauto.
  - destruct (String.eqb col k) eqn:E.
    + apply String.eqb_eq in E. subst k. exfalso. apply Hfresh.
      apply (in_map fst) in Hin. exact Hin.
    + apply IH; assumption.
Qed.


Lemma similar_null info v :
  info_ok info -> similar_to info v -> isnull v = is_mixed info.
Proof.
  destruct info as [l|lo hi l|lo hi l|l u|l u]; simpl.
  - intros _ ->. reflexivity.
  - intros _ (x & -> & _). reflexivity.
  - intros _ (x & -> & _). reflexivity.
  - intros (_ & _ & Hu & Hn) Hv. apply Hn, Hu, Hv.
  - intros (_ & Hn) [Hv|(t & ->)]; [apply Hn, Hv|reflexivity].
Qed.

Lemma row_similar_nulls self row :
  Forall info_ok (Dict.values (column_types self)) -> row_similar self row ->
  length (filter isnull (Dict.values row)) = length (cols_where is_mixed self).
Proof.
  unfold row_similar, cols_where. generalize (column_types self) as items.
  intros items Hok HF. induction HF as [|[k i] [k' v] items cells [Hk Hs] HF IH];
    [reflexivity|].
  simpl in *. inversion Hok as [|? ? Hi Hok']; subst.
  rewrite (similar_null i v Hi Hs).
  destruct (is_mixed i); simpl; rewrite IH; auto.
Qed.

Lemma list_sum_const {A} (f : A -> nat) k l :
  Forall (fun x => f x = k) l -> list_sum (map f l) = length l * k.
Proof.
  induction 1 as [|x l Hx _ IH]; simpl; [reflexivity|]. rewrite Hx, IH. reflexivity.
Qed.

Lemma expand_data_nulls (s : Sample) (target_rows : Z) (g : rng) :
  exists df g',
    _expand_data (generator s) target_rows g = Some (df, g') /\
    null_count df = len df * length (cols_where is_mixed (generator s)) /\
    (cols_where is_mixed (generator s) = [] -> null_count df = 0).
Proof.
  pose proof (returns_expand_data (generator s) target_rows (generator_profiled s) g) as H.
  unfold wp in H.
  destruct (_expand_data (generator s) target_rows g) as [[df g']|]; [|destruct H].
  destruct H as (Hlen & Hrows & _ & _).
  exists df, g'. split; [reflexivity|].
  assert (E : null_count df = len df * length (cols_where is_mixed (generator s))).
  { rewrite null_count_eq. unfold len. apply list_sum_const.
    eapply Forall_impl; [|exact Hrows]. intros row Hrow.
    apply row_similar_nulls; [apply (generator_profiled s)|exact Hrow]. }
  split; [exact E|]. intros Hno. rewrite E, Hno. simpl. lia.
Qed.


Lemma py_int_zero_rows rate : py_int (Qnat 0 * rate) = 0%Z.
Proof. unfold py_int, Qnat. simpl. apply Z.quot_0_l. discriminate. Qed.

Lemma empty_pipeline self cols rates g :
  cols = [] ->
  (m <- _introduce_messiness self {| columns := cols; rows := [] |} rates ;;
   sample_frac1 m) g
  = Some ({| columns := []; rows := [] |}, g).
Proof.
  intros ->. unfold _introduce_messiness.
  unfold _add_smart_duplicates, _add_strategic_nulls, _add_wrong_ranges,
    _add_wrong_timestamps, _add_text_corruption. cbn [len rows shape columns length fst snd].
  rewrite !py_int_zero_rows. cbn.
  destruct (datetime_cols self); destruct (text_cols self); reflexivity.
Qed.



(** ** Copies up to case and spaces *)

Lemma fold_row_set col m s (row : Row) :
  Dict.get col row = Some (VStr s) -> fold_text m = fold_text s ->
  fold_row (Dict.set col (VStr m) row) = fold_row row.
Proof.
  intros Hget Hfold. induction row as [|[k v] row IH]; simpl in *; [discriminate|].
  destruct (String.eqb col k) eqn:E.
  - apply String.eqb_eq in E. subst k. inversion Hget; subst. simpl.
    rewrite Hfold. reflexivity.
  - simpl. rewrite IH by exact Hget. reflexivity.
Qed.

Lemma copy_of_local self df idx d :
  copy_of self df idx d ->
  exists row,
    In row (rows df) /\
    fold_row d = fold_row row /\
    (forall c, ~ In c (text_cols self) -> Dict.get c d = Dict.get c row) /\
    (exists col, forall c, c <> col -> Dict.get c d = Dict.get c row).
Proof.
  intros (row & Hnth & Hd). exists row.
  split; [eapply nth_error_In; exact Hnth|].
  destruct Hd as [->|(col & s & m & Hcol & Hget & Hm & ->)].
  - split; [reflexivity|]. split; [reflexivity|]. exists EmptyString. reflexivity.
  - split; [apply (fold_row_set col m s); [exact Hget|apply fold_text_modification, Hm]|].
    split.
    + intros c Hc. apply get_set_other. intros ->. contradiction.
    + exists col. intros c Hc. apply get_set_other. exact Hc.
Qed.



(** ** Rates below zero *)

Lemma py_int_nonpos x : (x <= 0)%Q -> (py_int x <= 0)%Z.
Proof.
  intros H. destruct x as [n d]. unfold py_int. simpl.
  unfold Qle in H. simpl in H.
  assert (Hn : (n <= 0)%Z) by lia.
  replace n with (- (- n))%Z by lia.
  rewrite Z.quot_opp_l by discriminate.
  pose proof (Z.quot_pos (- n) (Zpos d) ltac:(lia) ltac:(lia)). lia.
Qed.

Lemma py_int_below x : (x <= - (1 # 1))%Q -> (py_int x < 0)%Z.
Proof.
  intros H. destruct x as [n d]. unfold py_int. simpl.
  unfold Qle in H. simpl in H.
  replace n with (- (- n))%Z by lia.
  rewrite Z.quot_opp_l by discriminate.
  rewrite Z.quot_div_nonneg by lia.
  pose proof (Z.div_str_pos (- n) (Zpos d) ltac:(lia)). lia.
Qed.

Lemma draws_nonpos n rate : (rate <= 0)%Q -> draws n rate = 0.
Proof.
  intros H. unfold draws.
  assert (Hx : (Qnat n * rate <= 0)%Q).
  { assert (Hn : (0 <= Qnat n)%Q).
    { unfold Qnat. change 0%Q with (inject_Z 0). rewrite <- Zle_Qle. lia. }
    nra. }
  pose proof (py_int_nonpos _ Hx). lia.
Qed.

Lemma add_smart_duplicates_raises self df rate g :
  (Qnat (len df) * rate <= - (1 # 1))%Q ->
  _add_smart_duplicates self df rate g = None.
Proof.
  intros H. unfold _add_smart_duplicates, bind, Random.np_choice.
  pose proof (py_int_below _ H) as Hlt. apply Z.ltb_lt in Hlt. rewrite Hlt. reflexivity.
Qed.

(** X7. A negative duplicate rate makes the program raise as soon as
    [len(df) * rate] reaches -1 (numpy refuses a negative size): the
    duplication pass raises on every table, and so does the whole pipeline
    for every sample when [target_rows * duplicate_rate <= -1]. *)
Theorem X7_negative_duplicate_rate (s : Sample) (target_rows : Z) (rates : Rates)
  (g : rng) :
  (0 < target_rows)%Z ->
  (inject_Z target_rows * duplicate_rate rates <= - (1 # 1))%Q ->
  (forall self df h,
     len df = Z.to_nat target_rows ->
     _add_smart_duplicates self df (duplicate_rate rates) h = None) /\
  generate_messy_data (generator s) target_rows rates g = None.
Proof.
  intros Hpos Hrate.
  assert (Hpass : forall self df h,
             len df = Z.to_nat target_rows ->
             _add_smart_duplicates self df (duplicate_rate rates) h = None).
  { intros self df h Hlen. apply add_smart_duplicates_raises.
    rewrite Hlen. unfold Qnat. rewrite Z2Nat.id by lia. exact Hrate. }
  split; [exact Hpass|].
  pose proof (returns_expand_data (generator s) target_rows (generator_profiled s) g) as H.
  unfold wp in H. unfold generate_messy_data, bind at 1.
  destruct (_expand_data (generator s) target_rows g) as [[df g']|]; [|reflexivity].
  destruct H as (Hlen & _).
  unfold bind at 1. unfold _introduce_messiness. unfold bind at 1.
  rewrite (Hpass _ _ _ Hlen). reflexivity.
Qed.

Lemma X7_witness :
  generate_messy_data (generator sample_ids) 2
    {| duplicate_rate := - (1 # 2); null_rate := 0; wrong_range_rate := 0;
       wrong_timestamp_rate := 0; text_corruption_rate := 0 |} (entropy [])
  = None.
Proof.
  apply (X7_negative_duplicate_rate sample_ids 2
           {| duplicate_rate := - (1 # 2); null_rate := 0; wrong_range_rate := 0;
              wrong_timestamp_rate := 0; text_corruption_rate := 0 |} (entropy [])).
  - lia.
  - vm_compute. discriminate.
Defined.



(** ** Cells after a sequence of writes *)

Lemma writes_cells cols (P : string -> value -> Prop) ws df :
  wf df -> incl cols (columns df) ->
  Forall (fun w => fst (fst w) < len df /\ In (snd (fst w)) cols /\
                   P (snd (fst w)) (snd w)) ws ->
  forall r c,
    at_get (writes ws df) r c = at_get df r c \/
    (r < len df /\ In c cols /\
     exists v, at_get (writes ws df) r c = Some v /\ P c v).
Proof.
  revert df. induction ws as [|[[r0 c0] v0] ws IH]; intros df Hwf Hincl H r c.
  - left. reflexivity.
  - inversion H as [|? ? (Hr & Hc & Hv) Hws]; subst. simpl in Hr, Hc, Hv.
    rewrite writes_cons. unfold write. simpl fst. simpl snd.
    assert (Hc' : In c0 (columns df)) by (apply Hincl, Hc).
    assert (Hlen : len (at_set df r0 c0 v0) = len df) by (apply at_set_len, Hr).
    assert (Hcols : columns (at_set df r0 c0 v0) = columns df)
      by (rewrite at_set_present by assumption; reflexivity).
    destruct (IH (at_set df r0 c0 v0)) with (r := r) (c := c) as [E|(Hr1 & Hc1 & v & E & Hp)].
    + apply at_set_wf; assumption.
    + rewrite Hcols. exact Hincl.
    + rewrite Hlen. exact Hws.
    + rewrite E.
      destruct (Nat.eq_dec r r0) as [->|Hne];
        [destruct (string_dec c c0) as [->|Hne]|].
      * right. split; [exact Hr|]. split; [exact Hc|]. exists v0.
        split; [apply at_get_at_set_same; assumption|exact Hv].
      * left. apply at_get_at_set_other; try assumption. congruence.
      * left. apply at_get_at_set_other; try assumption. congruence.
    + right. rewrite Hlen in Hr1. split; [exact Hr1|]. split; [exact Hc1|].
      exists v. split; assumption.
Qed.

Lemma written_cells self cols (P : string -> value -> Prop) df df' :
  fits self df -> incl cols (Dict.keys (column_types self)) ->
  written cols P df df' ->
  forall r c,
    at_get df' r c = at_get df r c \/
    (r < len df /\ In c cols /\ exists v, at_get df' r c = Some v /\ P c v).
Proof.
  intros Hfit Hincl (ws & -> & Hws) r c.
  destruct ws as [|w ws]; [left; reflexivity|].
  assert (Hpos : 0 < len df).
  { inversion Hws as [|? ? (Hr & _) _]; subst. lia. }
  apply writes_cells; [apply Hfit| |exact Hws].
  destruct Hfit as (_ & _ & [H0|Hc]); [lia|]. rewrite Hc. exact Hincl.
Qed.

Lemma null_writes_ge ws df :
  wf df ->
  Forall (fun w => fst (fst w) < len df /\ In (snd (fst w)) (columns df) /\
                   snd w = VNone) ws ->
  null_count df <= null_count (writes ws df).
Proof.
  revert df. induction ws as [|[[r c] v] ws IH]; intros df Hwf H.
  - simpl. lia.
  - inversion H as [|? ? (Hr & Hc & Hv) Hws]; subst. simpl in Hr, Hc, Hv. subst v.
    rewrite writes_cons. unfold write. simpl fst. simpl snd.
    destruct (wf_at_get df r c Hwf Hr Hc) as (v0 & Hget).
    pose proof (null_count_at_set df r c VNone _ Hc Hget) as Hstep. simpl in Hstep.
    assert (Hle : null_count (at_set df r c VNone)
                  <= null_count (writes ws (at_set df r c VNone))).
    { apply IH; [apply at_set_wf; assumption|].
      rewrite at_set_len by exact Hr. rewrite at_set_present by assumption. exact Hws. }
    destruct (isnull v0); lia.
Qed.







(** X12. The timestamp pass writes into datetime columns only: on a table
    that fits the generator it returns a table of the same shape in which
    every cell outside the datetime columns keeps its value, and a cell of a
    datetime column either keeps its value or holds one of the four wrong
    dates (1900-01-01, 2100-01-01, NaT, the epoch). *)
Theorem X12_timestamp_pass_frame (self : Generator) (df : DataFrame) (rate : Q)
  (g : rng) :
  fits self df ->
  exists df' g',
    _add_wrong_timestamps self df rate g = Some (df', g') /\
    len df' = len df /\ columns df' = columns df /\
    (forall r c,
       at_get df' r c = at_get df r c \/
       (In c (datetime_cols self) /\
        exists v, at_get df' r c = Some v /\ In v wrong_dates)) /\
    (forall r c, ~ In c (datetime_cols self) -> at_get df' r c = at_get df r c).
Proof.
  intros Hfit.
  pose proof (returns_add_wrong_timestamps self df rate g) as H. unfold wp in H.
  destruct (_add_wrong_timestamps self df rate g) as [[df' g']|]; [|destruct H].
  destruct H as [H Hlen].
  exists df', g'. split; [reflexivity|].
  assert (Hincl : incl (datetime_cols self) (Dict.keys (column_types self))).
  { intros c Hc. eapply cols_where_keys; exact Hc. }
  destruct (written_fits_keys self _ _ df df' Hfit Hincl H) as (_ & _ & Hcols).
  split; [exact Hlen|]. split; [exact Hcols|].
  assert (Hcells : forall r c,
             at_get df' r c = at_get df r c \/
             (In c (datetime_cols self) /\
              exists v, at_get df' r c = Some v /\ In v wrong_dates)).
  { intros r c.
    destruct (written_cells self _ _ df df' Hfit Hincl H r c)
      as [E|(_ & Hc & v & E & Hv)]; [left; exact E|].
    right. split; [exact Hc|]. exists v. auto. }
  split; [exact Hcells|].
  intros r c Hc. destruct (Hcells r c) as [E|(Hin & _)]; [exact E|contradiction].
Qed.

Lemma X12_witness :
  exists df' g',
    _add_wrong_timestamps (generator sample_ids) table_ids 1 (entropy [])
    = Some (df', g') /\
    (forall r c, at_get df' r c = at_get table_ids r c).
Proof.
  destruct (X12_timestamp_pass_frame (generator sample_ids) table_ids 1 (entropy []))
    as (df' & g' & Hrun & _ & _ & _ & Hframe).
  - split; [split; [repeat constructor; simpl; tauto|repeat constructor]|].
    split; [repeat constructor; simpl; tauto|]. right. reflexivity.
  - exists df', g'. split; [exact Hrun|].
    intros r c. apply Hframe. simpl. tauto.
Defined.

(** ** What text corruption keeps *)

Lemma returns_bind_ret {A B} (a : A) (f : A -> M B) (P : B -> Prop) :
  returns (f a) P -> returns (bind (ret a) f) P.
Proof. intros H g. unfold wp. rewrite bind_ret_l. apply H. Qed.

Lemma corrupted_nonempty s t : corrupted s t -> s <> EmptyString.
Proof. induction 1 as [s t [H _]|s t u _ IH _]; assumption. Qed.

Lemma text_corruption_keeps self df rate :
  fits self df ->
  returns (_add_text_corruption self df rate)
    (fun df' =>
       len df' = len df /\ columns df' = columns df /\ fits self df' /\
       null_count df' = null_count df /\
       forall r c,
         at_get df' r c = at_get df r c \/
         (In c (text_cols self) /\
          exists s s', at_get df r c = Some (VStr s) /\ corrupted s s' /\
                       at_get df' r c = Some (VStr s'))).
Proof.
  intros Hfit. unfold _add_text_corruption. fold (draws (len df) rate).
  destruct (text_cols self) as [|c0 cs] eqn:Ec.
  - apply returns_ret. split; [|split; [|split; [|split]]]; auto.
  - rewrite <- Ec in *.
    set (Inv := fun df' : DataFrame =>
         len df' = len df /\ columns df' = columns df /\ fits self df' /\
         null_count df' = null_count df /\
         forall r c,
           at_get df' r c = at_get df r c \/
           (In c (text_cols self) /\
            exists s s', at_get df r c = Some (VStr s) /\ corrupted s s' /\
                         at_get df' r c = Some (VStr s'))).
    assert (H0 : Inv df) by (unfold Inv; split; [|split; [|split; [|split]]]; auto).
    destruct (draws (len df) rate) as [|k] eqn:Ek.
    + simpl. apply returns_ret. exact H0.
    + assert (Hlen : 0 < len df) by (apply (@draws_pos (len df) rate); lia).
      apply (returns_for_range Inv); [exact H0|].
      intros d (Hl & Hcols & Hfd & Hnull & Hcells).
      eapply returns_bind; [apply returns_random_row; lia|].
      intros r Hr. eapply returns_bind;
        [apply returns_choice; rewrite Ec; discriminate|].
      intros c Hc.
      assert (Hcd : In c (columns d)).
      { apply (fits_columns self); [exact Hfd | lia|].
        apply (cols_where_keys is_text_like), Hc. }
      destruct (wf_at_get d r c (proj1 Hfd) Hr Hcd) as (v & Hv).
      rewrite Hv. cbn [must]. apply returns_bind_ret.
      assert (Hkeep : returns (ret d) Inv)
        by (apply returns_ret; unfold Inv; split; [|split; [|split; [|split]]]; auto).
      destruct v as [| | | |s]; try exact Hkeep.
      destruct (0 <? String.length s) eqn:Es; [|exact Hkeep].
      apply Nat.ltb_lt in Es.
      eapply returns_bind; [apply returns_choices; discriminate|].
      intros junk [Hjl Hjunk]. eapply returns_bind; [apply returns_choice; discriminate|].
      intros w Hw. apply returns_ret.
      assert (Hstep : corrupts s w).
      { split; [intros ->; simpl in Es; lia|]. exists junk. repeat split; assumption. }
      split; [rewrite at_set_len by exact Hr; exact Hl|].
      split; [rewrite at_set_present by assumption; exact Hcols|].
      split; [apply at_set_fits; assumption|].
      split.
      * pose proof (null_count_at_set d r c (VStr w) (VStr s) Hcd Hv) as Hnc.
        simpl in Hnc. lia.
      * intros r' c'.
        destruct (Nat.eq_dec r' r) as [->|Hne];
          [destruct (string_dec c' c) as [->|Hne]|].
        -- right. split; [exact Hc|].
           rewrite at_get_at_set_same by assumption.
           destruct (Hcells r c) as [E|(_ & s0 & s' & E0 & Hs0 & E')].
           ++ exists s, w. rewrite <- E, Hv. repeat split.
              apply corrupted_once, Hstep.
           ++ exists s0, w. rewrite Hv in E'. inversion E'; subst s'.
              repeat split; [exact E0|].
              eapply corrupted_more; [exact Hs0|exact Hstep].
        -- rewrite at_get_at_set_other by (try assumption; congruence). apply Hcells.
        -- rewrite at_get_at_set_other by (try assumption; congruence). apply Hcells.
Qed.



Lemma replace_char_length old c s :
  String.length (PyStr.replace old (String c EmptyString) s) = String.length s.
Proof.
  induction s as [|x s IH]; simpl; [reflexivity|].
  destruct (Ascii.eqb x old); simpl; rewrite IH; reflexivity.
Qed.



(** ** The shuffle *)

Lemma permute_run {A} n (l : list A) g :
  length l = n ->
  exists l', Random.permute n l g = Some (l', skip n g) /\ Permutation l l'.
Proof.
  revert l g. induction n as [|n IH]; intros l g Hl.
  - destruct l; [|discriminate]. exists []. rewrite skip_0. split; [reflexivity|constructor].
  - destruct l as [|d t]; [discriminate|].
    cbn [Random.permute]. set (l := d :: t) in *.
    assert (Hpos : 0 < length l) by lia.
    set (i := index_of (word g 0) (length l)).
    assert (Hi : i < length l) by (apply index_of_lt, Hpos).
    destruct (IH (Random.remove_nth i l) (skip 1 g)) as (rest & Hrun & Hperm).
    { rewrite remove_nth_length by exact Hi. lia. }
    exists (nth i l d :: rest). split.
    + rewrite (bind_run _ (randbelow_run (length l) g Hpos)). fold i.
      rewrite (bind_run _ Hrun). unfold ret. rewrite skip_skip. reflexivity.
    + eapply Permutation_trans; [apply (remove_nth_perm i l d Hi)|].
      apply perm_skip, Hperm.
Qed.

Lemma null_count_perm cols cols' rs rs' :
  Permutation rs rs' ->
  null_count {| columns := cols; rows := rs |}
  = null_count {| columns := cols'; rows := rs' |}.
Proof.
  intros H. rewrite !null_count_rows.
  apply Permutation_list_sum, Permutation_map, H.
Qed.

Lemma wf_perm cols rs rs' :
  Permutation rs rs' ->
  wf {| columns := cols; rows := rs |} -> wf {| columns := cols; rows := rs' |}.
Proof.
  intros H [Hnd Hrows]. split; [exact Hnd|]. simpl in *.
  eapply Permutation_Forall; [exact H|exact Hrows].
Qed.

Lemma sample_frac1_run (df : DataFrame) (g : rng) :
  exists df',
    sample_frac1 df g = Some (df', skip (len df) g) /\
    columns df' = columns df /\
    Permutation (rows df) (rows df') /\
    len df' = len df /\
    null_count df' = null_count df /\
    (wf df -> wf df').
Proof.
  destruct (permute_run (len df) (rows df) g eq_refl) as (rs & Hrun & Hperm).
  exists {| columns := columns df; rows := rs |}.
  split.
  { unfold sample_frac1, Random.shuffle. fold (len df).
    rewrite (bind_run _ Hrun). reflexivity. }
  split; [reflexivity|]. split; [exact Hperm|].
  split; [unfold len; simpl; symmetry; apply Permutation_length, Hperm|].
  split.
  - destruct df as [cols rs0]. simpl in *. symmetry. apply null_count_perm, Hperm.
  - destruct df as [cols rs0]. simpl in *. apply wf_perm, Hperm.
Qed.



(** ** The quality report: null counts *)

Lemma filter_length_cons {A} (f : A -> bool) x l :
  length (filter f (x :: l)) = (if f x then 1 else 0) + length (filter f l).
Proof. simpl. destruct (f x); reflexivity. Qed.

Lemma list_sum_add {A} (f h : A -> nat) l :
  list_sum (map (fun x => f x + h x) l) = list_sum (map f l) + list_sum (map h l).
Proof. induction l as [|x l IH]; simpl; [reflexivity|]. rewrite IH. lia. Qed.

Lemma list_sum_indicator {A} (f : A -> bool) l :
  list_sum (map (fun x => if f x then 1 else 0) l) = length (filter f l).
Proof. induction l as [|x l IH]; simpl; [reflexivity|]. rewrite IH. destruct (f x); reflexivity. Qed.

(** Counting the null cells by column or by row gives the same number. *)
Lemma nulls_by_column cols rs :
  list_sum (map (fun c => length (filter (null_cell c) rs)) cols)
  = list_sum (map (fun row => length (filter (fun c => null_cell c row) cols)) rs).
Proof.
  induction rs as [|row rs IH].
  - simpl. induction cols; simpl; auto.
  - rewrite map_cons.
    change (list_sum (?x :: ?l)) with (x + list_sum l).
    rewrite <- IH, <- list_sum_indicator, <- list_sum_add.
    f_equal. apply map_ext. intros c. apply filter_length_cons.
Qed.

Lemma null_cells_row (row : Row) :
  NoDup (Dict.keys row) ->
  length (filter (fun c => null_cell c row) (Dict.keys row))
  = length (filter isnull (Dict.values row)).
Proof.
  induction row as [|[k v] row IH]; intros Hnd; [reflexivity|].
  simpl in Hnd. inversion Hnd as [|? ? Hfresh Hnd']; subst.
  change (Dict.keys ((k, v) :: row)) with (k :: Dict.keys row).
  change (Dict.values ((k, v) :: row)) with (v :: Dict.values row).
  rewrite !filter_length_cons.
  assert (E : null_cell k ((k, v) :: row) = isnull v).
  { unfold null_cell. simpl. rewrite String.eqb_refl. reflexivity. }
  rewrite E. f_equal.
  rewrite <- IH by exact Hnd'. f_equal.
  apply filter_ext_in. intros c Hc. unfold null_cell. simpl.
  destruct (String.eqb c k) eqn:Ec; [|reflexivity].
  apply String.eqb_eq in Ec. subst c. contradiction.
Qed.

Lemma null_summary_sum df :
  wf df -> list_sum (Dict.values (null_summary df)) = null_count df.
Proof.
  intros [Hnd Hrows]. unfold null_summary, Dict.values, nulls_in.
  rewrite map_map. simpl. rewrite nulls_by_column, null_count_eq.
  f_equal. apply map_ext_in. intros row Hrow.
  rewrite Forall_forall in Hrows. rewrite <- (Hrows row Hrow).
  apply null_cells_row. rewrite (Hrows row Hrow). exact Hnd.
Qed.

Lemma filter_length_le {A} (f : A -> bool) l : length (filter f l) <= length l.
Proof. induction l as [|x l IH]; simpl; [lia|]. destruct (f x); simpl; lia. Qed.

Lemma duplicated_from_le seen l : duplicated_from seen l <= length l.
Proof.
  revert seen. induction l as [|r l IH]; intros seen; simpl; [lia|].
  specialize (IH (r :: seen)). destruct (existsb (row_eqb r) seen); lia.
Qed.

Lemma duplicated_le df : duplicated df <= len df - 1.
Proof.
  unfold duplicated, len. destruct (rows df) as [|r l]; simpl; [lia|].
  pose proof (duplicated_from_le [r] l). lia.
Qed.

(** X16. The report counts every null cell once: on a well-formed table
    [null_counts] has one entry per column, in column order, the entries
    add up to the number of null cells of the table and none exceeds the
    number of rows; the duplicate count is at most the number of rows minus
    one (the first row is never a duplicate), and the shape is rows by
    columns. *)
Theorem X16_report_counts (memory_usage : DataFrame -> Q) (self : Generator)
  (df : DataFrame) :
  wf df ->
  let analysis := analyze_data_quality memory_usage self df in
  Dict.keys (analysis_null_counts analysis) = columns df /\
  list_sum (Dict.values (analysis_null_counts analysis)) = null_count df /\
  Forall (fun n => n <= len df) (Dict.values (analysis_null_counts analysis)) /\
  analysis_duplicates analysis <= len df - 1 /\
  analysis_shape analysis = (len df, length (columns df)).
Proof.
  intros Hwf. simpl. split; [|split; [|split; [|split]]].
  - unfold null_summary, Dict.keys. rewrite map_map. simpl. apply map_id.
  - apply null_summary_sum, Hwf.
  - unfold null_summary, Dict.values. rewrite map_map. simpl.
    apply Forall_map, Forall_forall. intros c _. apply filter_length_le.
  - apply duplicated_le.
  - reflexivity.
Qed.

Lemma X16_witness :
  list_sum (Dict.values (analysis_null_counts
                           (analyze_data_quality (fun _ => 0%Q) (generator sample_ids)
                                                 table_ids)))
  = null_count table_ids.
Proof.
  apply (X16_report_counts (fun _ => 0%Q) (generator sample_ids) table_ids).
  split; [repeat constructor; simpl; tauto|repeat constructor].
Defined.

(** ** The quality report: duplicates *)

Lemma Qeq_bool_comm x y : Qeq_bool x y = Qeq_bool y x.
Proof.
  destruct (Qeq_bool x y) eqn:E1, (Qeq_bool y x) eqn:E2; try reflexivity.
  - apply Qeq_bool_iff in E1. symmetry in E1. apply Qeq_bool_iff in E1. congruence.
  - apply Qeq_bool_iff in E2. symmetry in E2. apply Qeq_bool_iff in E2. congruence.
Qed.

Lemma value_eqb_sym a b : value_eqb a b = value_eqb b a.
Proof.
  destruct a, b; simpl; try reflexivity; try apply Qeq_bool_comm. apply String.eqb_sym.
Qed.

Lemma value_eqb_trans a b c :
  value_eqb a b = true -> value_eqb b c = true -> value_eqb a c = true.
Proof.
  destruct a, b, c; simpl; try discriminate; auto.
  - apply Qeq_bool_trans.
  - apply Qeq_bool_trans.
  - rewrite !String.eqb_eq. congruence.
Qed.

Lemma row_eqb_refl r : row_eqb r r = true.
Proof.
  induction r as [|[k v] r IH]; simpl; [reflexivity|].
  unfold cell_eqb. simpl. rewrite String.eqb_refl, value_eqb_refl, IH. reflexivity.
Qed.

Lemma row_eqb_sym a b : row_eqb a b = row_eqb b a.
Proof.
  revert b. induction a as [|[k v] a IH]; intros [|[k' v'] b]; simpl; try reflexivity.
  unfold cell_eqb. simpl. rewrite String.eqb_sym, value_eqb_sym, IH. reflexivity.
Qed.

Lemma row_eqb_trans a b c :
  row_eqb a b = true -> row_eqb b c = true -> row_eqb a c = true.
Proof.
  revert b c. induction a as [|[k v] a IH]; intros [|[k' v'] b] [|[k'' v''] c];
    simpl; try discriminate; auto.
  unfold cell_eqb. simpl. rewrite !andb_true_iff, !String.eqb_eq.
  intros [[-> H1] H2] [[-> H3] H4]. repeat split.
  - eapply value_eqb_trans; eassumption.
  - eapply IH; eassumption.
Qed.

Lemma row_eqb_congr a b c : row_eqb a b = true -> row_eqb a c = row_eqb b c.
Proof.
  intros H. destruct (row_eqb a c) eqn:E1, (row_eqb b c) eqn:E2; try reflexivity.
  - rewrite row_eqb_sym in H. rewrite (row_eqb_trans b a c H E1) in E2. discriminate.
  - rewrite (row_eqb_trans a b c H E2) in E1. discriminate.
Qed.

Lemma seen_congr a b seen :
  row_eqb a b = true -> existsb (row_eqb a) seen = existsb (row_eqb b) seen.
Proof.
  intros H. induction seen as [|r seen IH]; simpl; [reflexivity|].
  rewrite IH, (row_eqb_congr a b r H). reflexivity.
Qed.

Lemma duplicated_from_ext seen seen' l :
  (forall r, existsb (row_eqb r) seen = existsb (row_eqb r) seen') ->
  duplicated_from seen l = duplicated_from seen' l.
Proof.
  revert seen seen'. induction l as [|r l IH]; intros seen seen' H; simpl; [reflexivity|].
  rewrite (H r). f_equal. apply IH. intros r'. simpl. rewrite (H r'). reflexivity.
Qed.

Lemma duplicated_from_perm seen l l' :
  Permutation l l' -> duplicated_from seen l = duplicated_from seen l'.
Proof.
  intros H. revert seen.
  induction H as [|x l l' _ IH|x y l|l l' l'' _ IH1 _ IH2]; intros seen.
  - reflexivity.
  - simpl. rewrite IH. reflexivity.
  - cbn [duplicated_from existsb].
    rewrite (duplicated_from_ext (x :: y :: seen) (y :: x :: seen) l).
    2:{ intros r. simpl. destruct (row_eqb r x), (row_eqb r y); reflexivity. }
    rewrite (row_eqb_sym x y).
    destruct (row_eqb y x) eqn:E.
    + rewrite (seen_congr y x seen E). simpl.
      destruct (existsb (row_eqb x) seen); simpl; lia.
    + simpl. lia.
  - rewrite IH1. apply IH2.
Qed.

Lemma duplicated_from_app seen l1 l2 :
  duplicated_from seen (l1 ++ l2)
  = duplicated_from seen l1 + duplicated_from (rev l1 ++ seen) l2.
Proof.
  revert seen. induction l1 as [|r l1 IH]; intros seen; simpl; [reflexivity|].
  rewrite IH, <- app_assoc. simpl. lia.
Qed.

Lemma existsb_incl {A} (f : A -> bool) l l' :
  incl l l' -> existsb f l = true -> existsb f l' = true.
Proof.
  intros Hincl. rewrite !existsb_exists. intros (x & Hx & Hf). exists x. auto.
Qed.

Lemma duplicated_from_ge seen0 seen l :
  incl seen0 seen ->
  length (filter (fun d => existsb (row_eqb d) seen0) l) <= duplicated_from seen l.
Proof.
  revert seen. induction l as [|r l IH]; intros seen Hincl; simpl; [lia|].
  specialize (IH (r :: seen) (fun x Hx => or_intror (Hincl x Hx))).
  destruct (existsb (row_eqb r) seen0) eqn:E.
  - rewrite (existsb_incl _ _ _ Hincl E). simpl. lia.
  - lia.
Qed.

Lemma filter_all {A} (f : A -> bool) l :
  Forall (fun x => f x = true) l -> filter f l = l.
Proof. induction 1 as [|x l Hx _ IH]; simpl; [reflexivity|]. rewrite Hx, IH. reflexivity. Qed.

Lemma copy_exact self df idx d :
  text_cols self = [] -> copy_of self df idx d ->
  existsb (row_eqb d) (rows df) = true.
Proof.
  intros Hno (row & Hnth & [->|(col & _ & _ & Hcol & _)]).
  - apply existsb_exists. exists row. split; [eapply nth_error_In; exact Hnth|].
    apply row_eqb_refl.
  - rewrite Hno in Hcol. destruct Hcol.
Qed.



Lemma filter_length_perm {A} (f : A -> bool) l l' :
  Permutation l l' -> length (filter f l) = length (filter f l').
Proof.
  induction 1 as [|x l l' _ IH|x y l|l l' l'' _ IH1 _ IH2]; simpl.
  - reflexivity.
  - destruct (f x); simpl; rewrite IH; reflexivity.
  - destruct (f x), (f y); reflexivity.
  - congruence.
Qed.

Lemma report_perm df df' :
  columns df' = columns df -> Permutation (rows df) (rows df') ->
  shape df' = shape df /\ duplicated df' = duplicated df /\
  null_summary df' = null_summary df.
Proof.
  intros Hcols Hperm. split; [|split].
  - unfold shape, len. rewrite Hcols, (Permutation_length Hperm). reflexivity.
  - unfold duplicated. symmetry. apply duplicated_from_perm, Hperm.
  - unfold null_summary. rewrite Hcols. apply map_ext. intros c.
    unfold nulls_in. f_equal. symmetry. apply filter_length_perm, Hperm.
Qed.

(** X18. The report does not depend on the order of the rows, so the
    final shuffle does not change what [analyze_data_quality] finds: the
    shape, the exact-duplicate count and the null count of every column are
    the same for the shuffled table as for the table before the shuffle. *)
Theorem X18_report_ignores_shuffle (memory_usage : DataFrame -> Q) (self : Generator)
  (df : DataFrame) (g : rng) :
  exists df' g',
    sample_frac1 df g = Some (df', g') /\
    analysis_shape (analyze_data_quality memory_usage self df')
    = analysis_shape (analyze_data_quality memory_usage self df) /\
    analysis_duplicates (analyze_data_quality memory_usage self df')
    = analysis_duplicates (analyze_data_quality memory_usage self df) /\
    analysis_null_counts (analyze_data_quality memory_usage self df')
    = analysis_null_counts (analyze_data_quality memory_usage self df).
Proof.
  destruct (sample_frac1_run df g) as (df' & Hrun & Hcols & Hperm & _).
  exists df', (skip (len df) g). split; [exact Hrun|].
  simpl. apply report_perm; assumption.
Qed.

(** ** Replacement of a substring *)

Lemma prefix_length old s :
  String.prefix old s = true -> String.length old <= String.length s.
Proof.
  revert s. induction old as [|c old IH]; intros s H; simpl; [lia|].
  destruct s as [|c' s]; simpl in H; [discriminate|].
  destruct (ascii_dec c c'); [|discriminate].
  apply IH in H. simpl. lia.
Qed.

Lemma prefix_app old u w :
  String.length old <= String.length u ->
  String.prefix old (u ++ w) = String.prefix old u.
Proof.
  revert u. induction old as [|c old IH]; intros u H; simpl.
  - destruct (u ++ w)%string, u; reflexivity.
  - destruct u as [|c' u]; simpl in *; [lia|].
    destruct (ascii_dec c c'); [|reflexivity]. apply IH. lia.
Qed.

Lemma replace_absent s old new :
  contains s old = false -> str_replace s old new = s.
Proof.
  unfold str_replace. induction s as [|c s IH]; intros H; [reflexivity|].
  cbn [contains] in H. apply orb_false_iff in H. destruct H as [Hp Hc].
  cbn [replace_from]. rewrite Hp, (IH Hc). reflexivity.
Qed.

Lemma replace_from_length old new k s :
  0 < String.length old <= String.length new -> k <= String.length s ->
  String.length s <= String.length (replace_from old new k s) + k.
Proof.
  intros Hlen. revert k. induction s as [|c s IH]; intros k Hk; [simpl in *; lia|].
  cbn [String.length] in Hk.
  destruct k as [|k]; cbn [replace_from].
  - destruct (String.prefix old (String c s)) eqn:Hp.
    + apply prefix_length in Hp. cbn [String.length] in Hp. rewrite str_length_app.
      specialize (IH (String.length old - 1) ltac:(lia)).
      cbn [String.length]. lia.
    + specialize (IH 0 ltac:(lia)). cbn [String.length]. lia.
  - specialize (IH k ltac:(lia)). cbn [String.length]. lia.
Qed.

Lemma replace_present_length s old new :
  0 < String.length old < String.length new -> contains s old = true ->
  String.length s < String.length (str_replace s old new).
Proof.
  intros Hlen. unfold str_replace. induction s as [|c s IH]; intros H.
  - cbn [contains] in H. rewrite orb_false_r in H.
    apply prefix_length in H. cbn [String.length] in H. lia.
  - cbn [contains] in H. cbn [replace_from].
    destruct (String.prefix old (String c s)) eqn:Hp.
    + apply prefix_length in Hp. cbn [String.length] in Hp. rewrite str_length_app.
      pose proof (replace_from_length old new (String.length old - 1) s
                    ltac:(lia) ltac:(lia)).
      cbn [String.length]. lia.
    + cbn [orb] in H. specialize (IH H). cbn [String.length]. lia.
Qed.

Lemma replace_present s old new :
  0 < String.length old < String.length new -> contains s old = true ->
  str_replace s old new <> s.
Proof.
  intros Hlen H E. pose proof (replace_present_length s old new Hlen H) as Hlt.
  rewrite E in Hlt. lia.
Qed.

(** The name of the report for an output name that ends with its first
    [.csv]. *)
Lemma replace_csv_suffix base new :
  contains (base ++ ".cs") ".csv" = false ->
  str_replace (base ++ ".csv") ".csv" new = (base ++ new)%string.
Proof.
  unfold str_replace. induction base as [|c base IH]; intros H.
  - simpl. rewrite str_app_nil. reflexivity.
  - change ((String c base ++ ".cs")%string) with (String c (base ++ ".cs")) in H.
    cbn [contains] in H. apply orb_false_iff in H. destruct H as [Hp Hc].
    change ((String c base ++ ".csv")%string) with (String c (base ++ ".csv")).
    cbn [replace_from].
    assert (Hp' : String.prefix ".csv" (String c (base ++ ".csv")) = false).
    { replace (String c (base ++ ".csv")) with ((String c (base ++ ".cs")) ++ "v")%string.
      - rewrite prefix_app; [exact Hp|]. simpl. rewrite str_length_app. simpl. lia.
      - simpl. rewrite str_app_assoc. reflexivity. }
    rewrite Hp', (IH Hc). reflexivity.
Qed.

(** ** The command line *)

Lemma main_run read_csv read_json memory_usage args files g s out g' :
  Cli.load read_csv read_json (Cli.input_file args) = Some s ->
  generate_messy_data (generator s) (Cli.rows args) (Cli.rates_of args) g
  = Some (out, g') ->
  Cli.main read_csv read_json memory_usage args files g
  = Some (Dict.set (str_replace (Cli.output args) ".csv" "_analysis.txt")
            (Cli.Report (Cli.input_file args) (Cli.output args)
               (analyze_data_quality memory_usage (generator s) out))
            (Dict.set (Cli.output args) (Cli.Table out) files),
          g').
Proof.
  intros Hload Hrun. unfold Cli.main. rewrite Hload.
  cbn [__init__ must]. rewrite bind_ret_l.
  change {| sample_df := s; column_types := _analyze_columns s |} with (generator s).
  rewrite (bind_run _ Hrun). reflexivity.
Qed.

Lemma main_generates s args g :
  (0 <= Cli.duplicates args)%Q ->
  exists out g',
    generate_messy_data (generator s) (Cli.rows args) (Cli.rates_of args) g
    = Some (out, g').
Proof.
  intros Hrate.
  pose proof (returns_generate_messy_data (generator s) (Cli.rows args) (Cli.rates_of args)
                (generator_profiled s) Hrate g) as H.
  unfold wp in H.
  destruct (generate_messy_data (generator s) (Cli.rows args) (Cli.rates_of args) g)
    as [[out g']|]; [|destruct H].
  exists out, g'. reflexivity.
Qed.





(** X21. The program writes no other file: after any run that returns,
    every path other than the output path and the report path holds what it
    held before.  When the load fails (the reader raises, or the input name
    ends with neither [.csv] nor [.json]) the program returns without
    writing anything and without drawing a random number. *)
Theorem X21_main_writes_two_paths
  (read_csv read_json : string -> option Sample) (memory_usage : DataFrame -> Q)
  (args : Cli.Args) (files : Cli.Files) (g : rng) :
  (forall files' g',
     Cli.main read_csv read_json memory_usage args files g = Some (files', g') ->
     forall p,
       p <> Cli.output args ->
       p <> str_replace (Cli.output args) ".csv" "_analysis.txt" ->
       Dict.get p files' = Dict.get p files) /\
  (Cli.load read_csv read_json (Cli.input_file args) = None ->
   Cli.main read_csv read_json memory_usage args files g = Some (files, g)) /\
  (endswith (Cli.input_file args) ".csv" = false ->
   endswith (Cli.input_file args) ".json" = false ->
   Cli.main read_csv read_json memory_usage args files g = Some (files, g)).
Proof.
  assert (Hfail : Cli.load read_csv read_json (Cli.input_file args) = None ->
                  Cli.main read_csv read_json memory_usage args files g = Some (files, g)).
  { intros H. unfold Cli.main. rewrite H. reflexivity. }
  split; [|split; [exact Hfail|]].
  - intros files' g' Hmain p Hp1 Hp2.
    destruct (Cli.load read_csv read_json (Cli.input_file args)) as [s|] eqn:Hload.
    + unfold Cli.main in Hmain. rewrite Hload in Hmain.
      cbn [__init__ must] in Hmain. rewrite bind_ret_l in Hmain.
      apply bind_run_inv in Hmain. destruct Hmain as (out & g1 & _ & Hret).
      unfold ret in Hret. inversion Hret; subst.
      rewrite !get_set_other by assumption. reflexivity.
    + rewrite Hfail in Hmain by reflexivity. inversion Hmain; subst. reflexivity.
  - intros H1 H2. apply Hfail. unfold Cli.load. rewrite H1, H2. reflexivity.
Qed.

Lemma X21_witness :
  Cli.main (fun _ => Some sample_ids) (fun _ => Some sample_ids) (fun _ => 0%Q)
    {| Cli.input_file := "in.xlsx"; Cli.output := "messy_data.csv"; Cli.rows := 2;
       Cli.duplicates := 0; Cli.nulls := 0; Cli.wrong_ranges := 0;
       Cli.wrong_timestamps := 0; Cli.text_corruption := 0 |} [] (entropy [])
  = Some ([], entropy []).
Proof.
  apply (X21_main_writes_two_paths (fun _ => Some sample_ids) (fun _ => Some sample_ids)
           (fun _ => 0%Q)
           {| Cli.input_file := "in.xlsx"; Cli.output := "messy_data.csv"; Cli.rows := 2;
              Cli.duplicates := 0; Cli.nulls := 0; Cli.wrong_ranges := 0;
              Cli.wrong_timestamps := 0; Cli.text_corruption := 0 |} [] (entropy []));
    reflexivity.
Defined.

(** ** The cells of the output *)

Lemma similar_messy info v : similar_to info v -> messy_of info v.
Proof.
  destruct info as [l|lo hi l|lo hi l|l u|l u]; simpl.
  - intros ->. left. reflexivity.
  - intros (x & -> & H). right. exists x. auto.
  - intros (t & -> & H). right. right. exists t. auto.
  - intros H. right. left. exact H.
  - intros H. right. exact H.
Qed.

Lemma row_similar_messy self r : row_similar self r -> row_messy self r.
Proof.
  unfold row_similar, row_messy. intros H.
  eapply Forall2_impl; [|exact H]. intros item cell [H1 H2].
  split; [exact H1|apply similar_messy, H2].
Qed.

Lemma row_messy_keys self r : row_messy self r -> Dict.keys r = Dict.keys (column_types self).
Proof.
  unfold row_messy. generalize (column_types self). intros items H.
  induction H as [|item cell items r [Hk _] _ IH]; simpl; [reflexivity|].
  rewrite IH, Hk. reflexivity.
Qed.

Lemma row_messy_get self row col info :
  NoDup (Dict.keys (column_types self)) -> row_messy self row ->
  In (col, info) (column_types self) ->
  exists v, Dict.get col row = Some v /\ messy_of info v.
Proof.
  unfold row_messy. generalize (column_types self) as items.
  intros items Hnd HF. induction HF as [|[k i] [k' v] items cells [Hk Hs] HF IH];
    intros Hin; [destruct Hin|].
  simpl in *. subst k'. inversion Hnd as [|? ? Hfresh Hnd']; subst.
  destruct Hin as [E|Hin].
  - inversion E; subst. rewrite String.eqb_refl. eauto.
  - destruct (String.eqb col k) eqn:E.
    + apply String.eqb_eq in E. subst k. exfalso. apply Hfresh.
      apply (in_map fst) in Hin. exact Hin.
    + apply IH; assumption.
Qed.

Lemma row_messy_set self row c info v :
  NoDup (Dict.keys (column_types self)) -> row_messy self row ->
  In (c, info) (column_types self) -> messy_of info v ->
  row_messy self (Dict.set c v row).
Proof.
  unfold row_messy. generalize (column_types self) as items.
  intros items Hnd HF. induction HF as [|[k i] [k' x] items cells [Hk Hs] HF IH];
    intros Hin Hv; [destruct Hin|].
  simpl in *. subst k'. inversion Hnd as [|? ? Hfresh Hnd']; subst.
  destruct (String.eqb c k) eqn:E.
  - apply String.eqb_eq in E. subst k. constructor; [|exact HF].
    split; [reflexivity|]. simpl.
    destruct Hin as [E|Hin]; [inversion E; subst; exact Hv|].
    exfalso. apply Hfresh. apply (in_map fst) in Hin. exact Hin.
  - constructor; [split; [reflexivity|exact Hs]|].
    apply IH; try assumption.
    destruct Hin as [E'|Hin]; [|exact Hin].
    inversion E'; subst. rewrite String.eqb_refl in E. discriminate.
Qed.

Lemma rows_messy_writes self cols ws df :
  NoDup (Dict.keys (column_types self)) -> wf df -> incl cols (columns df) ->
  Forall (fun w => fst (fst w) < len df /\ In (snd (fst w)) cols /\
                   exists info, In (snd (fst w), info) (column_types self) /\
                                messy_of info (snd w)) ws ->
  Forall (row_messy self) (rows df) -> Forall (row_messy self) (rows (writes ws df)).
Proof.
  intros Hnd. revert df. induction ws as [|[[r c] v] ws IH]; intros df Hwf Hincl H Hall.
  - exact Hall.
  - inversion H as [|? ? (Hr & Hc & info & Hin & Hv) Hws]; subst. simpl in Hr, Hc, Hin, Hv.
    rewrite writes_cons. unfold write. cbn [fst snd].
    assert (Hc' : In c (columns df)) by (apply Hincl, Hc).
    apply IH.
    + apply at_set_wf; assumption.
    + rewrite at_set_present by assumption. exact Hincl.
    + rewrite at_set_len by exact Hr. exact Hws.
    + rewrite at_set_present by assumption. simpl.
      apply update_nth_Forall; [|exact Hall].
      intros row Hrow. apply (row_messy_set self row c info); assumption.
Qed.

Lemma rows_messy_written self cols (R : string -> value -> Prop) df df' :
  fits self df -> incl cols (Dict.keys (column_types self)) ->
  (forall c v, In c cols -> R c v ->
     exists info, In (c, info) (column_types self) /\ messy_of info v) ->
  written cols R df df' ->
  Forall (row_messy self) (rows df) -> Forall (row_messy self) (rows df').
Proof.
  intros Hfit Hincl HR (ws & -> & Hws) Hall.
  destruct ws as [|w ws]; [exact Hall|].
  assert (Hpos : 0 < len df).
  { inversion Hws as [|? ? (Hr & _) _]; subst. lia. }
  apply (rows_messy_writes self cols); try assumption; try apply Hfit.
  - destruct Hfit as (_ & _ & [H0|Hc]); [lia|]. rewrite Hc. exact Hincl.
  - eapply Forall_impl; [|exact Hws].
    intros w' (H1 & H2 & H3). split; [exact H1|]. split; [exact H2|].
    apply HR; assumption.
Qed.

Lemma copy_messy self df idx d :
  NoDup (Dict.keys (column_types self)) ->
  Forall (row_messy self) (rows df) -> copy_of self df idx d -> row_messy self d.
Proof.
  intros Hnd Hall (row & Hnth & Hd).
  assert (Hrow : row_messy self row).
  { rewrite Forall_forall in Hall. apply Hall. eapply nth_error_In; exact Hnth. }
  destruct Hd as [->|(col & s & m & Hcol & Hget & Hm & ->)]; [exact Hrow|].
  destruct (cols_where_get is_text_like self col Hnd Hcol) as (info & Hinfo & Htext).
  apply (row_messy_set self row col info); try assumption.
  - apply get_some_In, Hinfo.
  - right. destruct info; try discriminate; right; eexists; reflexivity.
Qed.

Lemma copies_messy self df idxs ds :
  NoDup (Dict.keys (column_types self)) ->
  Forall (row_messy self) (rows df) -> Forall2 (copy_of self df) idxs ds ->
  Forall (row_messy self) ds.
Proof.
  intros Hnd Hall HF. induction HF as [|idx d idxs ds Hc _ IH]; constructor; [|exact IH].
  eapply copy_messy; [exact Hnd|exact Hall|exact Hc].
Qed.

Lemma returns_duplicates_messy self df rate :
  fits self df -> (0 <= rate)%Q -> Forall (row_messy self) (rows df) ->
  returns (_add_smart_duplicates self df rate)
          (fun df' => fits self df' /\ Forall (row_messy self) (rows df')).
Proof.
  intros Hfit Hrate Hall g.
  pose proof (add_smart_duplicates_wp self df rate g Hfit Hrate) as H1.
  pose proof (returns_add_smart_duplicates self df rate Hfit Hrate g) as H2.
  unfold wp in *.
  destruct (_add_smart_duplicates self df rate g) as [[df' g']|]; [|destruct H1].
  destruct H1 as (ds & -> & Hcopies & _). destruct H2 as (_ & _ & Hfit' & _).
  split; [exact Hfit'|]. simpl. apply Forall_app. split; [exact Hall|].
  eapply copies_messy; [apply Hfit|exact Hall|exact Hcopies].
Qed.

Lemma returns_messiness_messy self df rates :
  fits self df -> (0 <= duplicate_rate rates)%Q -> Forall (row_messy self) (rows df) ->
  returns (_introduce_messiness self df rates)
          (fun out => fits self out /\ Forall (row_messy self) (rows out)).
Proof.
  intros Hfit Hrate Hall. unfold _introduce_messiness. cbv zeta.
  assert (Hnd : NoDup (Dict.keys (column_types self))) by apply Hfit.
  eapply returns_bind; [apply returns_duplicates_messy; assumption|].
  intros d1 (Hf1 & Ha1).
  eapply returns_bind; [apply returns_add_strategic_nulls, Hf1|].
  intros d2 Hw2.
  destruct (written_fits_keys self _ _ d1 d2 Hf1 (incl_refl _) Hw2) as (Hf2 & _ & _).
  assert (Ha2 : Forall (row_messy self) (rows d2)).
  { refine (rows_messy_written self _ _ d1 d2 Hf1 (incl_refl _) _ Hw2 Ha1).
    intros c v Hc ->. destruct (get_key c (column_types self) Hc) as (info & Hinfo).
    exists info. split; [apply get_some_In, Hinfo|left; reflexivity]. }
  eapply returns_bind; [apply returns_add_wrong_ranges, Hnd|].
  intros d3 Hw3.
  destruct (written_fits_keys self _ _ d2 d3 Hf2
              (fun c => cols_where_keys is_numeric self c) Hw3) as (Hf3 & _ & _).
  assert (Ha3 : Forall (row_messy self) (rows d3)).
  { refine (rows_messy_written self _ _ d2 d3 Hf2
              (fun c => cols_where_keys is_numeric self c) _ Hw3 Ha2).
    intros c v Hc (lo & hi & s & x & Hinfo & -> & Hx).
    exists (numeric lo hi s). split; [apply get_some_In, Hinfo|].
    right. exists x. auto. }
  eapply returns_bind; [apply returns_add_wrong_timestamps|].
  intros d4 (Hw4 & _).
  destruct (written_fits_keys self _ _ d3 d4 Hf3
              (fun c => cols_where_keys is_datetime self c) Hw4) as (Hf4 & _ & _).
  assert (Ha4 : Forall (row_messy self) (rows d4)).
  { refine (rows_messy_written self _ _ d3 d4 Hf3
              (fun c => cols_where_keys is_datetime self c) _ Hw4 Ha3).
    intros c v Hc Hv.
    destruct (cols_where_get is_datetime self c Hnd Hc) as (info & Hinfo & Hdt).
    exists info. split; [apply get_some_In, Hinfo|].
    right. destruct info; try discriminate. left. exact Hv. }
  eapply returns_bind; [apply returns_add_text_corruption, Hf4|].
  intros d5 (Hw5 & _ & Hf5).
  apply returns_ret. split; [exact Hf5|].
  refine (rows_messy_written self _ _ d4 d5 Hf4
            (fun c => cols_where_keys is_text_like self c) _ Hw5 Ha4).
  intros c v Hc (t & ->).
  destruct (cols_where_get is_text_like self c Hnd Hc) as (info & Hinfo & Htext).
  exists info. split; [apply get_some_In, Hinfo|].
  right. destruct info; try discriminate; right; eexists; reflexivity.
Qed.



(** ** Every arrangement is a possible shuffle *)

Lemma permute_ext {A} n (l : list A) g h :
  length l = n -> (forall k, word g k = word h k) ->
  option_map fst (Random.permute n l g) = option_map fst (Random.permute n l h).
Proof.
  revert l g h. induction n as [|n IH]; intros l g h Hl Hw.
  - destruct l; [reflexivity|discriminate].
  - destruct l as [|d t]; [discriminate|].
    cbn [Random.permute]. set (l := d :: t) in *.
    assert (Hpos : 0 < length l) by lia.
    rewrite (bind_run _ (randbelow_run (length l) g Hpos)).
    rewrite (bind_run _ (randbelow_run (length l) h Hpos)).
    rewrite <- (Hw 0). set (i := index_of (word g 0) (length l)).
    assert (Hi : i < length l) by (apply index_of_lt, Hpos).
    assert (Hlen : length (Random.remove_nth i l) = n)
      by (rewrite remove_nth_length by exact Hi; lia).
    assert (Hw' : forall k, word (skip 1 g) k = word (skip 1 h) k).
    { intros k. rewrite !word_skip. apply Hw. }
    specialize (IH (Random.remove_nth i l) (skip 1 g) (skip 1 h) Hlen Hw').
    destruct (permute_run n (Random.remove_nth i l) (skip 1 g) Hlen) as (a & Ha & _).
    destruct (permute_run n (Random.remove_nth i l) (skip 1 h) Hlen) as (b & Hb & _).
    rewrite Ha, Hb in IH. simpl in IH.
    rewrite (bind_run _ Ha), (bind_run _ Hb). simpl.
    inversion IH. reflexivity.
Qed.

Lemma In_position {A} (x : A) l d :
  In x l -> exists i, i < length l /\ nth i l d = x.
Proof.
  intros H. destruct (In_nth l x d H) as (i & Hi & E). exists i. auto.
Qed.

Lemma permute_onto {A} (l' l : list A) :
  Permutation l l' ->
  exists g, option_map fst (Random.permute (length l) l g) = Some l'.
Proof.
  revert l. induction l' as [|x t' IH]; intros l Hperm.
  - apply Permutation_sym, Permutation_nil in Hperm. subst l.
    exists (entropy []). reflexivity.
  - destruct l as [|d t].
    { apply Permutation_nil in Hperm. discriminate. }
    set (l := d :: t) in *.
    assert (Hin : In x l).
    { eapply Permutation_in; [apply Permutation_sym; exact Hperm|]. left. reflexivity. }
    destruct (In_position x l d Hin) as (i & Hi & Hx).
    assert (Hrest : Permutation (Random.remove_nth i l) t').
    { apply (Permutation_cons_inv (a := x)).
      eapply Permutation_trans; [|exact Hperm].
      rewrite <- Hx. apply Permutation_sym, remove_nth_perm, Hi. }
    destruct (IH _ Hrest) as (g1 & Hg1).
    set (g := {| source := fun k => match k with
                                    | O => N.of_nat i
                                    | S k' => source g1 (cursor g1 + k')
                                    end;
                 cursor := 0 |}).
    exists g.
    assert (Hpos : 0 < length l) by (simpl; lia).
    assert (Hunf : Random.permute (length l) l
                   = (i0 <- Random.randbelow (length l) ;;
                      rest <- Random.permute (length t) (Random.remove_nth i0 l) ;;
                      ret (nth i0 l d :: rest))) by reflexivity.
    rewrite Hunf.
    rewrite (bind_run _ (randbelow_run (length l) g Hpos)).
    assert (E0 : index_of (word g 0) (length l) = i).
    { unfold word, g. simpl. apply index_of_onto, Hi. }
    rewrite E0.
    assert (Hlen : length (Random.remove_nth i l) = length t)
      by (rewrite remove_nth_length by exact Hi; simpl; lia).
    assert (Hext : option_map fst (Random.permute (length t) (Random.remove_nth i l)
                                     (skip 1 g))
                   = Some t').
    { rewrite <- Hg1, Hlen.
      apply permute_ext; [exact Hlen|].
      intros k. unfold word, skip, g. simpl. reflexivity. }
    destruct (permute_run (length t) (Random.remove_nth i l) (skip 1 g) Hlen)
      as (a & Ha & _).
    rewrite Ha in Hext. simpl in Hext. inversion Hext; subst a.
    rewrite (bind_run _ Ha). unfold ret. cbn [option_map fst]. rewrite Hx. reflexivity.
Qed.


